(** * Transaction processing and derivation engine of the platform server

    A shallow embedding of [server/core/src/server/storage.ts]
    ([TServerStorage]) and of the digest loader and field-extraction stage
    found in [server/backup/src/backup.ts], with the properties of the
    specification stated over it.

    Conventions.  JavaScript arrays are lists, [Map]s are finite maps
    ([gmap]), [undefined] results are [option]s, a rejected promise or a
    thrown exception is the [Threw] outcome.  Everything that the sources
    import from other packages (the class hierarchy, the storage adapters,
    SHA-1, gzip, JSON) is a parameter of the section that uses it. *)

From Stdlib Require Import ZArith Lia List Bool Ascii String.
From Stdlib Require Import DecimalString DecimalNat.
From stdpp Require Import gmap strings list fin_maps.

Set Warnings "-register-all,-clear-no-such-hyp".

Local Open Scope string_scope.
Local Open Scope list_scope.
Local Open Scope Z_scope.

(** ** Outcomes of code that may throw *)

Inductive Outcome (A : Type) : Type :=
| Ret (a : A)
| Threw (e : string).
Arguments Ret {A} a.
Arguments Threw {A} e.

(** ** Data model *)

(** [Ref<Doc>], [Ref<Class<Doc>>], [Ref<Space>], [Ref<Account>] are all
    branded strings. *)
Abbreviation Ref := string (only parsing).
Abbreviation Domain := string (only parsing).
Abbreviation Timestamp := Z (only parsing).

(** A document.  The three [AttachedDoc] fields are read by the code only
    after a class check ([object as AttachedDoc]); [mixins] lists the mixin
    classes whose attribute sets are present on the instance. *)
Record Doc : Type := mkDoc {
  _id : Ref;
  _class : Ref;
  space : Ref;
  modifiedBy : Ref;
  attachedTo : Ref;
  attachedToClass : Ref;
  collection : string;
  mixins : list Ref
}.

Global Instance Doc_eq_dec : EqDecision Doc.
Proof. solve_decision. Defined.

(** [DocumentUpdate]: the operations the engine inspects or produces. *)
Record DocumentUpdate : Type := mkUpdate {
  op_attachedTo : option Ref;
  op_attachedToClass : option Ref;
  op_collection : option string;
  op_space : option Ref;
  op_inc : option (string * Z)
}.

Definition noUpdate : DocumentUpdate := mkUpdate None None None None None.

(** [{ $inc: { [name]: by } }] *)
Definition incUpdate (name : string) (by_ : Z) : DocumentUpdate :=
  mkUpdate None None None None (Some (name, by_)).

(** [{ space: s }] *)
Definition spaceUpdate (s : Ref) : DocumentUpdate :=
  mkUpdate None None None (Some s) None.

(** Queries issued by the engine. *)
Inductive Query : Type :=
| QId (id : Ref)                                (* { _id } *)
| QAttachedTo (parent : Ref)                    (* { attachedTo } *)
| QAttachedToSpace (parent : Ref) (sp : Ref).   (* { attachedTo, space } *)

(** [DocumentClassQuery] of a [TxApplyIf]: a class and a client query,
    the latter kept as its text. *)
Record ClassQuery : Type := mkCQ { cq_class : Ref; cq_query : string }.

(** Fields common to every transaction. *)
Record TxHead : Type := mkHead {
  tx_space : Ref;
  tx_modifiedBy : Ref;
  tx_modifiedOn : Timestamp
}.

(** Fields common to every CUD transaction; [objectSpace], which every
    transaction has, is kept here for them. *)
Record TxObj : Type := mkObj {
  objectId : Ref;
  objectClass : Ref;
  objectSpace : Ref
}.

(** Modelled from the spec: the transaction classes of package [core]
    (not under src/): "a tagged union over operation kinds: TxCreateDoc,
    TxUpdateDoc, TxRemoveDoc, TxMixin, TxCollectionCUD (a CUD operation
    nested inside ...) and TxApplyIf"; [TxOther] stands for every other
    class, none of which is derived from [TxCUD], with the [objectSpace]
    it carries like any transaction. *)
Inductive Tx : Type :=
| TxCreateDoc (h : TxHead) (o : TxObj)
| TxUpdateDoc (h : TxHead) (o : TxObj) (operations : DocumentUpdate)
| TxRemoveDoc (h : TxHead) (o : TxObj)
| TxMixin (h : TxHead) (o : TxObj) (mixin : Ref) (attributes : DocumentUpdate)
| TxCollectionCUD (h : TxHead) (o : TxObj) (coll : string) (tx : Tx)
| TxApplyIf (h : TxHead) (scope : string)
    (matches notMatch : list ClassQuery) (txes : list Tx)
| TxOther (h : TxHead) (cls : Ref) (objSpace : Ref).

Definition txHead (t : Tx) : TxHead :=
  match t with
  | TxCreateDoc h _ | TxUpdateDoc h _ _ | TxRemoveDoc h _ | TxMixin h _ _ _
  | TxCollectionCUD h _ _ _ | TxApplyIf h _ _ _ _ | TxOther h _ _ => h
  end.

Definition modifiedOn (t : Tx) : Timestamp := tx_modifiedOn (txHead t).

(** [objectId]/[objectClass]/[objectSpace] of a CUD transaction. *)
Definition txObj (t : Tx) : option TxObj :=
  match t with
  | TxCreateDoc _ o | TxUpdateDoc _ o _ | TxRemoveDoc _ o | TxMixin _ o _ _
  | TxCollectionCUD _ o _ _ => Some o
  | TxApplyIf _ _ _ _ _ | TxOther _ _ _ => None
  end.

(** [tx.objectSpace], read off any transaction; the [TxApplyIf]s, which
    [fillTxes] sets apart before it reads it, are not asked for it. *)
Definition txObjectSpace (t : Tx) : option Ref :=
  match t with
  | TxCreateDoc _ o | TxUpdateDoc _ o _ | TxRemoveDoc _ o | TxMixin _ o _ _
  | TxCollectionCUD _ o _ _ => Some (objectSpace o)
  | TxOther _ _ sp => Some sp
  | TxApplyIf _ _ _ _ _ => None
  end.

(** [hierarchy.isDerived(tx._class, core.class.TxCUD)] *)
Definition isTxCUD (t : Tx) : bool :=
  match txObj t with Some _ => true | None => false end.

(** [tx._class === core.class.TxRemoveDoc] *)
Definition isTxRemoveDoc (t : Tx) : bool :=
  match t with TxRemoveDoc _ _ => true | _ => false end.

Definition isTxCreateDoc (t : Tx) : bool :=
  match t with TxCreateDoc _ _ => true | _ => false end.

Definition isTxUpdateDoc (t : Tx) : bool :=
  match t with TxUpdateDoc _ _ _ => true | _ => false end.

(** Modelled from the spec: [TxProcessor.extractTx] of package [core]
    (not under src/): a [TxCollectionCUD] is "a CUD operation nested
    inside"; extraction yields the nested operation and leaves every
    other transaction as it is. *)
Definition extractTx (t : Tx) : Tx :=
  match t with
  | TxCollectionCUD _ _ _ inner => inner
  | _ => t
  end.

(** Well-known identifiers of package [core]. *)
Definition space_Tx : Ref := "core:space:Tx".
Definition space_DerivedTx : Ref := "core:space:DerivedTx".
Definition space_Model : Ref := "core:space:Model".
Definition class_AttachedDoc : Ref := "core:class:AttachedDoc".
Definition class_Collection : Ref := "core:class:Collection".
Definition DOMAIN_MODEL : Domain := "model".
Definition DOMAIN_TX : Domain := "tx".
Definition DOMAIN_TRANSIENT : Domain := "transient".

(** ** Model/hash ledger ([addModelTx], [setModel], [loadModel]) *)

(** [crypto.createHash('sha1')] fed one string and read with
    [digest('hex')], and [JSON.stringify] on a transaction. *)
Class Hashing : Type := {
  sha1 : string -> string;
  stringify : Tx -> string
}.

Module Ledger.
Section Ledger.
Context {HS : Hashing}.

(** The two fields of [TServerStorage] the ledger owns. *)
Record Model : Type := mkModel {
  model : list Tx;
  hashes : list string
}.

(** One step of the closure handed to [model.map] in [setModel]: two
    [update] calls feed [prev] and then the serialised transaction. *)
Definition chainHash (prev : string) (it : Tx) : string :=
  sha1 (prev +:+ stringify it).

(** [model.map((it) => { ...; prev = h.digest('hex'); return prev })] *)
Fixpoint hashChain (prev : string) (m : list Tx) : list string :=
  match m with
  | [] => []
  | it :: rest => let h := chainHash prev it in h :: hashChain h rest
  end.

Definition setModel (m : list Tx) : list string := hashChain "" m.

(** [hash[i-1]] of a chain, with [hash[-1] = ""]. *)
Definition prevHash (hs : list string) (i : nat) : string :=
  match i with
  | O => ""
  | S j => default "" (hs !! j)
  end.

(** The constructor: [readonly model] is stored, [setModel(model)] fills
    [hashes]. *)
Definition construct (m : list Tx) : Model := mkModel m (setModel m).

(** [hashes[hashes.length - 1]]: [undefined] on an empty array. *)
Definition lastHash (hs : list string) : option string := last hs.

(** [addModelTx]: the log is pushed first; [h.update(undefined)] is a
    [TypeError] of node:crypto, raised before anything reaches the
    chain. *)
Definition addModelTx (tx : Tx) (st : Model) : Outcome unit * Model :=
  let m' := model st ++ [tx] in
  match lastHash (hashes st) with
  | None => (Threw "ERR_INVALID_ARG_TYPE", mkModel m' (hashes st))
  | Some prev => (Ret tt, mkModel m' (hashes st ++ [chainHash prev tx]))
  end.

(** [Array.prototype.indexOf]: first position, [-1] when absent. *)
Fixpoint indexOfFrom (i : Z) (x : string) (l : list string) : Z :=
  match l with
  | [] => -1
  | y :: rest => if String.eqb y x then i else indexOfFrom (i + 1) x rest
  end.

Definition indexOf (x : string) (l : list string) : Z := indexOfFrom 0 x l.

Record LoadModelResponse : Type := mkResponse {
  full : bool;
  hash : option string;
  transactions : list Tx
}.

(** [Tx[] | LoadModelResponse] *)
Inductive LoadModelResult : Type :=
| Plain (txes : list Tx)
| Response (r : LoadModelResponse).

(** [model.slice(n)] for [n >= 0]. *)
Definition slice (n : Z) (m : list Tx) : list Tx := drop (Z.to_nat n) m.

Definition loadModel (st : Model) (lastModelTx : Timestamp)
    (h : option string) : LoadModelResult :=
  match h with
  | Some h =>
      let pos := indexOf h (hashes st) in
      if 0 <=? pos
      then Response (mkResponse false (lastHash (hashes st))
                       (slice (pos + 1) (model st)))
      else Response (mkResponse true (lastHash (hashes st)) (model st))
  | None =>
      Plain (List.filter (fun it => lastModelTx <? modifiedOn it) (model st))
  end.

End Ledger.
End Ledger.

(** ** The class hierarchy and the storage collaborators *)

Inductive ClassifierKind : Type := CLASS | INTERFACE | MIXIN.

Global Instance ClassifierKind_eq_dec : EqDecision ClassifierKind.
Proof. solve_decision. Defined.

(** An attribute as the engine reads it: [type._class], and [type.of] when
    the type is a [Collection]. *)
Record Attribute : Type := mkAttr {
  attr_type : Ref;
  attr_of : Ref
}.

(** [ServerStorage['findAll']] with the measure context left out:
    class, query, [options.limit]. *)
Definition FindAll : Type := Ref -> Query -> option nat -> list Doc.

(** The queries of package [core]'s [Hierarchy] the engine uses.
    [classDomain c] is [getClass(c).domain], [None] when [getClass] throws
    or the class declares no domain; [collectDocs c] is the collector
    resource of the [ObjectDDParticipant] mixin of class [c], when the
    class has that mixin.  The other queries are taken as total: the
    engine calls them on classes the model knows, and [findAll] is taken
    to answer (the apply-if serializer, where its rejection matters, has
    its own [Probe]). *)
Class Hierarchy : Type := {
  isDerived : Ref -> Ref -> bool;
  getDomain : Ref -> Domain;
  findDomain : Ref -> option Domain;
  getBaseClass : Ref -> Ref;
  findAttribute : Ref -> string -> option Attribute;
  getAllAttributes : Ref -> option Ref -> list (string * Attribute);
  getAncestors : Ref -> list Ref;
  classDomain : Ref -> option Domain;
  getDescendants : Ref -> list Ref;
  classKind : Ref -> ClassifierKind;
  collectDocs : Ref -> option (Doc -> FindAll -> list Doc)
}.

(** Modelled from the spec: [hierarchy.hasMixin] of package [core] (not
    under src/): a mixin is "actually applied (present) on the concrete
    object instance". *)
Definition hasMixin (object : Doc) (m : Ref) : bool :=
  bool_decide (m ∈ mixins object).

(** Result slots: what an adapter answers and what [processTxes] pushes
    for a [TxApplyIf]. *)
Inductive TxResult : Type :=
| AdapterResult (r : string)
| ApplyIfResult (success : bool).

(** A [DbAdapter] over a database state [DB]: [load] and [tx]. *)
Record DbAdapter (DB : Type) : Type := mkAdapter {
  a_load : DB -> Domain -> list Ref -> list Doc;
  a_tx : DB -> list Tx -> DB * list TxResult
}.
Arguments mkAdapter {DB} _ _.
Arguments a_load {DB} _ _ _ _.
Arguments a_tx {DB} _ _ _.

(** What a [TServerStorage] is constructed with, over a database state
    [DB]: the domain-to-adapter table, the default adapter, the adapters,
    [findAll] as [processTxes] hands it to the derivation passes, the
    registered triggers, and the clock read by [TxFactory]
    ([clock n] is the n-th reading). *)
Class Server (DB : Type) : Type := {
  _domains : gmap Domain string;
  defaultAdapter : string;
  adapters : gmap string (DbAdapter DB);
  findAllDB : DB -> FindAll;
  triggersApply : list Tx -> DB -> gmap Ref Doc -> list Tx;
  clock : nat -> Timestamp
}.

(** ** Engine state *)

Section EngineState.
Context {DB : Type}.

(** [removedMap] is the one [Map] that [processTxes] creates and hands to
    [routeTx] (as [removedDocs]) and to every derivation pass; [calls],
    [live] and [errors] record the [adapter.tx] calls, the transactions fed
    to the live query and the [ctx.error] reports. *)
Record St : Type := mkSt {
  removedMap : gmap Ref Doc;
  tick : nat;
  db : DB;
  calls : list (Domain * list Tx);
  live : list Tx;
  errors : list Tx
}.

Definition setRemoved (id : Ref) (d : Doc) (st : St) : St :=
  mkSt (<[id := d]> (removedMap st)) (tick st) (db st) (calls st) (live st)
       (errors st).

Definition setDb (d : DB) (st : St) : St :=
  mkSt (removedMap st) (tick st) d (calls st) (live st) (errors st).

Definition logCall (dom : Domain) (part : list Tx) (st : St) : St :=
  mkSt (removedMap st) (tick st) (db st) (calls st ++ [(dom, part)])
       (live st) (errors st).

Definition feedLive (part : list Tx) (st : St) : St :=
  mkSt (removedMap st) (tick st) (db st) (calls st) (live st ++ part)
       (errors st).

Definition logError (tx : Tx) (st : St) : St :=
  mkSt (removedMap st) (tick st) (db st) (calls st) (live st)
       (errors st ++ [tx]).

Definition bumpTick (st : St) : St :=
  mkSt (removedMap st) (S (tick st)) (db st) (calls st) (live st) (errors st).

End EngineState.
Arguments St : clear implicits.

(** State-and-exception computations. *)
Definition M (S A : Type) : Type := S -> Outcome A * S.

Definition ret {S A : Type} (a : A) : M S A := fun s => (Ret a, s).

Definition throw {S A : Type} (e : string) : M S A := fun s => (Threw e, s).

Definition bind {S A B : Type} (m : M S A) (k : A -> M S B) : M S B :=
  fun s => match m s with
           | (Ret a, s') => k a s'
           | (Threw e, s') => (Threw e, s')
           end.

Notation "'do' x <- m ; k" := (bind m (fun x => k))
  (at level 10, x name, m at level 100, k at level 200).

(** [for (const a of l) { result.push(...f(a)) }] over a state. *)
Fixpoint forEach {A B S : Type} (f : A -> S -> list B * S) (l : list A)
    (s : S) : list B * S :=
  match l with
  | [] => ([], s)
  | a :: rest =>
      let '(out1, s1) := f a s in
      let '(out2, s2) := forEach f rest s1 in
      (out1 ++ out2, s2)
  end.

(** ** Transaction router ([getAdapter], [routeTx]) *)

Module Router.
Section Router.
Context {H : Hierarchy} {DB : Type} {SV : Server DB}.

(** [this._domains[domain] ?? this.defaultAdapter], then
    [this.adapters.get(name)]. *)
Definition getAdapter (domain : Domain) : Outcome (DbAdapter DB) :=
  let name := default defaultAdapter (_domains !! domain) in
  match adapters !! name with
  | Some a => Ret a
  | None => Threw ("adapter not provided: " +:+ name)
  end.

(** [lastDomain as Domain]: the variable starts [undefined], which as a
    property key reads ["undefined"]. *)
Definition domainKey (lastDomain : option Domain) : Domain :=
  default "undefined" lastDomain.

(** [for (const ddoc of toDeleteDocs) removedDocs.set(ddoc._id, ddoc)] *)
Definition recordRemoved (docs : list Doc) (st : St DB) : St DB :=
  fold_left (fun s ddoc => setRemoved (_id ddoc) ddoc s) docs st.

(** [part.filter(it => it._class === TxRemoveDoc).map(it => it.objectId)] *)
Definition toDelete (part : list Tx) : list Ref :=
  omap (fun it => if isTxRemoveDoc it then objectId <$> txObj it else None)
       part.

(** The closure [processPart]; it answers the grown [result], and its
    caller continues with an empty [part]. *)
Definition processPart (part : list Tx) (lastDomain : option Domain)
    (result : list TxResult) : M (St DB) (list TxResult) :=
  fun st =>
    match part with
    | [] => (Ret result, st)
    | _ :: _ =>
        match getAdapter (domainKey lastDomain) with
        | Threw e => (Threw e, st)
        | Ret adapter =>
            let ids := toDelete part in
            let st1 :=
              match ids with
              | [] => st
              | _ :: _ =>
                  recordRemoved
                    (a_load adapter (db st) (domainKey lastDomain) ids) st
              end in
            let '(db', r) := a_tx adapter (db st1) part in
            let st2 := logCall (domainKey lastDomain) part (setDb db' st1) in
            let st3 := feedLive part st2 in
            (Ret (result ++ r), st3)
        end
    end.

(** The [for (const tx of txes)] loop of [routeTx] with its three
    variables [part], [lastDomain], [result], then the closing
    [processPart]. *)
Fixpoint routeLoop (txes : list Tx) (part : list Tx)
    (lastDomain : option Domain) (result : list TxResult)
    : M (St DB) (list TxResult) :=
  match txes with
  | [] => processPart part lastDomain result
  | tx :: rest =>
      let txCUD := extractTx tx in
      match txObj txCUD with
      | None => fun st => routeLoop rest part lastDomain result (logError tx st)
      | Some o =>
          let domain := getDomain (objectClass o) in
          match part with
          | _ :: _ =>
              if decide (lastDomain = Some domain)
              then routeLoop rest (part ++ [txCUD]) (Some domain) result
              else do result' <- processPart part lastDomain result;
                   routeLoop rest [txCUD] (Some domain) result'
          | [] => routeLoop rest [txCUD] (Some domain) result
          end
      end
  end.

Definition routeTx (txes : list Tx) : M (St DB) (list TxResult) :=
  routeLoop txes [] None [].

(** Vocabulary for the router's properties.  The transactions of a batch
    that reach an adapter (extracted, of a class derived from [TxCUD]) and
    those that are reported and skipped; the domain a transaction is routed
    to; a domain whose adapter is provided. *)
Definition supported (txes : list Tx) : list Tx :=
  List.filter isTxCUD (map extractTx txes).

Definition unsupported (txes : list Tx) : list Tx :=
  List.filter (fun tx => negb (isTxCUD (extractTx tx))) txes.

Definition txDomain (t : Tx) : Domain :=
  match txObj t with
  | Some o => getDomain (objectClass o)
  | None => "undefined"
  end.

Definition served (d : Domain) : Prop :=
  is_Some (adapters !! default defaultAdapter (_domains !! d)).

(** The database once the adapters have applied the runs, one after the
    other. *)
Definition applied (runs : list (Domain * list Tx)) (d0 : DB) : DB :=
  fold_left
    (fun d r =>
       match getAdapter (fst r) with
       | Ret adapter => fst (a_tx adapter d (snd r))
       | Threw _ => d
       end) runs d0.

(** A run is not empty and all of its transactions go to its domain. *)
Definition goodRun (r : Domain * list Tx) : Prop :=
  snd r <> [] /\ Forall (fun t => txDomain t = fst r) (snd r).


End Router.
End Router.

(** ** Derivation engine *)

Module Derivation.
Section Derivation.
Context {H : Hierarchy} {DB : Type} {SV : Server DB}.

(** Modelled from the spec: [TxFactory] of package [core] (not under
    src/): "every Tx carries _id, _class, space, objectId/objectClass (for
    CUD variants), modifiedBy, modifiedOn"; a factory made with
    [new TxFactory(account, true)] stamps the derived-transaction space.
    The generated [_id] is left out; [t] is the clock reading. *)
Definition derivedHead (account : Ref) (t : Timestamp) : TxHead :=
  mkHead space_DerivedTx account t.

Definition createTxRemoveDoc (account : Ref) (t : Timestamp)
    (cls space_ objectId_ : Ref) : Tx :=
  TxRemoveDoc (derivedHead account t) (mkObj objectId_ cls space_).

Definition createTxCollectionCUD (account : Ref) (t : Timestamp)
    (cls objectId_ space_ : Ref) (coll : string) (tx : Tx) : Tx :=
  TxCollectionCUD (derivedHead account t) (mkObj objectId_ cls space_) coll tx.

Definition createTxUpdateDoc (account : Ref) (t : Timestamp)
    (cls space_ objectId_ : Ref) (operations : DocumentUpdate) : Tx :=
  TxUpdateDoc (derivedHead account t) (mkObj objectId_ cls space_) operations.

Definition createTxMixin (account : Ref) (t : Timestamp)
    (objectId_ objectClass_ objectSpace_ mixin : Ref)
    (attributes : DocumentUpdate) : Tx :=
  TxMixin (derivedHead account t) (mkObj objectId_ objectClass_ objectSpace_)
          mixin attributes.

(** One reading of the clock. *)
Definition readClock (st : St DB) : Timestamp * St DB :=
  (clock (tick st), bumpTick st).

(** [getCollectionUpdateTx]; the factory's own stamp is overwritten by
    [tx.modifiedOn = modifiedOn]. *)
Definition getCollectionUpdateTx (id cls modifiedBy_ : Ref)
    (modifiedOn_ : Timestamp) (attachedTo_ : Doc) (update : DocumentUpdate)
    : Tx :=
  let baseClass := getBaseClass cls in
  if decide (baseClass = cls)
  then createTxUpdateDoc modifiedBy_ modifiedOn_ cls (space attachedTo_) id
         update
  else createTxMixin modifiedBy_ modifiedOn_ id (_class attachedTo_)
         (space attachedTo_) cls update.

(** [(await findAll(ctx, c, q, { limit: 1 }))[0]] *)
Definition findOne (findAll : FindAll) (c : Ref) (q : Query) : option Doc :=
  head (findAll c q (Some 1%nat)).

(** [oldTx !== null ? [oldTx] : []] *)
Definition optList {A : Type} (o : option A) : list A :=
  match o with Some a => [a] | None => [] end.

Definition updateCollection (tx : Tx) (findAll : FindAll) : list Tx :=
  match tx with
  | TxCollectionCUD h o coll (TxUpdateDoc _ _ operations) =>
      let id := objectId o in
      let cls := objectClass o in
      if decide (getDomain cls = DOMAIN_MODEL) then []
      else
        match op_attachedTo operations with
        | None => []
        | Some newParent =>
            if decide (newParent = id) then []
            else
              let oldTx :=
                match findOne findAll cls (QId id) with
                | Some oldAttachedTo =>
                    match findAttribute (_class oldAttachedTo) coll with
                    | Some _ =>
                        Some (getCollectionUpdateTx id cls (tx_modifiedBy h)
                                (tx_modifiedOn h) oldAttachedTo
                                (incUpdate coll (-1)))
                    | None => None
                    end
                | None => None
                end in
              let newAttachedToClass :=
                default cls (op_attachedToClass operations) in
              let newAttachedToCollection :=
                default coll (op_collection operations) in
              let newTx :=
                match findOne findAll newAttachedToClass (QId newParent),
                      findAttribute newAttachedToClass newAttachedToCollection
                with
                | Some newAttachedTo, Some _ =>
                    Some (getCollectionUpdateTx (_id newAttachedTo)
                            (_class newAttachedTo) (tx_modifiedBy h)
                            (tx_modifiedOn h) newAttachedTo
                            (incUpdate newAttachedToCollection 1))
                | _, _ => None
                end in
              optList oldTx ++ optList newTx
        end
  | _ => []
  end.

(** Vocabulary for the collection counters.  [counterTx h id cls parent name
    by_ tx]: [tx] is the [$inc]-by-[by_] of attribute [name] issued for
    class [cls] on object [id], stamped like [h]: a [TxUpdateDoc] of class
    [cls] when [cls] is its own base class, and otherwise a [TxMixin] of
    mixin [cls] on the class of the parent document. *)
Definition counterTx (h : TxHead) (id cls : Ref) (parent : Doc)
    (name : string) (by_ : Z) (tx : Tx) : Prop :=
  (getBaseClass cls = cls
   /\ tx = TxUpdateDoc (derivedHead (tx_modifiedBy h) (tx_modifiedOn h))
             (mkObj id cls (space parent)) (incUpdate name by_))
  \/
  (getBaseClass cls <> cls
   /\ tx = TxMixin (derivedHead (tx_modifiedBy h) (tx_modifiedOn h))
             (mkObj id (_class parent) (space parent)) cls
             (incUpdate name by_)).

(** A wrapped update that moves the attached document to another parent:
    [operations.attachedTo] is set and differs from the [objectId] of the
    [TxCollectionCUD]. *)
Definition reparents (tx : Tx) (newParent : Ref) : Prop :=
  match tx with
  | TxCollectionCUD _ o _ (TxUpdateDoc _ _ operations) =>
      op_attachedTo operations = Some newParent /\ newParent <> objectId o
  | _ => False
  end.

(** [processCollection]: one transaction of the loop. *)
Definition processCollectionTx (findAll : FindAll) (rm : gmap Ref Doc)
    (tx : Tx) : list Tx :=
  match tx with
  | TxCollectionCUD h o coll inner =>
      let id := objectId o in
      let cls := objectClass o in
      if decide (getDomain cls = DOMAIN_MODEL) then []
      else
        let isCreateTx := isTxCreateDoc inner in
        let isDeleteTx := isTxRemoveDoc inner in
        let isUpdateTx := isTxUpdateDoc inner in
        (if isUpdateTx then updateCollection tx findAll else [])
        ++
        (if (isCreateTx || isDeleteTx) && negb (bool_decide (is_Some (rm !! id)))
         then
           match findOne findAll cls (QId id) with
           | Some attachedTo_ =>
               [getCollectionUpdateTx id cls (tx_modifiedBy h) (tx_modifiedOn h)
                  attachedTo_ (incUpdate coll (if isCreateTx then 1 else -1))]
           | None => []
           end
         else [])
  | _ => []
  end.

Definition processCollection (txes : list Tx) (findAll : FindAll)
    (rm : gmap Ref Doc) : list Tx :=
  flat_map (processCollectionTx findAll rm) txes.

(** [getParentClass]: the last ancestor that lives in the class's own
    domain. *)
Definition getParentClass (cls : Ref) : Ref :=
  let baseDomain := getDomain cls in
  fold_left
    (fun result ancestor =>
       if decide (classDomain ancestor = Some baseDomain) then ancestor
       else result)
    (getAncestors cls) cls.

Definition getMixins (cls : Ref) (object : Doc) : list Ref :=
  let parentClass := getParentClass cls in
  let descendants := getDescendants parentClass in
  List.filter
    (fun m => bool_decide (classKind m = MIXIN) && hasMixin object m)
    descendants.

(** [deleteObject]: one synthesized remove, and the document recorded in
    [removedMap]. *)
Definition deleteObject (object : Doc) (st : St DB) : list Tx * St DB :=
  if isDerived (_class object) class_AttachedDoc then
    let '(t1, st1) := readClock st in
    let nestedTx :=
      createTxRemoveDoc (modifiedBy object) t1 (_class object) (space object)
        (_id object) in
    let '(t2, st2) := readClock st1 in
    let tx :=
      createTxCollectionCUD (modifiedBy object) t2 (attachedToClass object)
        (attachedTo object) (space object) (collection object) nestedTx in
    ([tx], setRemoved (_id object) object st2)
  else
    let '(t1, st1) := readClock st in
    ([createTxRemoveDoc (modifiedBy object) t1 (_class object) (space object)
        (_id object)],
     setRemoved (_id object) object st1).

(** The body of the attribute loop of [deleteClassCollections]. *)
Definition deleteCollection (findAll : FindAll) (objectId_ : Ref)
    (attribute : string * Attribute) (st : St DB) : list Tx * St DB :=
  if isDerived (attr_type (snd attribute)) class_Collection then
    let allAttached := findAll (attr_of (snd attribute)) (QAttachedTo objectId_)
                         None in
    forEach deleteObject allAttached st
  else ([], st).

Definition deleteClassCollections (findAll : FindAll) (cls objectId_ : Ref)
    (to : option Ref) (st : St DB) : list Tx * St DB :=
  forEach (deleteCollection findAll objectId_) (getAllAttributes cls to) st.

Definition deleteRelatedDocuments (findAll : FindAll) (object : Doc)
    (st : St DB) : list Tx * St DB :=
  match collectDocs (_class object) with
  | Some collector => forEach deleteObject (collector object findAll) st
  | None => ([], st)
  end.

(** [processRemove]: one transaction of the loop. *)
Definition processRemoveTx (findAll : FindAll) (tx : Tx) (st : St DB)
    : list Tx * St DB :=
  match extractTx tx with
  | TxRemoveDoc _ o =>
      match removedMap st !! objectId o with
      | None => ([], st)
      | Some object =>
          let '(r1, st1) :=
            deleteClassCollections findAll (_class object) (objectId o) None st in
          let mixins_ := getMixins (_class object) object in
          let '(r2, st2) :=
            forEach
              (fun mixin =>
                 deleteClassCollections findAll mixin (objectId o)
                   (Some (_class object)))
              mixins_ st1 in
          let '(r3, st3) := deleteRelatedDocuments findAll object st2 in
          (r1 ++ r2 ++ r3, st3)
      end
  | _ => ([], st)
  end.

Definition processRemove (txes : list Tx) (findAll : FindAll) (st : St DB)
    : list Tx * St DB :=
  forEach (processRemoveTx findAll) txes st.

(** Vocabulary for the cascade.  [removeOf d tx]: [tx] is the remove
    synthesized for document [d], a [TxCollectionCUD] addressed to the
    parent of [d] around the [TxRemoveDoc] of [d] when the class of [d] is
    derived from [AttachedDoc], the plain [TxRemoveDoc] of [d] otherwise
    (the clock readings are whatever they were). *)
Definition removeOf (d : Doc) (tx : Tx) : Prop :=
  if isDerived (_class d) class_AttachedDoc
  then exists t1 t2,
      tx = createTxCollectionCUD (modifiedBy d) t2 (attachedToClass d)
             (attachedTo d) (space d) (collection d)
             (createTxRemoveDoc (modifiedBy d) t1 (_class d) (space d) (_id d))
  else exists t1,
      tx = createTxRemoveDoc (modifiedBy d) t1 (_class d) (space d) (_id d).

(** [removedMap.has(k)] *)
Definition keepsRemoved (k : Ref) (st : St DB) : Prop :=
  is_Some (removedMap st !! k).

(** The attached documents found in every [Collection]-typed attribute of
    [getAllAttributes(cls, to)]. *)
Definition attachedOf (findAll : FindAll) (cls : Ref) (to : option Ref)
    (objectId_ : Ref) : list Doc :=
  flat_map
    (fun a : string * Attribute =>
       if isDerived (attr_type (snd a)) class_Collection
       then findAll (attr_of (snd a)) (QAttachedTo objectId_) None
       else [])
    (getAllAttributes cls to).

(** What the class's [ObjectDDParticipant] collector returns. *)
Definition relatedOf (findAll : FindAll) (object : Doc) : list Doc :=
  match collectDocs (_class object) with
  | Some collector => collector object findAll
  | None => []
  end.

(** Every document the removal of [object] (removed under [objectId_])
    cascades to: its class's collections, those of each mixin applied on
    the instance, and the collector's documents. *)
Definition cascadeOf (findAll : FindAll) (object : Doc) (objectId_ : Ref)
    : list Doc :=
  attachedOf findAll (_class object) None objectId_
  ++ flat_map
       (fun m => attachedOf findAll m (Some (_class object)) objectId_)
       (getMixins (_class object) object)
  ++ relatedOf findAll object.

(** The cascade in terms of the hierarchy alone.  [domainRoot cls root]:
    [root] is the last of the ancestors of [cls] that is declared in the
    domain of [cls], and [cls] itself when no ancestor is. *)
Definition domainRoot (cls root : Ref) : Prop :=
  (root = cls
   /\ Forall (fun a => classDomain a <> Some (getDomain cls))
        (getAncestors cls))
  \/ (exists pre post,
        getAncestors cls = pre ++ root :: post
        /\ classDomain root = Some (getDomain cls)
        /\ Forall (fun a => classDomain a <> Some (getDomain cls)) post).

(** The mixins applied on [object] among the descendants of [root], in
    the order of [getDescendants]. *)
Definition appliedMixins (root : Ref) (object : Doc) : list Ref :=
  List.filter
    (fun m => bool_decide (classKind m = MIXIN)
              && bool_decide (m ∈ mixins object))
    (getDescendants root).

(** Every document the removal of [object] cascades to when the mixins are
    those applied on it under [root]. *)
Definition cascadeUnder (findAll : FindAll) (root : Ref) (object : Doc)
    (objectId_ : Ref) : list Doc :=
  attachedOf findAll (_class object) None objectId_
  ++ flat_map
       (fun m => attachedOf findAll m (Some (_class object)) objectId_)
       (appliedMixins root object)
  ++ relatedOf findAll object.

(** [allAttached.map(({_class, space, _id}) => factory.createTxUpdateDoc(...))] *)
Definition moveAttached (account newSpace : Ref) (d : Doc) (st : St DB)
    : list Tx * St DB :=
  let '(t, st1) := readClock st in
  ([createTxUpdateDoc account t (_class d) (space d) (_id d)
      (spaceUpdate newSpace)], st1).

(** [processMove]: one transaction of the loop. *)
Definition processMoveTx (findAll : FindAll) (tx : Tx) (st : St DB)
    : list Tx * St DB :=
  match extractTx tx with
  | TxUpdateDoc _ o operations =>
      match op_space operations with
      | None => ([], st)
      | Some newSpace =>
          if decide (newSpace = objectSpace o) then ([], st)
          else
            forEach
              (fun (attribute : string * Attribute) st' =>
                 if isDerived (attr_type (snd attribute)) class_Collection then
                   forEach
                     (moveAttached (tx_modifiedBy (txHead tx)) newSpace)
                     (findAll (attr_of (snd attribute))
                        (QAttachedToSpace (objectId o) (objectSpace o)) None)
                     st'
                 else ([], st'))
              (getAllAttributes (objectClass o) None) st
      end
  | _ => ([], st)
  end.

Definition processMove (txes : list Tx) (findAll : FindAll) (st : St DB)
    : list Tx * St DB :=
  forEach (processMoveTx findAll) txes st.

(** [derived.sort((a, b) => a.modifiedOn - b.modifiedOn)]: a stable sort. *)
Fixpoint insertTx (t : Tx) (l : list Tx) : list Tx :=
  match l with
  | [] => [t]
  | x :: rest =>
      if modifiedOn t <=? modifiedOn x then t :: x :: rest
      else x :: insertTx t rest
  end.

Fixpoint sortTx (l : list Tx) : list Tx :=
  match l with
  | [] => []
  | t :: rest => insertTx t (sortTx rest)
  end.

(** One pass of [processDerived] up to the call of [processDerivedTxes]:
    the four sub-algorithms, unioned. *)
Definition deriveOnce (txes : list Tx) (st : St DB) : list Tx * St DB :=
  let findAll := findAllDB (db st) in
  let '(removed, st1) := processRemove txes findAll st in
  let collections := processCollection txes findAll (removedMap st1) in
  let '(moves, st2) := processMove txes findAll st1 in
  let triggers := triggersApply txes (db st2) (removedMap st2) in
  (removed ++ collections ++ moves ++ triggers, st2).

(** [processDerivedTxes], with the call back into [processDerived] as
    [again]. *)
Definition processDerivedTxes
    (again : list Tx -> St DB -> option (Outcome (list Tx) * St DB))
    (derived0 : list Tx) (st : St DB) : option (Outcome (list Tx) * St DB) :=
  let derived := sortTx derived0 in
  match Router.routeTx derived st with
  | (Threw e, st1) => Some (Threw e, st1)
  | (Ret _, st1) =>
      match derived with
      | [] => Some (Ret derived, st1)
      | _ :: _ =>
          match again derived st1 with
          | None => None
          | Some (Threw e, st2) => Some (Threw e, st2)
          | Some (Ret nestedTxes, st2) => Some (Ret (derived ++ nestedTxes), st2)
          end
      end
  end.

(** [processDerived] and [processDerivedTxes] call each other without a
    depth cap; [fuel] bounds the number of passes, and [None] says that the
    bound was reached before a pass came back empty. *)
Fixpoint processDerived (fuel : nat) (txes : list Tx) (st : St DB)
    : option (Outcome (list Tx) * St DB) :=
  match fuel with
  | O => None
  | S fuel' =>
      let '(derived, st1) := deriveOnce txes st in
      processDerivedTxes (processDerived fuel') derived st1
  end.

End Derivation.
End Derivation.

(** ** A document store behind the adapter interface *)

Module Store.
Section Store.
Context {H : Hierarchy}.

(** Modelled from the spec: the domain adapters (collaborators, not under
    src/): "documents are created/mutated/removed exclusively via Tx
    application through the Router"; after a remove is applied "a
    subsequent findAll ... returns empty".  One store, a list of documents, serves every
    domain. *)
Definition applyUpdate (ops : DocumentUpdate) (d : Doc) : Doc :=
  mkDoc (_id d) (_class d) (default (space d) (op_space ops)) (modifiedBy d)
        (default (attachedTo d) (op_attachedTo ops))
        (default (attachedToClass d) (op_attachedToClass ops))
        (default (collection d) (op_collection ops))
        (mixins d).

Definition addMixin (m : Ref) (d : Doc) : Doc :=
  mkDoc (_id d) (_class d) (space d) (modifiedBy d) (attachedTo d)
        (attachedToClass d) (collection d)
        (if bool_decide (m ∈ mixins d) then mixins d else mixins d ++ [m]).

Definition hasId (id : Ref) (d : Doc) : bool := String.eqb (_id d) id.

Definition onId (id : Ref) (f : Doc -> Doc) (store : list Doc) : list Doc :=
  map (fun d => if hasId id d then f d else d) store.

(** Modelled from the spec: what applying one CUD transaction does to the
    store (the adapters' [tx], not under src/). *)
Fixpoint applyTx (t : Tx) (store : list Doc) : list Doc :=
  match t with
  | TxCreateDoc h o =>
      if existsb (hasId (objectId o)) store then store
      else store ++ [mkDoc (objectId o) (objectClass o) (objectSpace o)
                       (tx_modifiedBy h) "" "" "" []]
  | TxUpdateDoc _ o ops => onId (objectId o) (applyUpdate ops) store
  | TxRemoveDoc _ o => List.filter (fun d => negb (hasId (objectId o) d)) store
  | TxMixin _ o m _ => onId (objectId o) (addMixin m) store
  | TxCollectionCUD _ _ _ inner => applyTx inner store
  | TxApplyIf _ _ _ _ _ | TxOther _ _ _ => store
  end.

Definition applyAll (l : list Tx) (store : list Doc) : list Doc :=
  fold_left (fun s t => applyTx t s) l store.

Definition storeTx (store : list Doc) (part : list Tx)
    : list Doc * list TxResult :=
  (applyAll part store, map (fun _ => AdapterResult "") part).

Definition storeLoad (store : list Doc) (_ : Domain) (ids : list Ref)
    : list Doc :=
  List.filter (fun d => existsb (String.eqb (_id d)) ids) store.

Definition matchQuery (q : Query) (d : Doc) : bool :=
  match q with
  | QId id => String.eqb (_id d) id
  | QAttachedTo p => String.eqb (attachedTo d) p
  | QAttachedToSpace p s => String.eqb (attachedTo d) p && String.eqb (space d) s
  end.

Definition takeLimit {A : Type} (limit : option nat) (l : list A) : list A :=
  match limit with Some n => take n l | None => l end.

(** Modelled from the spec: the adapters' [findAll] (not under src/):
    the stored documents of the class, of a class derived from it, or
    carrying it as a mixin, that match the query, cut at the limit. *)
Definition storeFindAll (store : list Doc) : FindAll :=
  fun cls q limit =>
    takeLimit limit
      (List.filter
         (fun d => (isDerived (_class d) cls || hasMixin d cls) && matchQuery q d)
         store).

Definition storeAdapter : DbAdapter (list Doc) := mkAdapter storeLoad storeTx.

(** A server whose every domain is served by the store. *)
Definition storeServer (triggers : list Tx -> list Doc -> gmap Ref Doc -> list Tx)
    (clk : nat -> Timestamp) : Server (list Doc) :=
  {| _domains := ∅;
     defaultAdapter := "store";
     adapters := {[ "store" := storeAdapter ]};
     findAllDB := storeFindAll;
     triggersApply := triggers;
     clock := clk |}.

(** Vocabulary for the cascade over the store.  A transaction that moves
    its object to another space; a counter update as the collection pass
    emits it; a remove of a stored document; a routed operation that adds
    no document and gives none another parent. *)
Definition movesSpace (t : Tx) : bool :=
  match extractTx t with
  | TxUpdateDoc _ o ops =>
      match op_space ops with
      | Some s => negb (bool_decide (s = objectSpace o))
      | None => false
      end
  | _ => false
  end.

Definition isCounterTx (t : Tx) : bool :=
  match t with
  | TxUpdateDoc _ _ ops =>
      match op_space ops, op_attachedTo ops with
      | None, None => true
      | _, _ => false
      end
  | TxMixin _ _ _ _ => true
  | _ => false
  end.

Definition stored (store : list Doc) (id : Ref) : bool :=
  existsb (hasId id) store.

Definition removesStored (store : list Doc) (t : Tx) : bool :=
  match extractTx t with
  | TxRemoveDoc _ o => stored store (objectId o)
  | _ => false
  end.

Definition shrinks (t : Tx) : bool :=
  match t with
  | TxUpdateDoc _ _ ops =>
      match op_attachedTo ops with None => true | Some _ => false end
  | TxRemoveDoc _ _ | TxMixin _ _ _ _ => true
  | _ => false
  end.

(** The object a transaction is about. *)
Definition target (t : Tx) : Ref :=
  match txObj (extractTx t) with
  | Some o => objectId o
  | None => ""
  end.

(** The [attachedTo] references of the store have no cycle: every stored
    document ranks below what it is attached to. *)
Definition acyclic (rank : Ref -> nat) (store : list Doc) : Prop :=
  forall d, d ∈ store -> (rank (_id d) < rank (attachedTo d))%nat.

(** How deep below the moved objects of a batch the space-move
    propagation can still reach. *)
Definition moveDepth (rank : Ref -> nat) (txes : list Tx) : nat :=
  fold_right
    (fun t acc => if movesSpace t then Nat.max (S (rank (target t))) acc else acc)
    O txes.

(** A space move as the move pass emits it, for an object ranked below
    [n]. *)
Definition isMoveBelow (rank : Ref -> nat) (n : nat) (t : Tx) : bool :=
  match t with
  | TxUpdateDoc _ o ops =>
      match op_attachedTo ops with
      | None => movesSpace t && (rank (objectId o) <? n)%nat
      | Some _ => false
      end
  | _ => false
  end.

(** What a pass over the store derives when no trigger adds to it: counter
    updates, removes of stored documents, and space moves one level further
    down. *)
Definition cascades (rank : Ref -> nat) (n : nat) (store : list Doc) (t : Tx)
    : bool :=
  isCounterTx t || removesStored store t || isMoveBelow rank n t.

(** Every collector hands back stored documents only: it finds them
    through the [findAll] it is given. *)
Definition collectorsStored : Prop :=
  forall cls collector object store d,
    collectDocs cls = Some collector ->
    d ∈ collector object (storeFindAll store) ->
    stored store (_id d) = true.

End Store.
End Store.

(** ** Apply-if scope serializer ([verifyApplyIf], [fillTxes], [processTxes]) *)

(** [(await findAll(ctx, _class, query, { limit: 1 })).length] for a
    predicate of a [TxApplyIf], or the exception [findAll] rejects with. *)
Class Probe : Type := {
  findCount : ClassQuery -> Outcome nat
}.

Module ApplyIf.

(** [scopes = new Map<string, Promise<any>>()].  Promises are numbered in
    the order they are created; [settled] holds the resolved ones. *)
Record Scopes : Type := mkScopes {
  entries : gmap string nat;
  settled : gset nat;
  fresh : nat
}.

Definition emptyScopes : Scopes := mkScopes ∅ ∅ 0.

(** [this.scopes.get(applyIf.scope)]: the promise the caller awaits. *)
Definition awaited (scope : string) (sc : Scopes) : option nat :=
  entries sc !! scope.

(** The [await] lets the caller go on once the awaited promise is
    resolved; awaiting [undefined] always lets it go on. *)
Definition canResume (w : option nat) (sc : Scopes) : bool :=
  match w with
  | None => true
  | Some p => bool_decide (p ∈ settled sc)
  end.

(** [this.scopes.set(applyIf.scope, new Promise(...))] *)
Definition install (scope : string) (sc : Scopes) : nat * Scopes :=
  (fresh sc,
   mkScopes (<[scope := fresh sc]> (entries sc)) (settled sc) (S (fresh sc))).

(** The closure [onEnd] of the promise [p] installed for [scope]:
    [this.scopes.delete(applyIf.scope); resolve(null)]. *)
Definition onEnd (scope : string) (p : nat) (sc : Scopes) : Scopes :=
  mkScopes (delete scope (entries sc)) ({[p]} ∪ settled sc) (fresh sc).

(** *** One call, nothing else running *)

Section Sequential.
Context {H : Hierarchy} {P : Probe}.

(** [for (const { _class, query } of applyIf.match)] *)
Fixpoint allMatch (l : list ClassQuery) : Outcome bool :=
  match l with
  | [] => Ret true
  | q :: rest =>
      match findCount q with
      | Threw e => Threw e
      | Ret O => Ret false
      | Ret (S _) => allMatch rest
      end
  end.

(** [for (const { _class, query } of applyIf.notMatch)] *)
Fixpoint noneMatch (l : list ClassQuery) : Outcome bool :=
  match l with
  | [] => Ret true
  | q :: rest =>
      match findCount q with
      | Threw e => Threw e
      | Ret O => noneMatch rest
      | Ret (S _) => Ret false
      end
  end.

(** How a call of [verifyApplyIf] ends when no other call runs:
    it never resumes from its first [await], it rejects, or it answers
    [{ passed, onEnd }]. *)
Inductive Verified : Type :=
| VBlocked
| VThrew (e : string)
| VDone (passed : bool) (onEnd_ : string * nat).

Definition verifyApplyIf (scope : string) (matches notMatch : list ClassQuery)
    (sc : Scopes) : Verified * Scopes :=
  if canResume (awaited scope sc) sc then
    let '(p, sc1) := install scope sc in
    match allMatch matches with
    | Threw e => (VThrew e, sc1)
    | Ret false => (VDone false (scope, p), sc1)
    | Ret true =>
        match noneMatch notMatch with
        | Threw e => (VThrew e, sc1)
        | Ret passed => (VDone passed (scope, p), sc1)
        end
    end
  else (VBlocked, sc).

(** The four arrays [fillTxes] pushes to. *)
Record Buckets : Type := mkBuckets {
  txToStore : list Tx;
  modelTx : list Tx;
  txToProcess : list Tx;
  applyTxes : list Tx
}.

Definition isTxApplyIf (t : Tx) : bool :=
  match t with TxApplyIf _ _ _ _ _ => true | _ => false end.

Definition fillTx (b : Buckets) (tx : Tx) : Buckets :=
  if isTxApplyIf tx then
    mkBuckets (txToStore b) (modelTx b) (txToProcess b) (applyTxes b ++ [tx])
  else
    let store :=
      if decide (tx_space (txHead tx) = space_DerivedTx) then false
      else
        match txObj tx with
        | Some o =>
            negb (bool_decide (findDomain (objectClass o) = Some DOMAIN_TRANSIENT))
        | None => true
        end in
    let isModel := bool_decide (txObjectSpace tx = Some space_Model) in
    mkBuckets (if store then txToStore b ++ [tx] else txToStore b)
              (if isModel then modelTx b ++ [tx] else modelTx b)
              (txToProcess b ++ [tx])
              (applyTxes b).

Definition fillTxes (txes : list Tx) (b : Buckets) : Buckets :=
  fold_left fillTx txes b.

(** The state of the [try] block while it walks [applyTxes]. *)
Record Walk : Type := mkWalk {
  buckets : Buckets;
  onEnds : list (string * nat);
  result : list TxResult;
  derived : list Tx;
  scopes : Scopes
}.

Inductive WalkEnd : Type :=
| WalkDone
| WalkThrew (e : string)
| WalkBlocked.

(** [for (const tx of applyTxes)]: [pos] is the index of the iterator;
    the array grows while it is walked, and [fuel] bounds the number of
    iterations. *)
Fixpoint walkApply (fuel : nat) (pos : nat) (w : Walk) : option (WalkEnd * Walk) :=
  match fuel with
  | O => None
  | S fuel' =>
      match applyTxes (buckets w) !! pos with
      | None => Some (WalkDone, w)
      | Some (TxApplyIf _ scope matches notMatch txes) =>
          match verifyApplyIf scope matches notMatch (scopes w) with
          | (VBlocked, sc) =>
              Some (WalkBlocked,
                    mkWalk (buckets w) (onEnds w) (result w) (derived w) sc)
          | (VThrew e, sc) =>
              Some (WalkThrew e,
                    mkWalk (buckets w) (onEnds w) (result w) (derived w) sc)
          | (VDone true oe, sc) =>
              walkApply fuel' (S pos)
                (mkWalk (fillTxes txes (buckets w)) (onEnds w ++ [oe])
                        (result w ++ [ApplyIfResult true]) txes sc)
          | (VDone false oe, sc) =>
              walkApply fuel' (S pos)
                (mkWalk (buckets w) (onEnds w ++ [oe])
                        (result w ++ [ApplyIfResult false]) (derived w) sc)
          end
      | Some _ => walkApply fuel' (S pos) w
      end
  end.

(** [onEnds.forEach((p) => { p() })] *)
Definition runOnEnds (l : list (string * nat)) (sc : Scopes) : Scopes :=
  fold_left (fun s oe => onEnd (fst oe) (snd oe) s) l sc.

(** How a call of [processTxes] ends. *)
Inductive Finished : Type :=
| Returned (result_ : list TxResult) (derived_ : list Tx)
| Rejected (e : string)
| NeverReturns.

(** [processTxes].  [body] is the remainder of the [try] block after the
    apply-if loop (model transactions, the transaction store, [routeTx],
    [processDerived], full-text indexing, trigger effects): it answers the
    routed results and the derived transactions, or throws. *)
Definition processTxes (fuel : nat)
    (body : Buckets -> Outcome (list TxResult * list Tx))
    (txes : list Tx) (sc : Scopes) : option (Finished * Scopes) :=
  let b := fillTxes txes (mkBuckets [] [] [] []) in
  match walkApply fuel 0 (mkWalk b [] [] [] sc) with
  | None => None
  | Some (WalkBlocked, w) => Some (NeverReturns, scopes w)
  | Some (WalkThrew e, w) => Some (Rejected e, runOnEnds (onEnds w) (scopes w))
  | Some (WalkDone, w) =>
      match body (buckets w) with
      | Threw e => Some (Rejected e, runOnEnds (onEnds w) (scopes w))
      | Ret (r, d) =>
          Some (Returned (result w ++ r) (derived w ++ d),
                runOnEnds (onEnds w) (scopes w))
      end
  end.

End Sequential.

(** *** Several calls in flight *)

(** Where a call of [processTxes] that carries one [TxApplyIf] stands:
    not started; suspended at [await this.scopes.get(scope)] on the
    promise it read; past [this.scopes.set], evaluating or applying, with
    its own promise; past its [finally]. *)
Inductive Phase : Type :=
| Idle
| Waiting (w : option nat)
| Evaluating (own : nat)
| Ended.

Record Task : Type := mkTask { t_scope : string; t_phase : Phase }.

(** One run-to-completion segment of a call (JavaScript runs a call
    without interruption between two [await]s). *)
Definition stepTask (t : Task) (sc : Scopes) : option (Task * Scopes) :=
  match t_phase t with
  | Idle => Some (mkTask (t_scope t) (Waiting (awaited (t_scope t) sc)), sc)
  | Waiting w =>
      if canResume w sc then
        let '(p, sc') := install (t_scope t) sc in
        Some (mkTask (t_scope t) (Evaluating p), sc')
      else None
  | Evaluating p => Some (mkTask (t_scope t) Ended, onEnd (t_scope t) p sc)
  | Ended => None
  end.

Record World : Type := mkWorld { w_scopes : Scopes; w_tasks : list Task }.

(** The event loop resumes call number [i]. *)
Definition step (i : nat) (w : World) : option World :=
  match w_tasks w !! i with
  | None => None
  | Some t =>
      match stepTask t (w_scopes w) with
      | None => None
      | Some (t', sc') => Some (mkWorld sc' (<[i := t']> (w_tasks w)))
      end
  end.

Fixpoint run (schedule : list nat) (w : World) : option World :=
  match schedule with
  | [] => Some w
  | i :: rest =>
      match step i w with
      | None => None
      | Some w' => run rest w'
      end
  end.

Definition start (scopes_ : list string) : World :=
  mkWorld emptyScopes (map (fun s => mkTask s Idle) scopes_).

(** Call [i] is inside its evaluation-to-completion window. *)
Definition inWindow (w : World) (i : nat) : Prop :=
  exists s p, w_tasks w !! i = Some (mkTask s (Evaluating p)).

Definition scopeOf (w : World) (i : nat) : option string :=
  t_scope <$> (w_tasks w !! i).

End ApplyIf.

(** ** Backup digests ([loadDigest]) *)

Record SnapshotV6 : Type := mkV6 {
  v6_added : list (Ref * string);
  v6_updated : list (Ref * string);
  v6_removed : list Ref
}.

(** [gunzipSync(await storage.loadFile(name)).toString()] of a
    [BackupStorage], [None] when either call throws. *)
Class BackupStorage : Type := {
  loadText : string -> option string
}.

(** [JSON.parse] of a legacy snapshot read as a [SnapshotV6], [None] when
    parsing or walking its three fields throws. *)
Class SnapshotCodec : Type := {
  parseV6 : string -> option SnapshotV6
}.

Module Digest.

Record DomainData : Type := mkDomainData {
  snapshot : option string;
  snapshots : option (list string)
}.

Record BackupSnapshot : Type := mkBackupSnapshot {
  domains : gmap Domain DomainData;
  date : Z
}.

(** [String.prototype.split] on a one-character separator. *)
Fixpoint splitOn (sep : ascii) (s : string) : list string :=
  match s with
  | EmptyString => [EmptyString]
  | String c rest =>
      if Ascii.eqb c sep then EmptyString :: splitOn sep rest
      else
        match splitOn sep rest with
        | [] => [String c EmptyString]
        | x :: xs => String c x :: xs
        end
  end.

(** White space that [parseInt] skips (the one-byte ones). *)
Definition isWhite (c : ascii) : bool :=
  let n := nat_of_ascii c in
  (n =? 32)%nat || ((9 <=? n)%nat && (n <=? 13)%nat).

Fixpoint trimLeft (s : string) : string :=
  match s with
  | String c rest => if isWhite c then trimLeft rest else s
  | EmptyString => s
  end.

Definition digitVal (c : ascii) : option Z :=
  let n := Z.of_nat (nat_of_ascii c) in
  if (48 <=? n) && (n <=? 57) then Some (n - 48)
  else if (97 <=? n) && (n <=? 102) then Some (n - 87)
  else if (65 <=? n) && (n <=? 70) then Some (n - 55)
  else None.

(** The longest prefix of digits of the radix; [acc] is [None] until a
    digit was read. *)
Fixpoint digitsFrom (radix : Z) (acc : option Z) (s : string) : option Z :=
  match s with
  | EmptyString => acc
  | String c rest =>
      match digitVal c with
      | Some d =>
          if d <? radix then digitsFrom radix (Some (default 0 acc * radix + d)) rest
          else acc
      | None => acc
      end
  end.

(** [parseInt(s)] without a radix; [None] is [NaN]. *)
Definition parseInt (s : string) : option Z :=
  let s1 := trimLeft s in
  let '(sign, s2) :=
    match s1 with
    | String "-" r => (-1, r)
    | String "+" r => (1, r)
    | _ => (1, s1)
    end in
  let '(radix, s3) :=
    match s2 with
    | String "0" (String "x" r) => (16, r)
    | String "0" (String "X" r) => (16, r)
    | _ => (10, s2)
    end in
  Z.mul sign <$> digitsFrom radix None s3.

(** [dataBlob.shift()] *)
Definition shift (l : list string) : option string * list string :=
  (head l, tail l).

(** [dataBlob.splice(0, count)]: the removed elements and what is left;
    a [NaN] or negative count removes nothing. *)
Definition splice0 (count : option Z) (l : list string)
    : list string * list string :=
  let n := match count with Some z => Z.to_nat z | None => O end in
  (take n l, drop n l).

(** [const [k, v] = it.split(';'); result.set(k, v)] *)
Definition setLine (m : gmap Ref (option string)) (it : string)
    : gmap Ref (option string) :=
  let parts := splitOn ";" it in
  <[ default "" (head parts) := parts !! 1%nat ]> m.

(** The body of the [try] once the text of a snapshot file is at hand. *)
Definition applyLines (text : string) (m : gmap Ref (option string))
    : gmap Ref (option string) :=
  let dataBlob := splitOn "010" text in
  let '(c1, b1) := shift dataBlob in
  let addedCount := parseInt (default "0" c1) in
  let '(added, b2) := splice0 addedCount b1 in
  let m1 := fold_left setLine added m in
  let '(c2, b3) := shift b2 in
  let updatedCount := parseInt (default "0" c2) in
  let '(updated, b4) := splice0 updatedCount b3 in
  let m2 := fold_left setLine updated m1 in
  let '(c3, b5) := shift b4 in
  let removedCount := parseInt (default "0" c3) in
  let '(removed, _) := splice0 removedCount b5 in
  fold_left (fun r k => delete k r) removed m2.

Section Digest.
Context {BS : BackupStorage} {SC : SnapshotCodec}.

(** The map under construction and the [ctx.error] reports. *)
Record DState : Type := mkDState {
  digest : gmap Ref (option string);
  broken : list Domain
}.

(** [if (d?.snapshot !== undefined) { ... }]: the legacy JSON snapshot;
    nothing catches what it throws. *)
Definition applyLegacy (d : option DomainData) (m : gmap Ref (option string))
    : Outcome (gmap Ref (option string)) :=
  match d ≫= snapshot with
  | None => Ret m
  | Some file =>
      match loadText file ≫= parseV6 with
      | None => Threw "legacy snapshot"
      | Some dChanges =>
          let m1 := fold_left (fun r kv => <[fst kv := Some (snd kv)]> r)
                      (v6_added dChanges) m in
          let m2 := fold_left (fun r kv => <[fst kv := Some (snd kv)]> r)
                      (v6_updated dChanges) m1 in
          Ret (fold_left (fun r k => delete k r) (v6_removed dChanges) m2)
      end
  end.

(** One file of [d.snapshots], inside its [try]/[catch]. *)
Definition applyFile (domain : Domain) (st : DState) (file : string) : DState :=
  match loadText file with
  | Some text => mkDState (applyLines text (digest st)) (broken st)
  | None => mkDState (digest st) (broken st ++ [domain])
  end.

(** The body of [for (const s of snapshots)], up to the date test. *)
Definition applySnapshot (domain : Domain) (s : BackupSnapshot) (st : DState)
    : Outcome DState :=
  let d := domains s !! domain in
  match applyLegacy d (digest st) with
  | Threw e => Threw e
  | Ret m =>
      Ret (fold_left (applyFile domain) (default [] (d ≫= snapshots))
             (mkDState m (broken st)))
  end.

(** The loop of [loadDigest] from any state; the flag says whether the
    stop date ended it. *)
Fixpoint replay (domain : Domain) (date_ : option Z)
    (l : list BackupSnapshot) (st : DState) : Outcome (bool * DState) :=
  match l with
  | [] => Ret (false, st)
  | s :: rest =>
      match applySnapshot domain s st with
      | Threw e => Threw e
      | Ret st1 =>
          if bool_decide (date_ = Some (date s)) then Ret (true, st1)
          else replay domain date_ rest st1
      end
  end.

Definition loadDigest (l : list BackupSnapshot) (domain : Domain)
    (date_ : option Z) : Outcome (gmap Ref (option string)) :=
  match replay domain date_ l (mkDState ∅ []) with
  | Ret (_, st) => Ret (digest st)
  | Threw e => Threw e
  end.

(** The files [loadDigest] reads for a domain. *)
Definition filesOf (domain : Domain) (s : BackupSnapshot) : list string :=
  let d := domains s !! domain in
  match d ≫= snapshot with Some f => [f] | None => [] end
  ++ default [] (d ≫= snapshots).

End Digest.
End Digest.

(** ** Field-extraction stage ([IndexedFieldStage.collect]) *)

Module FieldStage.

Record DocIndexState : Type := mkState {
  s_id : Ref;
  s_objectClass : Ref;
  s_attachedTo : option Ref;
  s_attributes : list (string * string)
}.

(** The watermark handed to [pipeline.update]: [false] or
    [this.stageValue]. *)
Inductive StageValue : Type := Unset | StageDone.

(** What [collect] works with, over a world state [W] that every awaited
    call may change: the document store, the pipeline and the hierarchy.
    [indexableAttributes] is [getFullTextIndexableAttributes] for a class.
    [indexUpdate] stands for the synchronous part of the [try] block
    ([getContent] over these attributes, [findAllMixins], the [$unset] of
    earlier child fields, the changed values and the custom-attribute
    block): it yields [docUpdate] and [changes], or throws. *)
Class Pipeline (W : Type) : Type := {
  findDocs : W -> Ref -> list Ref -> Outcome (list Doc) * W;
  indexableAttributes : Ref -> Outcome string;
  indexUpdate : string -> Doc -> DocIndexState -> Outcome (string * nat);
  parentPropagate : Ref -> Outcome bool;
  collectPropagate : Ref -> Outcome (list Ref);
  findChildren : W -> list Ref -> Outcome (list DocIndexState) * W;
  classDerived : Ref -> Ref -> bool;
  update : W -> Ref -> StageValue -> string -> Outcome unit * W;
  add : W -> DocIndexState -> W;
  markRemove : W -> DocIndexState -> Outcome unit * W;
  cancelling : W -> bool
}.

Section FieldStage.
Context {W : Type} {PL : Pipeline W}.

(** The state of a call: the world, what [console.error] printed, the
    set [processed], and the variable [allChildDocs] of the class at
    hand. *)
Record CSt : Type := mkCSt {
  world : W;
  console : list string;
  processed : list Ref;
  allChildDocs : option (list DocIndexState)
}.

Definition withWorld (w : W) (st : CSt) : CSt :=
  mkCSt w (console st) (processed st) (allChildDocs st).

Definition consoleError (e : string) (st : CSt) : CSt :=
  mkCSt (world st) (console st ++ [e]) (processed st) (allChildDocs st).

Definition addProcessed (id : Ref) (st : CSt) : CSt :=
  mkCSt (world st) (console st) (processed st ++ [id]) (allChildDocs st).

Definition setChildDocs (a : option (list DocIndexState)) (st : CSt) : CSt :=
  mkCSt (world st) (console st) (processed st) a.

(** An awaited call on the world. *)
Definition call {A : Type} (f : W -> Outcome A * W) : M CSt A :=
  fun st => let '(r, w) := f (world st) in (r, withWorld w st).

(** A synchronous call that may throw. *)
Definition pure {A : Type} (r : Outcome A) : M CSt A := fun st => (r, st).

(** [toIndex.reduce(...)] into [byClass], read with [Object.entries]. *)
Fixpoint addToClass (c : DocIndexState) (g : list (Ref * list DocIndexState))
    : list (Ref * list DocIndexState) :=
  match g with
  | [] => [(s_objectClass c, [c])]
  | (k, vs) :: rest =>
      if String.eqb k (s_objectClass c) then (k, vs ++ [c]) :: rest
      else (k, vs) :: addToClass c rest
  end.

Definition byClass (toIndex : list DocIndexState)
    : list (Ref * list DocIndexState) :=
  fold_left (fun p c => addToClass c p) toIndex [].

(** [new Map(values.map((it) => [it._id, it]))] and its keys in
    insertion order. *)
Definition valueIds (values : list DocIndexState) : gmap Ref DocIndexState :=
  fold_left (fun m it => <[s_id it := it]> m) values ∅.

Fixpoint dedup (seen : list Ref) (l : list Ref) : list Ref :=
  match l with
  | [] => []
  | x :: rest =>
      if existsb (String.eqb x) seen then dedup seen rest
      else x :: dedup (x :: seen) rest
  end.

Definition kidsOf (values : list DocIndexState) : list Ref :=
  dedup [] (map s_id values).

(** [for (const u of childs)] *)
Fixpoint propagateTo (propagate : list Ref) (childs : list DocIndexState)
    : M CSt unit :=
  match childs with
  | [] => ret tt
  | u :: rest =>
      if existsb (fun it => classDerived (s_objectClass u) it) propagate then
        do _ <- call (fun w => update (add w u) (s_id u) Unset "{}");
        propagateTo propagate rest
      else propagateTo propagate rest
  end.

(** [if (allChildDocs === undefined) { allChildDocs = await ... }] *)
Definition childDocs (docs : list Doc) : M CSt (list DocIndexState) :=
  fun st =>
    match allChildDocs st with
    | Some a => (Ret a, st)
    | None =>
        match call (fun w => findChildren w (map _id docs)) st with
        | (Ret a, st') => (Ret a, setChildDocs (Some a) st')
        | (Threw e, st') => (Threw e, st')
        end
    end.

(** The [try] block for one document. *)
Definition tryBlock (objClass : Ref) (attributes : string) (docs : list Doc)
    (doc : Doc) (docState : option DocIndexState) : M CSt unit :=
  match docState with
  | None => throw "TypeError: docState is undefined"
  | Some ds =>
      do r <- pure (indexUpdate attributes doc ds);
      let '(docUpdate, changes) := r in
      do _ <-
        (match s_attachedTo ds with
         | Some parent =>
             if (0 <? changes)%nat then
               do pp <- pure (parentPropagate objClass);
               if pp : bool then call (fun w => update w parent Unset "{}")
               else ret tt
             else ret tt
         | None => ret tt
         end);
      do propagate <- pure (collectPropagate (s_objectClass ds));
      do _ <-
        (match propagate with
         | [] => ret tt
         | _ :: _ =>
             do all_ <- childDocs docs;
             propagateTo propagate
               (List.filter
                  (fun it => bool_decide (s_attachedTo it = Some (s_id ds)))
                  all_)
         end);
      call (fun w => update w (s_id ds) StageDone docUpdate)
  end.

(** One turn of [for (const doc of docs)] past the cancellation test:
    [processed.add], the [try] block, and the [catch] that prints the
    error and continues. *)
Definition attempt (objClass : Ref) (attributes : string)
    (ids : gmap Ref DocIndexState) (docs : list Doc) (doc : Doc) (st : CSt)
    : CSt :=
  let st1 := addProcessed (_id doc) st in
  let docState := ids !! _id doc in
  match tryBlock objClass attributes docs doc docState st1 with
  | (Ret _, st2) => st2
  | (Threw err, st2) => consoleError err st2
  end.

(** [for (const doc of docs)]: [true] when [pipeline.cancelling] made
    [collect] return. *)
Fixpoint docLoop (objClass : Ref) (attributes : string)
    (ids : gmap Ref DocIndexState) (docs : list Doc) (todo : list Doc)
    (st : CSt) : bool * CSt :=
  match todo with
  | [] => (false, st)
  | doc :: rest =>
      if cancelling (world st) then (true, st)
      else docLoop objClass attributes ids docs rest
             (attempt objClass attributes ids docs doc st)
  end.

(** [for (const [v, values] of Object.entries(byClass))] *)
Fixpoint classLoop (groups : list (Ref * list DocIndexState))
    : M CSt bool :=
  match groups with
  | [] => ret false
  | (objClass, values) :: rest =>
      do docs <- call (fun w => findDocs w objClass (kidsOf values));
      do attributes <- pure (indexableAttributes objClass);
      fun st =>
        match docLoop objClass attributes (valueIds values) docs docs
                (setChildDocs None st) with
        | (true, st') => (Ret true, st')
        | (false, st') => classLoop rest st'
        end
  end.

(** [for (const d of toIndex) if (!processed.has(d._id)) ...] *)
Fixpoint removeLoop (toIndex : list DocIndexState) : M CSt unit :=
  match toIndex with
  | [] => ret tt
  | d :: rest =>
      fun st =>
        if existsb (String.eqb (s_id d)) (processed st) then removeLoop rest st
        else (do _ <- call (fun w => markRemove w d); removeLoop rest) st
  end.

Definition collect (toIndex : list DocIndexState) (w : W)
    : Outcome unit * CSt :=
  (do returned <- classLoop (byClass toIndex);
   if returned : bool then ret tt
   else
     fun st =>
       if cancelling (world st) then (Ret tt, st)
       else removeLoop toIndex st)
    (mkCSt w [] [] None).








End FieldStage.
Arguments CSt : clear implicits.
End FieldStage.

(** ** Backup engine ([writeChanges], [backup], [restore], [cleanDomain]) *)

Module Backup.

(** [Snapshot]: the two [Map]s as their entries in insertion order, and the
    array of removed ids. *)
Record Snapshot : Type := mkSnapshot {
  added : list (Ref * string);
  updated : list (Ref * string);
  removed : list Ref
}.

(** [Map.prototype.set]: a present key keeps its place and takes the new
    value, a new key goes last. *)
Fixpoint mapSet (k : Ref) (v : string) (l : list (Ref * string))
    : list (Ref * string) :=
  match l with
  | [] => [(k, v)]
  | (k', v') :: rest =>
      if String.eqb k' k then (k, v) :: rest else (k', v') :: mapSet k v rest
  end.

Definition newline : string := String "010" EmptyString.

(** A count in a template literal: its decimal digits. *)
Definition showNat (n : nat) : string :=
  NilEmpty.string_of_uint (Nat.to_uint n).

(** What a sequence of [write(chunk, writable)] calls sends down the
    stream. *)
Definition written (chunks : list string) : string :=
  fold_right String.append "" chunks.

(** [writeChanges]: the text that ends, gzipped, in the file [snapshot]
    (the storage and the gzip stream are taken not to fail). *)
Definition writeChanges (changes : Snapshot) : string :=
  written
    ([showNat (length (added changes)) +:+ newline]
     ++ map (fun kv => fst kv +:+ ";" +:+ snd kv +:+ newline) (added changes)
     ++ [showNat (length (updated changes)) +:+ newline]
     ++ map (fun kv => fst kv +:+ ";" +:+ snd kv +:+ newline) (updated changes)
     ++ [showNat (length (removed changes)) +:+ newline]
     ++ map (fun k => k +:+ newline) (removed changes)).

(** What a snapshot stands for: its added and updated entries are set, in
    this order, and its removed ids are deleted. *)
Definition setEntries (l : list (Ref * string)) (m : gmap Ref (option string))
    : gmap Ref (option string) :=
  fold_left (fun r kv => <[fst kv := Some (snd kv)]> r) l m.

Definition applyChanges (c : Snapshot) (m : gmap Ref (option string))
    : gmap Ref (option string) :=
  fold_left (fun r k => delete k r) (removed c)
    (setEntries (updated c) (setEntries (added c) m)).

(** [s.includes(c)] for a character. *)
Fixpoint hasChar (c : ascii) (s : string) : bool :=
  match s with
  | EmptyString => false
  | String x rest => Ascii.eqb x c || hasChar c rest
  end.

(** An id or a hash that the line format can carry: no separator and no
    line break in it. *)
Definition plain (s : string) : bool :=
  negb (hasChar ";" s) && negb (hasChar "010" s).

(** One entry of [currentChunk.docs]. *)
Record DocInfo : Type := mkInfo {
  i_id : Ref;
  i_hash : string;
  i_size : Z
}.

(** What [connection.loadChunk] answers, without the cursor [idx]. *)
Record Chunk : Type := mkChunk {
  c_docs : list DocInfo;
  c_finished : bool
}.

Definition retrieveChunkSize : Z := 2 * 1024 * 1024.

(** The variables of [loadChangesFromServer] that outlive a chunk: the
    digest and the change set it is handed, [changed] and
    [needRetrieveChunks]. *)
Record Loading : Type := mkLoading {
  l_digest : gmap Ref (option string);
  l_changes : Snapshot;
  l_changed : nat;
  l_chunks : list (list Ref)
}.

(** [needRetrieve] and [currentNeedRetrieveSize], declared anew for every
    chunk. *)
Record Pending : Type := mkPending {
  p_need : list Ref;
  p_size : Z
}.

(** The body of [for (const { id, hash, size } of currentChunk.docs)].
    [digest.get(id)] of an entry whose hash is [undefined] reads
    [undefined], as for a missing id. *)
Definition loadDoc (acc : Loading * Pending) (d : DocInfo)
    : Loading * Pending :=
  let '(st, pg) := acc in
  let '(st1, pg1) :=
    match l_digest st !! i_id d with
    | Some (Some kHash) =>
        let digest' := delete (i_id d) (l_digest st) in
        if decide (kHash = i_hash d)
        then (mkLoading digest' (l_changes st) (l_changed st) (l_chunks st),
              pg)
        else (mkLoading digest'
                (mkSnapshot (added (l_changes st))
                   (mapSet (i_id d) (i_hash d) (updated (l_changes st)))
                   (removed (l_changes st)))
                (S (l_changed st)) (l_chunks st),
              mkPending (p_need pg ++ [i_id d]) (p_size pg + i_size d))
    | _ =>
        (mkLoading (l_digest st)
           (mkSnapshot (mapSet (i_id d) (i_hash d) (added (l_changes st)))
              (updated (l_changes st)) (removed (l_changes st)))
           (S (l_changed st)) (l_chunks st),
         mkPending (p_need pg ++ [i_id d]) (p_size pg + i_size d))
    end in
  if retrieveChunkSize <? p_size pg1
  then (mkLoading (l_digest st1) (l_changes st1) (l_changed st1)
          (l_chunks st1 ++ [p_need pg1]),
        mkPending [] 0)
  else (st1, pg1).

(** One chunk: the loop over its documents, then
    [if (needRetrieve.length > 0) needRetrieveChunks.push(needRetrieve)]. *)
Definition loadPage (st : Loading) (docs : list DocInfo) : Loading :=
  let '(st1, pg) := fold_left loadDoc docs (st, mkPending [] 0) in
  match p_need pg with
  | [] => st1
  | _ :: _ =>
      mkLoading (l_digest st1) (l_changes st1) (l_changed st1)
        (l_chunks st1 ++ [p_need pg])
  end.

(** [loadChangesFromServer]: the [while (true)] loop over what
    [connection.loadChunk] answers, call after call ([closeChunk] is taken
    not to fail).  A rejected call is logged and the loop asks again, with
    the digest and the change set as they are; [None] when the answers run
    out before a chunk says [finished]. *)
Fixpoint loadChangesFromServer (answers : list (Outcome Chunk)) (st : Loading)
    : option Loading :=
  match answers with
  | [] => None
  | Threw _ :: rest => loadChangesFromServer rest st
  | Ret c :: rest =>
      let st1 := loadPage st (c_docs c) in
      if c_finished c then Some st1 else loadChangesFromServer rest st1
  end.

(** The documents the loop went through. *)
Fixpoint delivered (answers : list (Outcome Chunk)) : list DocInfo :=
  match answers with
  | [] => []
  | Threw _ :: rest => delivered rest
  | Ret c :: rest =>
      c_docs c ++ (if c_finished c then [] else delivered rest)
  end.

(** The documents of a chunk sequence that the digest does not already
    hold with their hash. *)
Definition differs (digest : gmap Ref (option string)) (d : DocInfo) : bool :=
  negb (bool_decide (digest !! i_id d = Some (Some (i_hash d)))).

(** [processedChanges.removed = Array.from(digest.keys())] *)
Definition leftOver (digest : gmap Ref (option string)) : list Ref :=
  elements (dom digest).

(** [Array.prototype.findIndex]: the first position, [-1] when there is
    none. *)
Fixpoint findIndexFrom {A : Type} (i : Z) (p : A -> bool) (l : list A) : Z :=
  match l with
  | [] => -1
  | x :: rest => if p x then i else findIndexFrom (i + 1) p rest
  end.




(** [docsToAdd]: the entries of the change set that the server lacks or
    holds with another hash (a hash on the server is never
    [undefined]). *)
Definition docsToAdd (changeset : gmap Ref (option string))
    (serverChangeset : gmap Ref string) : gmap Ref (option string) :=
  filter (fun kv => serverChangeset !! fst kv = None
                    \/ Some <$> serverChangeset !! fst kv <> Some (snd kv))
    changeset.

(** [docsToRemove]: the ids of the server that the change set does not
    have. *)
Definition docsToRemove (changeset : gmap Ref (option string))
    (serverChangeset : gmap Ref string) : list Ref :=
  List.filter (fun it => bool_decide (changeset !! it = None))
    (map_to_list serverChangeset).*1.

(** The id-to-hash map of the server once the documents of [docsToAdd]
    are uploaded with the hash of the change set and, unless [merge] is
    set, those of [docsToRemove] are cleaned. *)
Definition restored (merge : bool) (changeset : gmap Ref (option string))
    (serverChangeset : gmap Ref string) : gmap Ref (option string) :=
  docsToAdd changeset serverChangeset
  ∪ (Some <$> (if merge then serverChangeset
               else fold_left (fun m k => delete k m)
                      (docsToRemove changeset serverChangeset)
                      serverChangeset)).


Section Retry.
Context {W : Type} (processDomain : W -> Outcome unit * W).



End Retry.



Section Clean.
Context {W : Type} (clean : list Ref -> W -> Outcome unit * W).

(** [while (ids.length > 0) { const part = ids.splice(0, n);
    await connection.clean(domain, part) }], with [n] 5000 in
    [cleanDomain] and 10000 in [restore]; [fuel] bounds the number of
    turns. *)
Fixpoint cleanLoop (fuel n : nat) (ids : list Ref) (w : W)
    : option (Outcome unit * W) :=
  match fuel with
  | O => None
  | S fuel' =>
      match ids with
      | [] => Some (Ret tt, w)
      | _ :: _ =>
          match clean (take n ids) w with
          | (Threw e, w1) => Some (Threw e, w1)
          | (Ret _, w1) => cleanLoop fuel' n (drop n ids) w1
          end
      end
  end.

(** The calls [clean(part)] for the parts of a list, one after the other,
    up to the first that throws. *)
Fixpoint cleanEach (parts : list (list Ref)) (w : W) : Outcome unit * W :=
  match parts with
  | [] => (Ret tt, w)
  | part :: rest =>
      match clean part w with
      | (Threw e, w1) => (Threw e, w1)
      | (Ret _, w1) => cleanEach rest w1
      end
  end.

(** The first loop of [cleanDomain]: the ids of every chunk that
    [connection.loadChunk] hands out, up to the one that says
    [finished]; a rejected call is logged and the loop asks again, with
    the ids gathered so far ([closeChunk] is taken not to fail). *)
Fixpoint collectIds (answers : list (Outcome Chunk)) (ids : list Ref)
    : option (list Ref) :=
  match answers with
  | [] => None
  | Threw _ :: rest => collectIds rest ids
  | Ret c :: rest =>
      let ids' := ids ++ map i_id (c_docs c) in
      if c_finished c then Some ids' else collectIds rest ids'
  end.

Definition cleanDomain (fuel : nat) (answers : list (Outcome Chunk)) (w : W)
    : option (Outcome unit * W) :=
  match collectIds answers [] with
  | None => None
  | Some ids => cleanLoop fuel 5000 ids w
  end.

End Clean.

(** *** A history of snapshots as the change sets it records *)

Section History.
Context {BS : BackupStorage} {SC : SnapshotCodec}.

(** A legacy snapshot read as a change set. *)
Definition ofLegacy (v : SnapshotV6) : Snapshot :=
  mkSnapshot (v6_added v) (v6_updated v) (v6_removed v).

(** A change set that the line format can carry: no id and no hash of its
    entries holds a semicolon or a line break, and no removed id a line
    break. *)
Definition carried (c : Snapshot) : Prop :=
  Forall (fun kv => plain (fst kv) = true /\ plain (snd kv) = true)
    (added c ++ updated c)
  /\ Forall (fun k => hasChar "010" k = false) (removed c).

(** [records domain s cs]: the files of the snapshot [s] for [domain] hold
    the change sets [cs], in the order [loadDigest] reads them: the legacy
    whole-JSON file when there is one, then the line-oriented files, each
    as [writeChanges] writes it. *)
Definition records (domain : Domain) (s : Digest.BackupSnapshot)
    (cs : list Snapshot) : Prop :=
  exists legacy lined,
    cs = legacy ++ lined
    /\ match Digest.domains s !! domain ≫= Digest.snapshot with
       | None => legacy = []
       | Some file =>
           exists v, loadText file ≫= parseV6 = Some v
                     /\ legacy = [ofLegacy v]
       end
    /\ Forall2 (fun file c => loadText file = Some (writeChanges c)
                              /\ carried c)
         (default [] (Digest.domains s !! domain ≫= Digest.snapshots)) lined.

(** The snapshots a replay with a stop date goes through: up to the first
    that bears the date, that one included. *)
Fixpoint upTo (date_ : option Z) (l : list Digest.BackupSnapshot)
    : list Digest.BackupSnapshot :=
  match l with
  | [] => []
  | s :: rest =>
      if bool_decide (date_ = Some (Digest.date s)) then [s]
      else s :: upTo date_ rest
  end.

(** Change sets applied in order. *)
Definition applyAllChanges (cs : list Snapshot) (m : gmap Ref (option string))
    : gmap Ref (option string) :=
  fold_left (fun r c => applyChanges c r) cs m.

End History.
(** What the loop of [loadChangesFromServer] keeps, document after
    document, when no id comes twice: the digest has lost the ids seen and
    nothing else; the change set, applied to the digest the loop started
    from, holds every document seen with its hash; the chunks to retrieve
    and the ids pending are, in order, the ids of the documents that
    differ from the digest. *)
Definition loadInv (digest0 : gmap Ref (option string)) (seen : list DocInfo)
    (st : Loading) (pg : Pending) : Prop :=
  (forall k, l_digest st !! k
             = if decide (k ∈ map i_id seen) then None else digest0 !! k)
  /\ (forall k, k ∈ (added (l_changes st)).*1 -> k ∈ map i_id seen)
  /\ (forall k, k ∈ (updated (l_changes st)).*1 -> k ∈ map i_id seen)
  /\ (forall d, d ∈ seen ->
        setEntries (updated (l_changes st))
          (setEntries (added (l_changes st)) digest0) !! i_id d
        = Some (Some (i_hash d)))
  /\ (forall k, k ∉ map i_id seen ->
        setEntries (updated (l_changes st))
          (setEntries (added (l_changes st)) digest0) !! k
        = digest0 !! k)
  /\ removed (l_changes st) = []
  /\ concat (l_chunks st) ++ p_need pg
     = map i_id (List.filter (differs digest0) seen)
  /\ Forall (fun c => c <> []) (l_chunks st)
  /\ l_changed st = length (List.filter (differs digest0) seen)
  /\ (p_size pg <= retrieveChunkSize).

End Backup.

(** ** More of the engine: the ledger loop, the space moves *)

Module Engine.

Section Ledger.
Context {HS : Hashing}.

(** [for (const tx of modelTx) { this.addModelTx(tx); ... }] of
    [processTxes], as far as the ledger goes: the first call that throws
    ends the loop. *)
Fixpoint addModelTxs (txs : list Tx) (st : Ledger.Model)
    : Outcome unit * Ledger.Model :=
  match txs with
  | [] => (Ret tt, st)
  | tx :: rest =>
      match Ledger.addModelTx tx st with
      | (Ret _, st1) => addModelTxs rest st1
      | (Threw e, st1) => (Threw e, st1)
      end
  end.

End Ledger.

Section Moves.
Context {H : Hierarchy}.



End Moves.

End Engine.

(** * Sample configurations *)

Module Sample.

(** A stand-in digest: the text itself between brackets. *)
Definition hashing : Hashing :=
  {| sha1 := fun s => "<" +:+ s +:+ ">";
     stringify := fun t => "tx@" +:+ tx_modifiedBy (txHead t) |}.

Definition modelTxOf (who : Ref) : Tx :=
  TxCreateDoc (mkHead space_Tx who 0) (mkObj who "core:class:Class" space_Model).

Definition threeTx : list Tx := [modelTxOf "a"; modelTxOf "b"; modelTxOf "c"].

(** A small tracker model: issues hold two collections of comments
    ([comments] and [mentions]); the mixin [Tagged], applied on some
    issues, adds a collection of labels; links to an issue are plain
    documents that the issue class's collector gathers. *)
Definition collectionOf (c : Ref) : Attribute := mkAttr class_Collection c.
Definition textAttr : Attribute := mkAttr "core:class:TypeString" "".

Definition isAttached (c : Ref) : bool :=
  String.eqb c "Comment" || String.eqb c "Label".

Definition hierarchy : Hierarchy :=
  {| isDerived := fun c p =>
       String.eqb c p || (isAttached c && String.eqb p class_AttachedDoc);
     getDomain := fun c =>
       if String.eqb c "Comment" then "chat"
       else if String.eqb c "Label" then "tags"
       else if String.eqb c "core:class:Class" then DOMAIN_MODEL
       else "task";
     findDomain := fun c =>
       Some (if String.eqb c "Comment" then "chat"
             else if String.eqb c "Label" then "tags"
             else if String.eqb c "core:class:Class" then DOMAIN_MODEL
             else "task");
     getBaseClass := fun c => if String.eqb c "Tagged" then "Issue" else c;
     findAttribute := fun c name =>
       if String.eqb c "Issue"
          && (String.eqb name "comments" || String.eqb name "mentions")
       then Some (collectionOf "Comment")
       else if String.eqb c "Tagged" && String.eqb name "labels"
       then Some (collectionOf "Label")
       else None;
     getAllAttributes := fun c to =>
       if String.eqb c "Issue"
       then [("title", textAttr); ("comments", collectionOf "Comment");
             ("mentions", collectionOf "Comment")]
       else if String.eqb c "Tagged"
       then [("labels", collectionOf "Label")]
       else [];
     getAncestors := fun c => [c; "core:class:Doc"];
     classDomain := fun c =>
       if String.eqb c "Issue" then Some "task" else None;
     getDescendants := fun c =>
       if String.eqb c "Issue" then ["Issue"; "Tagged"] else [c];
     classKind := fun c => if String.eqb c "Tagged" then MIXIN else CLASS;
     collectDocs := fun c =>
       if String.eqb c "Issue"
       then Some (fun object findAll =>
                    findAll "Link" (QAttachedTo (_id object)) None)
       else None |}.

Definition issue1 : Doc := mkDoc "issue1" "Issue" "proj" "alice" "" "" "" ["Tagged"].
Definition issue2 : Doc := mkDoc "issue2" "Issue" "proj" "alice" "" "" "" [].
Definition comment1 : Doc :=
  mkDoc "c1" "Comment" "proj" "bob" "issue1" "Issue" "comments" [].
Definition label1 : Doc :=
  mkDoc "l1" "Label" "proj" "bob" "issue1" "Tagged" "labels" [].
Definition link1 : Doc := mkDoc "k1" "Link" "proj" "carol" "issue1" "" "" [].

(** The store once [issue1] has been removed by the router. *)
Definition orphans : list Doc := [issue2; comment1; label1; link1].

(** Issues rank above what is attached to them, and nothing ranks as high
    as the empty reference of a document attached to nothing. *)
Definition rank (id : Ref) : nat :=
  if String.eqb id "" then 2%nat
  else if String.eqb id "issue1" || String.eqb id "issue2" then 1%nat
  else 0%nat.

Definition noTriggers : list Tx -> list Doc -> gmap Ref Doc -> list Tx :=
  fun _ _ _ => [].

Definition server : Server (list Doc) :=
  Store.storeServer (H := hierarchy) noTriggers Z.of_nat.

Definition head0 (who : Ref) : TxHead := mkHead space_Tx who 0.

Definition removeIssue1 : Tx :=
  TxRemoveDoc (head0 "alice") (mkObj "issue1" "Issue" "proj").

(** The state [processTxes] reaches after routing [removeIssue1]. *)
Definition afterRemove : St (list Doc) :=
  mkSt {[ "issue1" := issue1 ]} 0 orphans [] [] [].

(** [issue1] moved to the space [archive]; the store [processTxes] reaches
    after routing the move, with what is attached to the issue still in
    [proj]. *)
Definition moveIssue1 : Tx :=
  TxUpdateDoc (head0 "alice") (mkObj "issue1" "Issue" "proj")
    (spaceUpdate "archive").

Definition afterMove : St (list Doc) :=
  mkSt ∅ 0
    [mkDoc "issue1" "Issue" "archive" "alice" "" "" "" ["Tagged"];
     comment1; label1; link1] [] [] [].

(** Folders that hold folders: a class with a collection of itself. *)
Definition folders : Hierarchy :=
  {| isDerived := String.eqb;
     getDomain := fun _ => "files";
     findDomain := fun _ => Some "files";
     getBaseClass := fun c => c;
     findAttribute := fun _ name =>
       if String.eqb name "children" then Some (collectionOf "Folder")
       else None;
     getAllAttributes := fun _ _ => [("children", collectionOf "Folder")];
     getAncestors := fun c => [c];
     classDomain := fun _ => Some "files";
     getDescendants := fun c => [c];
     classKind := fun _ => CLASS;
     collectDocs := fun _ => None |}.

(** Two folders attached to each other, swapped between two spaces by one
    batch; the store [processTxes] reaches after routing the batch. *)
Definition swapSpaces : list Tx :=
  [TxUpdateDoc (head0 "alice") (mkObj "A" "Folder" "s2") (spaceUpdate "s1");
   TxUpdateDoc (head0 "alice") (mkObj "B" "Folder" "s1") (spaceUpdate "s2")].

Definition afterSwap : St (list Doc) :=
  mkSt ∅ 0
    [mkDoc "A" "Folder" "s1" "alice" "B" "Folder" "children" [];
     mkDoc "B" "Folder" "s2" "alice" "A" "Folder" "children" []] [] [] [].

(** [comment1] moved from an issue that no longer exists to [issue2]. *)
Definition reparentComment : Tx :=
  TxCollectionCUD (head0 "bob") (mkObj "gone" "Issue" "proj") "comments"
    (TxUpdateDoc (head0 "bob") (mkObj "c1" "Comment" "proj")
       (mkUpdate (Some "issue2") None None None None)).

(** [comment1] moved from [issue1] to [issue2], both stored. *)
Definition moveComment : Tx :=
  TxCollectionCUD (head0 "bob") (mkObj "issue1" "Issue" "proj") "comments"
    (TxUpdateDoc (head0 "bob") (mkObj "c1" "Comment" "proj")
       (mkUpdate (Some "issue2") None None None None)).

(** Predicates over a class the hierarchy does not know make [findAll]
    reject; every other predicate finds one document. *)
Definition probe : Probe :=
  {| findCount := fun q =>
       if String.eqb (cq_class q) "Unknown" then Threw "domain not found"
       else Ret 1%nat |}.

Definition applyIfOn (scope : string) (matches : list ClassQuery) : Tx :=
  TxApplyIf (head0 "alice") scope matches []
    [TxUpdateDoc (head0 "alice") (mkObj "issue2" "Issue" "proj") noUpdate].

Definition quietBody : ApplyIf.Buckets -> Outcome (list TxResult * list Tx) :=
  fun _ => Ret ([], []).

(** Two snapshot files in the line-oriented format: the first adds [a]
    and [b]; the second updates [a] and removes [b]. *)
Definition nl : string := String "010" EmptyString.

Definition lines (l : list string) : string :=
  fold_right (fun x acc => x +:+ nl +:+ acc) "" l.

Definition backupFiles : BackupStorage :=
  {| loadText := fun name =>
       if String.eqb name "task-1.snp"
       then Some (lines ["2"; "a;h1"; "b;h2"; "0"; "0"])
       else if String.eqb name "task-2.snp"
       then Some (lines ["0"; "1"; "a;h9"; "1"; "b"])
       else None |}.

Definition noLegacy : SnapshotCodec := {| parseV6 := fun _ => None |}.

Definition snapshotOf (file : string) (date_ : Z) : Digest.BackupSnapshot :=
  Digest.mkBackupSnapshot
    {[ "task" := Digest.mkDomainData None (Some [file]) ]} date_.

Definition history : list Digest.BackupSnapshot :=
  [snapshotOf "task-1.snp" 1; snapshotOf "task-2.snp" 2].

(** A pipeline over a log of its calls: every document is stored, the
    synchronous part of the [try] block throws for the document [bad], and
    nothing else fails. *)
Definition docOf (id : Ref) : Doc := mkDoc id "Issue" "proj" "alice" "" "" "" [].

Definition stateOf (id : Ref) : FieldStage.DocIndexState :=
  FieldStage.mkState id "Issue" None [].

Definition pipeline : FieldStage.Pipeline (list string) :=
  {| FieldStage.findDocs := fun w _ ids =>
       (Ret (map docOf (List.filter (fun i => negb (String.eqb i "gone")) ids)), w);
     FieldStage.indexableAttributes := fun _ => Ret "title";
     FieldStage.indexUpdate := fun _ doc _ =>
       if String.eqb (_id doc) "bad" then Threw "getContent failed"
       else Ret ("{}", 0%nat);
     FieldStage.parentPropagate := fun _ => Ret true;
     FieldStage.collectPropagate := fun _ => Ret [];
     FieldStage.findChildren := fun w _ => (Ret [], w);
     FieldStage.classDerived := String.eqb;
     FieldStage.update := fun w id _ _ => (Ret tt, w ++ ["update " +:+ id]);
     FieldStage.add := fun w _ => w;
     FieldStage.markRemove := fun w d =>
       (Ret tt, w ++ ["markRemove " +:+ FieldStage.s_id d]);
     FieldStage.cancelling := fun _ => false |}.


Definition toIndexSample : list FieldStage.DocIndexState :=
  [stateOf "a"; stateOf "bad"; stateOf "b"; stateOf "gone"].

Definition mixedBatch : list Tx :=
  [ TxCreateDoc (head0 "alice") (mkObj "issue3" "Issue" "proj");
    TxUpdateDoc (head0 "alice") (mkObj "issue2" "Issue" "proj") noUpdate;
    TxOther (head0 "alice") "core:class:TxWorkspaceEvent" "proj";
    TxCollectionCUD (head0 "bob") (mkObj "issue2" "Issue" "proj") "comments"
      (TxCreateDoc (head0 "bob") (mkObj "c2" "Comment" "proj"));
    removeIssue1 ].

End Sample.

(** * More sample configurations *)

Module Cases.

(** A change set: two documents added, one updated, one removed. *)
Definition changes : Backup.Snapshot :=
  Backup.mkSnapshot [("a", "h1"); ("b", "h2")] [("c", "h3")] ["d"].

(** A storage that holds the file written for it. *)
Definition snapshotStore : BackupStorage :=
  {| loadText := fun name =>
       if String.eqb name "task-3.snp"
       then Some (Backup.writeChanges changes)
       else None |}.

(** The digest of the earlier snapshots, and what the server answers to
    the backup: a first call that fails, then two chunks.  [a] is as it
    was, [b] is new and large, [c] has changed, [d] is gone. *)
Definition earlier : gmap Ref (option string) :=
  Some <$> ({[ "a" := "h1"; "c" := "h0"; "d" := "h4" ]} : gmap Ref string).

Definition answers : list (Outcome Backup.Chunk) :=
  [Threw "socket closed";
   Ret (Backup.mkChunk
          [Backup.mkInfo "a" "h1" 10; Backup.mkInfo "b" "h2" 3000000] false);
   Ret (Backup.mkChunk [Backup.mkInfo "c" "h3" 5] true)].

(** A connection that logs the parts it is asked to clean. *)
Definition cleanLog (part : list Ref) (w : list (list Ref))
    : Outcome unit * list (list Ref) :=
  (Ret tt, w ++ [part]).

(** The tracker server with the domain of the comments bound to an
    adapter that is not provided. *)
Definition unserved : Server (list Doc) :=
  {| _domains := {[ "chat" := "missing" ]};
     defaultAdapter := "store";
     adapters := {[ "store" := Store.storeAdapter ]};
     findAllDB := Store.storeFindAll (H := Sample.hierarchy);
     triggersApply := Sample.noTriggers;
     clock := Z.of_nat |}.

(** A trigger that answers every batch with a transaction. *)
Definition echo : list Tx -> list Doc -> gmap Ref Doc -> list Tx :=
  fun _ _ _ => [Sample.removeIssue1].

(** The store before [Sample.moveIssue1] is routed. *)
Definition tracker : list Doc := Sample.issue1 :: Sample.orphans.

(** Two issues that carry the mixin [Tagged], which owns the collection
    [labels]; a label is moved from the first to the second, and another
    one is created on the second. *)
Definition issue5 : Doc :=
  mkDoc "issue5" "Issue" "proj" "alice" "" "" "" ["Tagged"].

Definition tagged : list Doc := [Sample.issue1; issue5; Sample.label1].

Definition moveLabel : Tx :=
  TxCollectionCUD (Sample.head0 "bob") (mkObj "issue1" "Tagged" "proj") "labels"
    (TxUpdateDoc (Sample.head0 "bob") (mkObj "l1" "Label" "proj")
       (mkUpdate (Some "issue5") None None None None)).

Definition addLabel : Tx :=
  TxCollectionCUD (Sample.head0 "bob") (mkObj "issue5" "Tagged" "proj") "labels"
    (TxCreateDoc (Sample.head0 "bob") (mkObj "l2" "Label" "proj")).

(** The tracker model with one more mixin: [Watched] extends
    [core:class:Doc], a class above the domain of the issues, and owns a
    collection of watchers.  It can be applied on any document, and it is
    a descendant of [core:class:Doc] only. *)
Definition watching : Hierarchy :=
  {| isDerived := isDerived (Hierarchy := Sample.hierarchy);
     getDomain := getDomain (Hierarchy := Sample.hierarchy);
     findDomain := findDomain (Hierarchy := Sample.hierarchy);
     getBaseClass := fun c =>
       if String.eqb c "Watched" then "core:class:Doc"
       else getBaseClass (Hierarchy := Sample.hierarchy) c;
     findAttribute := fun c name =>
       if String.eqb c "Watched" && String.eqb name "watchers"
       then Some (Sample.collectionOf "Watcher")
       else findAttribute (Hierarchy := Sample.hierarchy) c name;
     getAllAttributes := fun c to =>
       if String.eqb c "Watched"
       then [("watchers", Sample.collectionOf "Watcher")]
       else getAllAttributes (Hierarchy := Sample.hierarchy) c to;
     getAncestors := getAncestors (Hierarchy := Sample.hierarchy);
     classDomain := classDomain (Hierarchy := Sample.hierarchy);
     getDescendants := fun c =>
       if String.eqb c "core:class:Doc"
       then ["core:class:Doc"; "Issue"; "Tagged"; "Watched"]
       else getDescendants (Hierarchy := Sample.hierarchy) c;
     classKind := fun c =>
       if String.eqb c "Watched" then MIXIN
       else classKind (Hierarchy := Sample.hierarchy) c;
     collectDocs := collectDocs (Hierarchy := Sample.hierarchy) |}.

(** An issue with both mixins applied, a label and a watcher attached to
    it; the store and the state once the router has removed the issue. *)
Definition issue6 : Doc :=
  mkDoc "issue6" "Issue" "proj" "alice" "" "" "" ["Tagged"; "Watched"].

Definition label6 : Doc :=
  mkDoc "l6" "Label" "proj" "bob" "issue6" "Tagged" "labels" [].

Definition watcher1 : Doc :=
  mkDoc "w1" "Watcher" "proj" "dave" "issue6" "Watched" "watchers" [].

Definition removeIssue6 : Tx :=
  TxRemoveDoc (Sample.head0 "alice") (mkObj "issue6" "Issue" "proj").

Definition afterRemove6 : St (list Doc) :=
  mkSt {[ "issue6" := issue6 ]} 0 [label6; watcher1] [] [] [].

End Cases.

(** * Properties *)

(** ** Model/hash ledger *)

Section LedgerProps.
Context {HS : Hashing}.
Import Ledger.

Lemma hashChain_length (m : list Tx) (prev : string) :
  length (hashChain prev m) = length m.
Proof.
  revert prev. induction m as [|it rest IH]; intros prev; simpl; [done|].
  by rewrite IH.
Qed.

Lemma hashChain_app (m1 m2 : list Tx) (prev : string) :
  hashChain prev (m1 ++ m2) =
  hashChain prev m1 ++ hashChain (default prev (last (hashChain prev m1))) m2.
Proof.
  revert prev. induction m1 as [|it rest IH]; intros prev; [reflexivity|].
  cbn [hashChain app]. rewrite IH. f_equal. f_equal.
  rewrite last_cons.
  by destruct (last (hashChain (chainHash prev it) rest)).
Qed.

Lemma hashChain_lookup (m : list Tx) (prev : string) (i : nat) (tx : Tx) :
  m !! i = Some tx ->
  hashChain prev m !! i =
  Some (chainHash (match i with
                   | O => prev
                   | S j => default "" (hashChain prev m !! j)
                   end) tx).
Proof.
  revert prev i. induction m as [|it rest IH]; intros prev i Hi; [done|].
  destruct i as [|i]; simpl in *.
  - by inversion Hi.
  - rewrite (IH _ _ Hi). destruct i as [|i]; simpl; [done|].
    done.
Qed.

Lemma setModel_chain (m : list Tx) (i : nat) (tx : Tx) :
  m !! i = Some tx ->
  setModel m !! i = Some (chainHash (prevHash (setModel m) i) tx).
Proof.
  intros Hi. unfold setModel. rewrite (hashChain_lookup _ _ _ _ Hi).
  by destruct i.
Qed.

Lemma setModel_snoc (m : list Tx) (tx : Tx) (prev : string) :
  last (setModel m) = Some prev ->
  setModel (m ++ [tx]) = setModel m ++ [chainHash prev tx].
Proof.
  intros Hl. unfold setModel in *. rewrite hashChain_app, Hl. done.
Qed.

Lemma setModel_nonempty (m : list Tx) :
  m <> [] -> is_Some (last (setModel m)).
Proof.
  intros Hm. destruct (setModel m) as [|h hs] eqn:E.
  - apply (f_equal length) in E. unfold setModel in E.
    rewrite hashChain_length in E. destruct m; [done|discriminate].
  - rewrite last_is_Some. done.
Qed.

(** The chain law for the initial model list, and what [addModelTx] does to
    a ledger built from a non-empty list: both arrays grow by one element,
    the earlier chain is a prefix of the new one, and the grown chain is the
    chain of the grown log. *)
Lemma addModelTx_extends (m : list Tx) (tx : Tx) :
  m <> [] ->
  exists h,
    addModelTx tx (construct m) = (Ret tt, mkModel (m ++ [tx]) (setModel m ++ [h]))
    /\ setModel m ++ [h] = setModel (m ++ [tx]).
Proof.
  intros Hm. destruct (setModel_nonempty m Hm) as [prev Hprev].
  exists (chainHash prev tx). unfold addModelTx, construct, lastHash. simpl.
  rewrite Hprev. split; [done|]. by rewrite (setModel_snoc _ _ _ Hprev).
Qed.

(** C6 (the code at the failing input): on the ledger of an empty model
    list, [addModelTx] pushes the transaction to the log and then throws;
    the hash chain stays empty, although the chain law gives the first
    element as [SHA1("" || serialize(tx))], which is what [setModel]
    computes for the same one-element log. *)
Theorem addModelTx_empty_chain_throws (tx : Tx) :
  addModelTx tx (construct []) =
    (Threw "ERR_INVALID_ARG_TYPE", mkModel [tx] [])
  /\ setModel [tx] = [chainHash "" tx].
Proof. split; reflexivity. Qed.

Lemma indexOfFrom_first (x : string) (l : list string) (i : Z) (p : nat) :
  l !! p = Some x ->
  (forall q, (q < p)%nat -> l !! q <> Some x) ->
  indexOfFrom i x l = i + Z.of_nat p.
Proof.
  revert i p. induction l as [|y rest IH]; intros i p Hp Hfirst; [done|].
  simpl. destruct p as [|p]; simpl in Hp.
  - inversion Hp; subst. rewrite String.eqb_refl. lia.
  - destruct (String.eqb_spec y x) as [->|Hne].
    + exfalso. apply (Hfirst 0%nat); [lia|done].
    + rewrite (IH (i + 1) p Hp); [lia|].
      intros q Hq. apply (Hfirst (S q)). lia.
Qed.

Lemma indexOfFrom_absent (x : string) (l : list string) (i : Z) :
  x ∉ l -> indexOfFrom i x l = -1.
Proof.
  revert i. induction l as [|y rest IH]; intros i Hx; [done|].
  simpl. destruct (String.eqb_spec y x) as [->|Hne].
  - exfalso. apply Hx. by left.
  - apply IH. intros Hin. apply Hx. by right.
Qed.

(** C5: [loadModel] with a hash.  When the hash is in the chain and [p] is
    the position [indexOf] finds (its first occurrence), the answer is
    [full: false], the last chain element and [model.slice(p + 1)]; when
    the hash is not in the chain the answer is [full: true], the last chain
    element and the whole model list.  In a chain without repeated elements
    every position holding the hash is that first occurrence. *)
Theorem loadModel_hash (st : Model) (ts : Timestamp) (h : string) :
  (forall p,
     hashes st !! p = Some h ->
     (forall q, (q < p)%nat -> hashes st !! q <> Some h) ->
     loadModel st ts (Some h) =
       Response (mkResponse false (last (hashes st)) (drop (S p) (model st))))
  /\ (h ∉ hashes st ->
      loadModel st ts (Some h) =
        Response (mkResponse true (last (hashes st)) (model st)))
  /\ (NoDup (hashes st) ->
      forall p,
        hashes st !! p = Some h ->
        loadModel st ts (Some h) =
          Response (mkResponse false (last (hashes st)) (drop (S p) (model st)))).
Proof.
  assert (Hfirst : forall p,
     hashes st !! p = Some h ->
     (forall q, (q < p)%nat -> hashes st !! q <> Some h) ->
     loadModel st ts (Some h) =
       Response (mkResponse false (last (hashes st)) (drop (S p) (model st)))).
  { intros p Hp Hq. unfold loadModel, indexOf.
    rewrite (indexOfFrom_first _ _ _ _ Hp Hq).
    rewrite (proj2 (Z.leb_le 0 (0 + Z.of_nat p))) by lia.
    unfold slice, lastHash. do 3 f_equal. lia. }
  split; [exact Hfirst|]. split.
  - intros Hx. unfold loadModel, indexOf. by rewrite indexOfFrom_absent.
  - intros Hnd p Hp. apply Hfirst; [done|].
    intros q Hq Hqh.
    pose proof (NoDup_lookup _ _ _ _ Hnd Hp Hqh). lia.
Qed.

End LedgerProps.

(** A ledger of three transactions: the hash at position 1 selects the
    suffix after it, an unknown hash selects everything. *)
Lemma loadModel_hash_witness :
  let st := Ledger.construct (HS := Sample.hashing) Sample.threeTx in
  Ledger.loadModel st 0 (Some "<<tx@a>tx@b>") =
    Ledger.Response
      (Ledger.mkResponse false (Some "<<<tx@a>tx@b>tx@c>") [Sample.modelTxOf "c"])
  /\ Ledger.loadModel st 0 (Some "stale") =
       Ledger.Response
         (Ledger.mkResponse true (Some "<<<tx@a>tx@b>tx@c>") Sample.threeTx).
Proof.
  pose proof (loadModel_hash
                (Ledger.construct (HS := Sample.hashing) Sample.threeTx) 0)
    as Hspec.
  split.
  - destruct (Hspec "<<tx@a>tx@b>") as [Hfirst _].
    rewrite (Hfirst 1%nat); [reflexivity|reflexivity|].
    intros [|q] Hq; [discriminate|lia].
  - destruct (Hspec "stale") as [_ [Habsent _]].
    rewrite Habsent; [reflexivity|]. vm_compute. intros Hin.
    repeat (apply elem_of_cons in Hin as [Hin|Hin]; [discriminate|]).
    by apply elem_of_nil in Hin.
Defined.

(** ** Transaction router *)

Section RouterProps.
Context {H : Hierarchy} {DB : Type} {SV : Server DB}.
Import Router.

Lemma recordRemoved_frame (docs : list Doc) (st : St DB) :
  db (recordRemoved docs st) = db st
  /\ calls (recordRemoved docs st) = calls st
  /\ live (recordRemoved docs st) = live st
  /\ errors (recordRemoved docs st) = errors st
  /\ tick (recordRemoved docs st) = tick st.
Proof.
  unfold recordRemoved. revert st.
  induction docs as [|d rest IH]; intros st; simpl; [done|].
  destruct (IH (setRemoved (_id d) d st)) as (-> & -> & -> & -> & ->). done.
Qed.



Lemma isTxCUD_txObj (t : Tx) (o : TxObj) : txObj t = Some o -> isTxCUD t = true.
Proof. unfold isTxCUD. by intros ->. Qed.

Lemma supported_cons_skip (tx : Tx) (rest : list Tx) :
  txObj (extractTx tx) = None ->
  supported (tx :: rest) = supported rest
  /\ unsupported (tx :: rest) = tx :: unsupported rest.
Proof.
  intros Hno. unfold supported, unsupported, isTxCUD. simpl. by rewrite Hno.
Qed.

Lemma supported_cons_keep (tx : Tx) (rest : list Tx) (o : TxObj) :
  txObj (extractTx tx) = Some o ->
  supported (tx :: rest) = extractTx tx :: supported rest
  /\ unsupported (tx :: rest) = unsupported rest.
Proof.
  intros Hso. unfold supported, unsupported, isTxCUD. simpl. by rewrite Hso.
Qed.





End RouterProps.

(** ** Derivation engine: cascading removal *)

Section ForEachProps.
Context {A B S : Type}.

Lemma forEach_app (f : A -> S -> list B * S) (l1 l2 : list A) (s : S) :
  forEach f (l1 ++ l2) s =
  let '(o1, s1) := forEach f l1 s in
  let '(o2, s2) := forEach f l2 s1 in
  (o1 ++ o2, s2).
Proof.
  revert s. induction l1 as [|a rest IH]; intros s; simpl.
  - by destruct (forEach f l2 s).
  - destruct (f a s) as [oa sa]. rewrite IH.
    destruct (forEach f rest sa) as [o1 s1].
    destruct (forEach f l2 s1) as [o2 s2]. by rewrite app_assoc.
Qed.

(** A property of the state that each step keeps is kept by the loop. *)
Lemma forEach_keeps (P : S -> Prop) (f : A -> S -> list B * S) (l : list A) :
  (forall a s, P s -> P (snd (f a s))) ->
  forall s, P s -> P (snd (forEach f l s)).
Proof.
  intros Hf. induction l as [|a rest IH]; intros s Hs; simpl; [done|].
  specialize (Hf a s Hs). destruct (f a s) as [oa sa]. simpl in Hf.
  specialize (IH sa Hf). by destruct (forEach f rest sa).
Qed.

(** The outputs, step by step, against the inputs they come from. *)
Lemma forEach_Forall2 {C : Type} (R : C -> B -> Prop) (g : A -> list C)
    (f : A -> S -> list B * S) (l : list A) :
  (forall a s, Forall2 R (g a) (fst (f a s))) ->
  forall s, Forall2 R (flat_map g l) (fst (forEach f l s)).
Proof.
  intros Hf. induction l as [|a rest IH]; intros s; simpl; [constructor|].
  specialize (Hf a s). destruct (f a s) as [oa sa]. simpl in Hf.
  specialize (IH sa). destruct (forEach f rest sa) as [o1 s1]. simpl in *.
  by apply Forall2_app.
Qed.

End ForEachProps.

Section RemoveProps.
Context {H : Hierarchy} {DB : Type} {SV : Server DB}.
Import Derivation.

Lemma deleteObject_removeOf (d : Doc) (st : St DB) :
  Forall2 removeOf [d] (fst (deleteObject d st)).
Proof.
  unfold deleteObject, readClock.
  destruct (isDerived (_class d) class_AttachedDoc) eqn:E; simpl;
    (constructor; [unfold removeOf; rewrite E|constructor]); eauto.
Qed.

Lemma deleteObject_keeps (k : Ref) (d : Doc) (st : St DB) :
  keepsRemoved k st -> keepsRemoved k (snd (deleteObject d st)).
Proof.
  unfold keepsRemoved, deleteObject, readClock. intros Hk.
  destruct (isDerived (_class d) class_AttachedDoc); simpl;
    (destruct (decide (_id d = k)) as [->|Hne];
     [rewrite lookup_insert_eq; eauto | by rewrite lookup_insert_ne]).
Qed.

Lemma deleteObjects_removeOf (docs : list Doc) (st : St DB) :
  Forall2 removeOf docs (fst (forEach deleteObject docs st)).
Proof.
  pose proof (forEach_Forall2 removeOf (fun d : Doc => [d]) deleteObject docs
                deleteObject_removeOf st) as Hall.
  assert (Hflat : flat_map (fun d : Doc => [d]) docs = docs).
  { clear. induction docs as [|d rest IH]; simpl; [done|]. by rewrite IH. }
  by rewrite Hflat in Hall.
Qed.

Lemma deleteClassCollections_removeOf (findAll : FindAll) (cls k : Ref)
    (to : option Ref) (st : St DB) :
  Forall2 removeOf (attachedOf findAll cls to k)
    (fst (deleteClassCollections findAll cls k to st)).
Proof.
  unfold attachedOf, deleteClassCollections.
  apply forEach_Forall2. intros a s. unfold deleteCollection.
  destruct (isDerived (attr_type (snd a)) class_Collection).
  - apply deleteObjects_removeOf.
  - constructor.
Qed.

Lemma deleteClassCollections_keeps (findAll : FindAll) (cls id k : Ref)
    (to : option Ref) (st : St DB) :
  keepsRemoved k st ->
  keepsRemoved k (snd (deleteClassCollections findAll cls id to st)).
Proof.
  unfold deleteClassCollections. apply forEach_keeps. intros a s Hs.
  unfold deleteCollection.
  destruct (isDerived (attr_type (snd a)) class_Collection); [|done].
  revert Hs. apply forEach_keeps. intros d s'. apply deleteObject_keeps.
Qed.

Lemma deleteRelatedDocuments_removeOf (findAll : FindAll) (object : Doc)
    (st : St DB) :
  Forall2 removeOf (relatedOf findAll object)
    (fst (deleteRelatedDocuments findAll object st)).
Proof.
  unfold relatedOf, deleteRelatedDocuments.
  destruct (collectDocs (_class object)); [|constructor].
  apply deleteObjects_removeOf.
Qed.

Lemma deleteRelatedDocuments_keeps (findAll : FindAll) (object : Doc) (k : Ref)
    (st : St DB) :
  keepsRemoved k st ->
  keepsRemoved k (snd (deleteRelatedDocuments findAll object st)).
Proof.
  unfold deleteRelatedDocuments.
  destruct (collectDocs (_class object)); [|done].
  apply forEach_keeps. intros d s'. apply deleteObject_keeps.
Qed.

(** One remove transaction whose target is in [removedMap]: the output is,
    document by document, the removes of its cascade. *)
Lemma processRemoveTx_cascade (findAll : FindAll) (tx : Tx) (h : TxHead)
    (o : TxObj) (object : Doc) (st : St DB) :
  extractTx tx = TxRemoveDoc h o ->
  removedMap st !! objectId o = Some object ->
  Forall2 removeOf (cascadeOf findAll object (objectId o))
    (fst (processRemoveTx findAll tx st)).
Proof.
  intros Htx Hobj. unfold processRemoveTx, cascadeOf. rewrite Htx, Hobj.
  pose proof (deleteClassCollections_removeOf findAll (_class object)
                (objectId o) None st) as H1.
  destruct (deleteClassCollections findAll (_class object) (objectId o) None st)
    as [r1 st1].
  pose proof (forEach_Forall2 removeOf
                (fun m => attachedOf findAll m (Some (_class object)) (objectId o))
                (fun mixin =>
                   deleteClassCollections findAll mixin (objectId o)
                     (Some (_class object)))
                (getMixins (_class object) object)
                (fun m s => deleteClassCollections_removeOf findAll m
                              (objectId o) (Some (_class object)) s)
                st1) as H2.
  destruct (forEach _ (getMixins (_class object) object) st1) as [r2 st2].
  pose proof (deleteRelatedDocuments_removeOf findAll object st2) as H3.
  destruct (deleteRelatedDocuments findAll object st2) as [r3 st3].
  simpl in *. by repeat apply Forall2_app.
Qed.

Lemma processRemoveTx_keeps (findAll : FindAll) (tx : Tx) (k : Ref) (st : St DB) :
  keepsRemoved k st -> keepsRemoved k (snd (processRemoveTx findAll tx st)).
Proof.
  intros Hk. unfold processRemoveTx.
  destruct (extractTx tx); try done.
  destruct (removedMap st !! objectId o) as [object|]; [|done].
  pose proof (deleteClassCollections_keeps findAll (_class object)
                (objectId o) k None st Hk) as H1.
  destruct (deleteClassCollections findAll (_class object) (objectId o) None st)
    as [r1 st1].
  pose proof (forEach_keeps (keepsRemoved k)
                (fun mixin =>
                   deleteClassCollections findAll mixin (objectId o)
                     (Some (_class object)))
                (getMixins (_class object) object)
                (fun m s => deleteClassCollections_keeps findAll m
                              (objectId o) k (Some (_class object)) s)
                st1 H1) as H2.
  destruct (forEach _ (getMixins (_class object) object) st1) as [r2 st2].
  pose proof (deleteRelatedDocuments_keeps findAll object k st2 H2) as H3.
  by destruct (deleteRelatedDocuments findAll object st2) as [r3 st3].
Qed.

(** [getParentClass] answers the domain root of the class, and nothing
    else is one. *)
Lemma getParentClass_root (cls : Ref) : domainRoot cls (getParentClass cls).
Proof.
  assert (Hfold : forall (dom : Domain) (l : list Ref) (init : Ref),
            let r := fold_left
                       (fun result ancestor =>
                          if decide (classDomain ancestor = Some dom)
                          then ancestor else result) l init in
            (r = init /\ Forall (fun a => classDomain a <> Some dom) l)
            \/ (exists pre post,
                  l = pre ++ r :: post
                  /\ classDomain r = Some dom
                  /\ Forall (fun a => classDomain a <> Some dom) post)).
  { intros dom l init.
    induction l as [|a l IH] using rev_ind; cbn zeta in *.
    - left. by split.
    - rewrite fold_left_app. cbn [fold_left].
      destruct (decide (classDomain a = Some dom)) as [Ha|Ha].
      + right. exists l, []. split_and!; [done|done|constructor].
      + destruct IH as [[Heq Hall]|(pre & post & Hl & Hd & Hall)].
        * left. split; [done|]. apply Forall_app. split; [done|].
          by constructor.
        * right. exists pre, (post ++ [a]). split_and!.
          -- rewrite Hl at 1. by rewrite <- app_assoc.
          -- done.
          -- apply Forall_app. split; [done|]. by constructor. }
  apply (Hfold (getDomain cls) (getAncestors cls) cls).
Qed.

Lemma domainRoot_unique (cls root : Ref) :
  domainRoot cls root -> root = getParentClass cls.
Proof.
  unfold domainRoot, getParentClass. generalize (getDomain cls) as dom.
  intros dom.
  assert (Hskip : forall (l : list Ref) (init : Ref),
            Forall (fun a => classDomain a <> Some dom) l ->
            fold_left
              (fun result ancestor =>
                 if decide (classDomain ancestor = Some dom) then ancestor
                 else result) l init = init).
  { intros l init Hl. revert init.
    induction Hl as [|a l Ha _ IH]; intros init; [done|].
    cbn [fold_left]. rewrite decide_False by done. apply IH. }
  intros [[-> Hall]|(pre & post & -> & Hd & Hall)].
  - by rewrite Hskip.
  - rewrite fold_left_app. cbn [fold_left]. rewrite decide_True by done.
    by rewrite Hskip.
Qed.

Lemma cascadeOf_under (findAll : FindAll) (object : Doc) (objectId_ : Ref) :
  cascadeOf findAll object objectId_
  = cascadeUnder findAll (getParentClass (_class object)) object objectId_.
Proof. reflexivity. Qed.

(** C1: [processRemove] on a batch that holds, anywhere, a transaction [tx]
    whose extracted operation is a [TxRemoveDoc] of an object present in
    [removedMap].  When the loop reaches [tx] the object is still in the
    map (it is the entry the call started with when [tx] comes first), and
    the returned list holds, between what the transactions before [tx]
    yield and what those after it yield, document by document, a remove
    for every attached document found in every [Collection]-typed
    attribute of the object's class, then for those of every classifier of
    kind mixin that is applied on the instance and is a descendant of the
    domain root of the object's class (the last ancestor declared in the
    class's own domain), then for every document of the class's
    [ObjectDDParticipant] collector; each is a [TxCollectionCUD] around the
    [TxRemoveDoc] when the removed document's class derives from
    [AttachedDoc] and a plain [TxRemoveDoc] otherwise.  A mixin applied on
    the instance that is not under the domain root is not walked. *)
Theorem processRemove_cascade (findAll : FindAll) (pre post : list Tx)
    (tx : Tx) (h : TxHead) (o : TxObj) (st : St DB) :
  extractTx tx = TxRemoveDoc h o ->
  is_Some (removedMap st !! objectId o) ->
  exists object root mine after,
    removedMap (snd (processRemove pre findAll st)) !! objectId o = Some object
    /\ (pre = [] -> removedMap st !! objectId o = Some object)
    /\ domainRoot (_class object) root
    /\ (forall r, domainRoot (_class object) r -> r = root)
    /\ fst (processRemove (pre ++ tx :: post) findAll st)
       = fst (processRemove pre findAll st) ++ mine ++ after
    /\ Forall2 removeOf (cascadeUnder findAll root object (objectId o)) mine.
Proof.
  intros Htx Hin. unfold processRemove.
  pose proof (forEach_keeps (keepsRemoved (objectId o))
                (processRemoveTx findAll) pre
                (fun t s => processRemoveTx_keeps findAll t (objectId o) s)
                st Hin) as [object Hobj].
  exists object, (getParentClass (_class object)). rewrite forEach_app.
  destruct (forEach (processRemoveTx findAll) pre st) as [before st1] eqn:Epre.
  simpl in Hobj. cbn [forEach].
  pose proof (processRemoveTx_cascade findAll tx h o object st1 Htx Hobj) as Hmine.
  rewrite cascadeOf_under in Hmine.
  destruct (processRemoveTx findAll tx st1) as [mine st2].
  destruct (forEach (processRemoveTx findAll) post st2) as [after st3].
  exists mine, after. simpl. split_and!; try done.
  - intros ->. simpl in Epre. by inversion Epre; subst.
  - apply getParentClass_root.
  - intros r Hr. by apply domainRoot_unique.
Qed.

End RemoveProps.

(** ** Derivation engine: collection counters *)

Section CollectionProps.
Context {H : Hierarchy}.
Import Derivation.

Lemma getCollectionUpdateTx_counterTx (h : TxHead) (id cls : Ref)
    (parent : Doc) (name : string) (by_ : Z) :
  counterTx h id cls parent name by_
    (getCollectionUpdateTx id cls (tx_modifiedBy h) (tx_modifiedOn h) parent
       (incUpdate name by_)).
Proof.
  unfold counterTx, getCollectionUpdateTx.
  destruct (decide (getBaseClass cls = cls)) as [Heq|Hne]; [left|right]; done.
Qed.

Lemma processCollection_app (findAll : FindAll) (rm : gmap Ref Doc)
    (pre post : list Tx) (tx : Tx) :
  processCollection (pre ++ tx :: post) findAll rm
  = processCollection pre findAll rm
    ++ processCollectionTx findAll rm tx
    ++ processCollection post findAll rm.
Proof. unfold processCollection. by rewrite flat_map_app. Qed.

(** What [processCollection] derives from a re-parenting transaction, on
    its own. *)
Lemma processCollectionTx_reparent (findAll : FindAll) (rm : gmap Ref Doc)
    (h hu : TxHead) (o ou : TxObj) (coll : string)
    (operations : DocumentUpdate) (newParent : Ref) :
  let tx := TxCollectionCUD h o coll (TxUpdateDoc hu ou operations) in
  let newClass := default (objectClass o) (op_attachedToClass operations) in
  let newColl := default coll (op_collection operations) in
  reparents tx newParent ->
  getDomain (objectClass o) <> DOMAIN_MODEL ->
  processCollectionTx findAll rm tx
  = match findOne findAll (objectClass o) (QId (objectId o)) with
    | Some oldParent =>
        match findAttribute (_class oldParent) coll with
        | Some _ =>
            [getCollectionUpdateTx (objectId o) (objectClass o)
               (tx_modifiedBy h) (tx_modifiedOn h) oldParent
               (incUpdate coll (-1))]
        | None => []
        end
    | None => []
    end
    ++ match findOne findAll newClass (QId newParent),
             findAttribute newClass newColl with
       | Some np, Some _ =>
           [getCollectionUpdateTx (_id np) (_class np) (tx_modifiedBy h)
              (tx_modifiedOn h) np (incUpdate newColl 1)]
       | _, _ => []
       end.
Proof.
  intros tx newClass newColl [Hop Hne] Hdom.
  unfold tx. cbn [processCollectionTx].
  destruct (decide (getDomain (objectClass o) = DOMAIN_MODEL)) as [|_]; [done|].
  cbn [isTxUpdateDoc isTxCreateDoc isTxRemoveDoc orb andb].
  rewrite app_nil_r. unfold updateCollection.
  destruct (decide (getDomain (objectClass o) = DOMAIN_MODEL)) as [|_]; [done|].
  rewrite Hop. destruct (decide (newParent = objectId o)) as [|_]; [done|].
  fold newClass newColl. f_equal.
  - destruct (findOne findAll (objectClass o) (QId (objectId o)))
      as [oldParent|]; [|done].
    by destruct (findAttribute (_class oldParent) coll).
  - destruct (findOne findAll newClass (QId newParent)) as [np|]; [|done].
    by destruct (findAttribute newClass newColl).
Qed.

(** A re-parenting as the code handles it: a [TxCollectionCUD] [h o coll]
    around a [TxUpdateDoc] that moves the attached document to
    [newParent], anywhere in a batch, with the class [objectClass o]
    outside the model domain.  Between what the transactions before it and
    those after it yield, [processCollection] returns first the decrement,
    then the increment, and nothing else:
    - the decrement, [$inc] by [-1] of [coll] issued for [objectClass o] on
      [objectId o], is there exactly when the old parent is found and its
      class has the attribute [coll];
    - the increment, [$inc] by [+1] of [operations.collection ?? coll]
      issued for the found new parent's own class on the new parent, is
      there exactly when the new parent is found under
      [operations.attachedToClass ?? objectClass o] and that class has the
      attribute;
    - each is a [TxMixin] when the class it is issued for is not its own
      base class, and a [TxUpdateDoc] otherwise. *)
Theorem processCollection_reparent (findAll : FindAll) (rm : gmap Ref Doc)
    (pre post : list Tx) (h hu : TxHead) (o ou : TxObj) (coll : string)
    (operations : DocumentUpdate) (newParent : Ref) :
  let tx := TxCollectionCUD h o coll (TxUpdateDoc hu ou operations) in
  let newClass := default (objectClass o) (op_attachedToClass operations) in
  let newColl := default coll (op_collection operations) in
  reparents tx newParent ->
  getDomain (objectClass o) <> DOMAIN_MODEL ->
  exists dec inc,
    processCollection (pre ++ tx :: post) findAll rm
    = processCollection pre findAll rm ++ (dec ++ inc)
      ++ processCollection post findAll rm
    /\ match findOne findAll (objectClass o) (QId (objectId o)) with
       | Some oldParent =>
           match findAttribute (_class oldParent) coll with
           | Some _ =>
               exists t, dec = [t]
                 /\ counterTx h (objectId o) (objectClass o) oldParent coll (-1) t
           | None => dec = []
           end
       | None => dec = []
       end
    /\ match findOne findAll newClass (QId newParent),
             findAttribute newClass newColl with
       | Some np, Some _ =>
           exists t, inc = [t]
             /\ counterTx h (_id np) (_class np) np newColl 1 t
       | _, _ => inc = []
       end.
Proof.
  intros tx newClass newColl Hre Hdom.
  rewrite processCollection_app. unfold tx.
  rewrite (processCollectionTx_reparent findAll rm h hu o ou coll operations
             newParent Hre Hdom).
  fold newClass newColl.
  eexists _, _. split; [reflexivity|]. split.
  - destruct (findOne findAll (objectClass o) (QId (objectId o)))
      as [oldParent|]; [|done].
    destruct (findAttribute (_class oldParent) coll); [|done].
    eexists. split; [reflexivity|]. apply getCollectionUpdateTx_counterTx.
  - destruct (findOne findAll newClass (QId newParent)) as [np|]; [|done].
    destruct (findAttribute newClass newColl); [|done].
    eexists. split; [reflexivity|]. apply getCollectionUpdateTx_counterTx.
Qed.

(** C2 fails on the increment for a collection that belongs to a mixin.
    The re-parenting names the class of the new parent
    ([operations.attachedToClass], else [objectClass]); when that class is
    a mixin the collection attribute is the mixin's, and the claim (like
    the decrement and like the counters of a create or a remove, which all
    issue their transaction for the class named) asks for a [TxMixin] of
    that mixin.  [updateCollection] issues the increment for the class of
    the document it found instead: the new parent is stored under a class
    that is its own base class, so the increment comes as a plain
    [TxUpdateDoc] of that class, anywhere in a batch. *)
Theorem reparent_increment_plain_update (findAll : FindAll)
    (rm : gmap Ref Doc) (pre post : list Tx) (h hu : TxHead) (o ou : TxObj)
    (coll : string) (operations : DocumentUpdate) (newParent : Ref)
    (parent : Doc) (a : Attribute) :
  let tx := TxCollectionCUD h o coll (TxUpdateDoc hu ou operations) in
  let newClass := default (objectClass o) (op_attachedToClass operations) in
  let newColl := default coll (op_collection operations) in
  let inc :=
    TxUpdateDoc (derivedHead (tx_modifiedBy h) (tx_modifiedOn h))
      (mkObj (_id parent) (_class parent) (space parent))
      (incUpdate newColl 1) in
  reparents tx newParent ->
  getDomain (objectClass o) <> DOMAIN_MODEL ->
  getBaseClass newClass <> newClass ->
  findAttribute newClass newColl = Some a ->
  findOne findAll newClass (QId newParent) = Some parent ->
  getBaseClass (_class parent) = _class parent ->
  (exists dec,
     processCollection (pre ++ tx :: post) findAll rm
     = processCollection pre findAll rm ++ (dec ++ [inc])
       ++ processCollection post findAll rm
     /\ (length dec <= 1)%nat)
  /\ ~ counterTx h (_id parent) newClass parent newColl 1 inc.
Proof.
  intros tx newClass newColl inc Hre Hdom Hmixin Hattr Hfound Hbase. split.
  - rewrite processCollection_app. unfold tx.
    rewrite (processCollectionTx_reparent findAll rm h hu o ou coll operations
               newParent Hre Hdom).
    fold newClass newColl. rewrite Hfound, Hattr.
    eexists. split.
    + do 2 f_equal. f_equal. unfold getCollectionUpdateTx, inc.
      by rewrite decide_True.
    + destruct (findOne findAll (objectClass o) (QId (objectId o)))
        as [oldParent|]; [|cbn; lia].
      destruct (findAttribute (_class oldParent) coll); cbn; lia.
  - intros [[Heq _]|[_ Heq]]; [done|]. by unfold inc in Heq.
Qed.

End CollectionProps.

(** A side whose parent is missing emits nothing: the comment is moved to
    [issue2] from an issue that is no longer stored; the pass emits the
    increment on the new parent and no decrement. *)
Lemma reparent_without_old_parent :
  Derivation.processCollection (H := Sample.hierarchy)
    [Sample.reparentComment]
    (Store.storeFindAll (H := Sample.hierarchy) Sample.orphans) ∅
  = [TxUpdateDoc (mkHead space_DerivedTx "bob" 0)
       (mkObj "issue2" "Issue" "proj") (incUpdate "comments" 1)].
Proof. vm_compute. reflexivity. Qed.

(** With both parents stored, the decrement and the increment are both
    emitted, as plain updates (the class [Issue] is its own base class). *)
Lemma processCollection_reparent_witness :
  exists dec inc,
    Derivation.processCollection (H := Sample.hierarchy)
      ([] ++ Sample.moveComment :: [])
      (Store.storeFindAll (H := Sample.hierarchy)
         (Sample.issue1 :: Sample.orphans)) ∅
    = [] ++ (dec ++ inc) ++ []
    /\ (exists t, dec = [t]
          /\ Derivation.counterTx (H := Sample.hierarchy) (Sample.head0 "bob")
               "issue1" "Issue" Sample.issue1 "comments" (-1) t)
    /\ (exists t, inc = [t]
          /\ Derivation.counterTx (H := Sample.hierarchy) (Sample.head0 "bob")
               "issue2" "Issue" Sample.issue2 "comments" 1 t).
Proof.
  destruct (processCollection_reparent (H := Sample.hierarchy)
              (Store.storeFindAll (H := Sample.hierarchy)
                 (Sample.issue1 :: Sample.orphans)) ∅ [] []
              (Sample.head0 "bob") (Sample.head0 "bob")
              (mkObj "issue1" "Issue" "proj") (mkObj "c1" "Comment" "proj")
              "comments" (mkUpdate (Some "issue2") None None None None)
              "issue2")
    as (dec & inc & Heq & Hdec & Hinc).
  - split; [reflexivity|discriminate].
  - discriminate.
  - exists dec, inc. split; [exact Heq|]. split.
    + vm_compute in Hdec. vm_compute. exact Hdec.
    + vm_compute in Hinc. vm_compute. exact Hinc.
Defined.

(** The label moved between two tagged issues: the increment on the new
    parent comes as a plain update of the class [Issue], although the
    collection [labels] is the mixin's. *)
Lemma reparent_increment_plain_update_witness :
  Derivation.processCollection (H := Sample.hierarchy)
    ([] ++ Cases.moveLabel :: [])
    (Store.storeFindAll (H := Sample.hierarchy) Cases.tagged) ∅
  = [TxUpdateDoc (mkHead space_DerivedTx "bob" 0)
       (mkObj "issue5" "Issue" "proj") (incUpdate "labels" 1)].
Proof.
  destruct (reparent_increment_plain_update (H := Sample.hierarchy)
              (Store.storeFindAll (H := Sample.hierarchy) Cases.tagged) ∅
              [] [] (Sample.head0 "bob") (Sample.head0 "bob")
              (mkObj "issue1" "Tagged" "proj") (mkObj "l1" "Label" "proj")
              "labels" (mkUpdate (Some "issue5") None None None None)
              "issue5" Cases.issue5 (Sample.collectionOf "Label"))
    as [(dec & Heq & Hlen) _].
  - split; [reflexivity|discriminate].
  - discriminate.
  - discriminate.
  - reflexivity.
  - vm_compute. reflexivity.
  - reflexivity.
  - assert (Hdec : dec = []).
    { destruct dec as [|t dec]; [done|]. exfalso.
      vm_compute in Heq. injection Heq as _ Heq. by destruct dec. }
    subst dec. exact Heq.
Defined.

(** The counter of a create on the same collection is issued for the
    class named, as a [TxMixin] of [Tagged]. *)
Example create_counter_is_mixin :
  Derivation.processCollection (H := Sample.hierarchy) [Cases.addLabel]
    (Store.storeFindAll (H := Sample.hierarchy) Cases.tagged) ∅
  = [TxMixin (mkHead space_DerivedTx "bob" 0)
       (mkObj "issue5" "Issue" "proj") "Tagged" (incUpdate "labels" 1)].
Proof. vm_compute. reflexivity. Qed.

(** ** Derivation engine: the cascade over a store comes to an end *)

Section SortProps.
Import Derivation.

Lemma insertTx_Permutation (t : Tx) (l : list Tx) : insertTx t l ≡ₚ t :: l.
Proof.
  induction l as [|x rest IH]; simpl; [done|].
  destruct (modifiedOn t <=? modifiedOn x); [done|].
  rewrite IH. apply Permutation_swap.
Qed.

Lemma sortTx_Permutation (l : list Tx) : sortTx l ≡ₚ l.
Proof.
  induction l as [|t rest IH]; simpl; [done|].
  rewrite insertTx_Permutation. by rewrite IH.
Qed.

Lemma sortTx_nil (l : list Tx) : sortTx l = [] -> l = [].
Proof.
  intros Hs. apply Permutation_nil_r. by rewrite <- Hs, sortTx_Permutation.
Qed.

End SortProps.

Section StoreProps.
Context {H : Hierarchy}.
Import Store.

Lemma filter_length_or_same {A : Type} (f : A -> bool) (l : list A) :
  (length (List.filter f l) < length l)%nat \/ List.filter f l = l.
Proof.
  induction l as [|a rest IH]; simpl; [by right|].
  pose proof (List.filter_length_le f rest) as Hle.
  destruct (f a); simpl.
  - destruct IH as [Hlt|Heq]; [left; lia|right; by rewrite Heq].
  - left. lia.
Qed.

Lemma stored_onId (id id' : Ref) (f : Doc -> Doc) (store : list Doc) :
  (forall d, _id (f d) = _id d) ->
  stored (onId id' f store) id = stored store id.
Proof.
  intros Hf. unfold stored, onId. induction store as [|d rest IH]; [done|].
  simpl. rewrite IH. f_equal. unfold hasId.
  destruct (String.eqb (_id d) id'); [by rewrite Hf|done].
Qed.

Lemma applyTx_shrinks (t : Tx) (store : list Doc) :
  shrinks t = true -> (length (applyTx t store) <= length store)%nat.
Proof.
  destruct t; try discriminate; intros _; simpl.
  - unfold onId. by rewrite length_map.
  - apply List.filter_length_le.
  - unfold onId. by rewrite length_map.
Qed.

(** A stored identifier survives a routed operation, unless the operation
    made the store smaller. *)
Lemma applyTx_stored (t : Tx) (store : list Doc) (id : Ref) :
  shrinks t = true -> stored store id = true ->
  stored (applyTx t store) id = true
  \/ (length (applyTx t store) < length store)%nat.
Proof.
  destruct t; try discriminate; intros _ Hid; simpl.
  - left. by rewrite stored_onId.
  - destruct (filter_length_or_same
                (fun d => negb (hasId (objectId o) d)) store) as [Hlt|Heq];
      [by right|left; by rewrite Heq].
  - left. rewrite stored_onId; [done|]. intros d. reflexivity.
Qed.

Lemma applyTx_remove_stored (h : TxHead) (o : TxObj) (store : list Doc) :
  stored store (objectId o) = true ->
  (length (applyTx (TxRemoveDoc h o) store) < length store)%nat.
Proof.
  unfold stored. simpl. induction store as [|d rest IH]; [discriminate|].
  simpl. intros Hex.
  pose proof (List.filter_length_le
                (fun d => negb (hasId (objectId o) d)) rest) as Hle.
  destruct (hasId (objectId o) d); simpl; [lia|].
  specialize (IH Hex). lia.
Qed.

Lemma applyAll_shrinks (l : list Tx) (store : list Doc) :
  Forall (fun t => shrinks t = true) l ->
  (length (applyAll l store) <= length store)%nat.
Proof.
  unfold applyAll. revert store.
  induction l as [|t rest IH]; intros store Hall; simpl; [done|].
  inversion Hall as [|? ? Ht Hrest]; subst.
  specialize (IH (applyTx t store) Hrest).
  pose proof (applyTx_shrinks t store Ht). lia.
Qed.

(** Routing a remove of a stored document makes the store smaller. *)
Lemma applyAll_remove (l : list Tx) (store : list Doc) :
  Forall (fun t => shrinks t = true) l ->
  Exists (fun t => exists h o, t = TxRemoveDoc h o
                               /\ stored store (objectId o) = true) l ->
  (length (applyAll l store) < length store)%nat.
Proof.
  unfold applyAll. revert store.
  induction l as [|t rest IH]; intros store Hall Hex; simpl.
  - by inversion Hex.
  - inversion Hall as [|? ? Ht Hrest]; subst.
    pose proof (applyAll_shrinks rest (applyTx t store) Hrest) as Hle.
    unfold applyAll in Hle.
    inversion Hex as [? ? (h & o & -> & Hst)|? ? Hex']; subst.
    + pose proof (applyTx_remove_stored h o store Hst). lia.
    + pose proof (applyTx_shrinks t store Ht) as Hle1.
      assert (Hcases :
        Exists (fun t0 => exists h o, t0 = TxRemoveDoc h o
                  /\ stored (applyTx t store) (objectId o) = true) rest
        \/ (length (applyTx t store) < length store)%nat).
      { clear IH Hle Hall Hrest Hex. induction Hex' as [t0 l0 (h & o & -> & Hst)|t0 l0 _ IH'].
        - destruct (applyTx_stored t store (objectId o) Ht Hst) as [Hs|Hlt];
            [left|by right].
          apply Exists_cons_hd. eauto.
        - destruct IH' as [Hl|Hr]; [left; by apply Exists_cons_tl|by right]. }
      destruct Hcases as [Hex2|Hlt]; [|lia].
      specialize (IH (applyTx t store) Hrest Hex2). lia.
Qed.

Lemma onId_acyclic (rank : Ref -> nat) (id : Ref) (f : Doc -> Doc)
    (store : list Doc) :
  (forall d, _id (f d) = _id d /\ attachedTo (f d) = attachedTo d) ->
  acyclic rank store -> acyclic rank (onId id f store).
Proof.
  intros Hf Hac d Hd. unfold onId in Hd.
  apply list_elem_of_fmap in Hd as (d0 & -> & Hd0).
  specialize (Hac d0 Hd0). destruct (hasId id d0); [|done].
  destruct (Hf d0) as [-> ->]. done.
Qed.

(** A routed operation of the cascade leaves the store without cycles. *)
Lemma applyTx_acyclic (rank : Ref -> nat) (t : Tx) (store : list Doc) :
  shrinks t = true -> acyclic rank store -> acyclic rank (applyTx t store).
Proof.
  destruct t; try discriminate; simpl; intros Hs Hac.
  - apply onId_acyclic; [|done]. intros d. unfold applyUpdate. simpl.
    by destruct (op_attachedTo operations).
  - intros d Hd. apply Hac. apply list_elem_of_In in Hd.
    apply List.filter_In in Hd as [Hd _]. by apply list_elem_of_In.
  - apply onId_acyclic; [|done]. intros d. done.
Qed.

Lemma applyAll_acyclic (rank : Ref -> nat) (l : list Tx) (store : list Doc) :
  Forall (fun t => shrinks t = true) l ->
  acyclic rank store -> acyclic rank (applyAll l store).
Proof.
  unfold applyAll. revert store.
  induction l as [|t rest IH]; intros store Hall Hac; simpl; [done|].
  inversion Hall as [|? ? Ht Hrest]; subst.
  apply IH; [done|]. by apply applyTx_acyclic.
Qed.

Lemma moveDepth_elem (rank : Ref -> nat) (txes : list Tx) (t : Tx) :
  t ∈ txes -> movesSpace t = true ->
  (S (rank (target t)) <= moveDepth rank txes)%nat.
Proof.
  intros Hin Hmv. induction txes as [|t0 rest IH]; [by inversion Hin|].
  simpl. apply elem_of_cons in Hin as [<-|Hin].
  - rewrite Hmv. lia.
  - specialize (IH Hin). destruct (movesSpace t0); lia.
Qed.

End StoreProps.

Section CascadeProps.
Context {H : Hierarchy}.
Variable triggers : list Tx -> list Doc -> gmap Ref Doc -> list Tx.
Variable clk : nat -> Timestamp.
Import Store Derivation.

Local Abbreviation SVs := (storeServer triggers clk).

Lemma getAdapter_store (d : Domain) :
  Router.getAdapter (SV := SVs) d = Ret storeAdapter.
Proof.
  unfold Router.getAdapter. simpl. rewrite lookup_empty. simpl.
  by rewrite lookup_singleton_eq.
Qed.


Lemma processPart_store (part : list Tx) (ld : option Domain)
    (result : list TxResult) (st : St (list Doc)) :
  exists res st',
    Router.processPart (SV := SVs) part ld result st = (Ret res, st')
    /\ db st' = applyAll part (db st)
    /\ tick st' = tick st.
Proof.
  unfold Router.processPart. destruct part as [|t part']; [by eauto|].
  rewrite getAdapter_store.
  set (st1 := match Router.toDelete (t :: part') with
              | [] => st
              | _ :: _ => Router.recordRemoved _ st
              end).
  assert (Hfr : db st1 = db st /\ tick st1 = tick st).
  { unfold st1. destruct (Router.toDelete (t :: part')); [done|].
    destruct (recordRemoved_frame
                (a_load storeAdapter (db st) (Router.domainKey ld) (s :: l)) st)
      as (? & _ & _ & _ & ?). done. }
  destruct Hfr as [Hdb Htick]. simpl a_tx. unfold storeTx.
  eexists _, _. split; [reflexivity|]. simpl. by rewrite Hdb, Htick.
Qed.

(** On the store, [routeTx] never throws and applies the batch's CUD
    operations in batch order. *)
Lemma routeLoop_store (txes : list Tx) :
  forall (part : list Tx) (ld : option Domain) (result : list TxResult)
         (st : St (list Doc)),
  exists res st',
    Router.routeLoop (SV := SVs) txes part ld result st = (Ret res, st')
    /\ db st' = applyAll (part ++ Router.supported txes) (db st)
    /\ tick st' = tick st.
Proof.
  induction txes as [|tx rest IH]; intros part ld result st.
  - cbn [Router.routeLoop].
    destruct (processPart_store part ld result st) as (res & st' & Hrun & Hdb & Ht).
    exists res, st'. unfold Router.supported. simpl. by rewrite app_nil_r.
  - cbn [Router.routeLoop].
    destruct (txObj (extractTx tx)) as [o|] eqn:Eo.
    + destruct (supported_cons_keep tx rest o Eo) as [Hs _]. rewrite Hs.
      destruct part as [|t part'].
      * destruct (IH [extractTx tx] (Some (getDomain (objectClass o))) result st)
          as (res & st' & Hrun & Hdb & Ht).
        by exists res, st'.
      * destruct (decide (ld = Some (getDomain (objectClass o)))) as [_|_].
        -- destruct (IH ((t :: part') ++ [extractTx tx])
                        (Some (getDomain (objectClass o))) result st)
             as (res & st' & Hrun & Hdb & Ht).
           exists res, st'. rewrite <- app_assoc in Hdb. done.
        -- unfold bind.
           destruct (processPart_store (t :: part') ld result st)
             as (r1 & st1 & Hrun1 & Hdb1 & Ht1).
           rewrite Hrun1.
           destruct (IH [extractTx tx] (Some (getDomain (objectClass o))) r1 st1)
             as (res & st' & Hrun & Hdb & Ht).
           exists res, st'. split_and!; [done| |congruence].
           rewrite Hdb, Hdb1. unfold applyAll. rewrite !fold_left_app.
           reflexivity.
    + destruct (supported_cons_skip tx rest Eo) as [Hs _]. rewrite Hs.
      destruct (IH part ld result (logError tx st))
        as (res & st' & Hrun & Hdb & Ht).
      by exists res, st'.
Qed.

Lemma routeTx_store (txes : list Tx) (st : St (list Doc)) :
  exists res st',
    Router.routeTx (SV := SVs) txes st = (Ret res, st')
    /\ db st' = applyAll (Router.supported txes) (db st).
Proof.
  destruct (routeLoop_store txes [] None [] st) as (res & st' & Hrun & Hdb & _).
  by exists res, st'.
Qed.

(** The derivation passes read the store and leave it as it is. *)
Lemma deleteObject_db (d : Doc) (st : St (list Doc)) :
  db (snd (deleteObject (SV := SVs) d st)) = db st.
Proof.
  unfold deleteObject, readClock.
  by destruct (isDerived (_class d) class_AttachedDoc).
Qed.

Lemma forEach_db {A : Type} (f : A -> St (list Doc) -> list Tx * St (list Doc))
    (l : list A) (st : St (list Doc)) :
  (forall a s, db (snd (f a s)) = db s) ->
  db (snd (forEach f l st)) = db st.
Proof.
  intros Hf.
  apply (forEach_keeps (fun s => db s = db st) f l); [|done].
  intros a s Hs. by rewrite Hf.
Qed.

Lemma processRemove_db (findAll : FindAll) (txes : list Tx)
    (st : St (list Doc)) :
  db (snd (processRemove (SV := SVs) txes findAll st)) = db st.
Proof.
  unfold processRemove. apply forEach_db. intros tx s. unfold processRemoveTx.
  destruct (extractTx tx); try done.
  destruct (removedMap s !! objectId o) as [object|]; [|done].
  assert (Hcc : forall cls to s0,
            db (snd (deleteClassCollections (SV := SVs) findAll cls
                       (objectId o) to s0)) = db s0).
  { intros cls to s0. unfold deleteClassCollections. apply forEach_db.
    intros a s1. unfold deleteCollection.
    destruct (isDerived (attr_type (snd a)) class_Collection); [|done].
    apply forEach_db. intros d s2. apply deleteObject_db. }
  pose proof (Hcc (_class object) None s) as H1.
  destruct (deleteClassCollections findAll (_class object) (objectId o) None s)
    as [r1 st1].
  pose proof (forEach_db
                (fun mixin =>
                   deleteClassCollections (SV := SVs) findAll mixin (objectId o)
                     (Some (_class object)))
                (getMixins (_class object) object) st1
                (fun m s0 => Hcc m (Some (_class object)) s0)) as H2.
  destruct (forEach _ (getMixins (_class object) object) st1) as [r2 st2].
  assert (H3 : db (snd (deleteRelatedDocuments (SV := SVs) findAll object st2))
               = db st2).
  { unfold deleteRelatedDocuments.
    destruct (collectDocs (_class object)); [|done].
    apply forEach_db. intros d s2. apply deleteObject_db. }
  destruct (deleteRelatedDocuments findAll object st2) as [r3 st3].
  simpl in *. congruence.
Qed.

(** What each step puts out, when every step's output is of a kind. *)
Lemma forEach_Forall {A B S : Type} (P : B -> Prop)
    (f : A -> S -> list B * S) (l : list A) :
  (forall a s, a ∈ l -> Forall P (fst (f a s))) ->
  forall s, Forall P (fst (forEach f l s)).
Proof.
  induction l as [|a rest IH]; intros Hf s; simpl; [constructor|].
  pose proof (Hf a s ltac:(by left)) as Ha.
  destruct (f a s) as [oa sa]. simpl in Ha.
  assert (Hrest : Forall P (fst (forEach f rest sa))).
  { apply IH. intros a' s' Hin. apply Hf. by right. }
  destruct (forEach f rest sa) as [o1 s1]. simpl in *.
  by apply Forall_app.
Qed.

Lemma stored_elem (store : list Doc) (d : Doc) :
  d ∈ store -> stored store (_id d) = true.
Proof.
  intros Hin. unfold stored. apply existsb_exists. exists d. split.
  - by apply list_elem_of_In.
  - unfold hasId. apply String.eqb_refl.
Qed.

Lemma storeFindAll_stored (store : list Doc) (c : Ref) (q : Query)
    (limit : option nat) (d : Doc) :
  d ∈ storeFindAll store c q limit -> stored store (_id d) = true.
Proof.
  unfold storeFindAll, takeLimit. intros Hin. apply stored_elem.
  assert (Hf : d ∈ List.filter
                 (fun d0 => (isDerived (_class d0) c || hasMixin d0 c)
                            && matchQuery q d0) store).
  { destruct limit as [n|]; [|done]. revert Hin. apply subseteq_take. }
  apply list_elem_of_In in Hf. apply List.filter_In in Hf as [Hf _].
  by apply list_elem_of_In.
Qed.

Variable rank : Ref -> nat.

Lemma processMove_db (findAll : FindAll) (txes : list Tx)
    (st : St (list Doc)) :
  db (snd (processMove (SV := SVs) txes findAll st)) = db st.
Proof.
  unfold processMove. apply forEach_db. intros tx s. unfold processMoveTx.
  destruct (extractTx tx); try done.
  destruct (op_space operations) as [newSpace|]; [|done].
  destruct (decide (newSpace = objectSpace o)); [done|].
  apply forEach_db. intros a s1.
  destruct (isDerived (attr_type (snd a)) class_Collection); [|done].
  apply forEach_db. intros d s2. reflexivity.
Qed.

Lemma deleteObject_cascades (n : nat) (store : list Doc) (d : Doc)
    (st : St (list Doc)) :
  stored store (_id d) = true ->
  Forall (fun t => cascades rank n store t = true)
    (fst (deleteObject (SV := SVs) d st)).
Proof.
  intros Hst. unfold deleteObject, readClock, cascades, removesStored.
  destruct (isDerived (_class d) class_AttachedDoc); simpl;
    (constructor; [|constructor]); simpl; by rewrite Hst.
Qed.

Lemma processRemove_cascades (n : nat) (txes : list Tx) (st : St (list Doc))
    (store : list Doc) :
  collectorsStored ->
  Forall (fun t => cascades rank n store t = true)
    (fst (processRemove (SV := SVs) txes (storeFindAll store) st)).
Proof.
  intros Hcol. unfold processRemove. apply forEach_Forall. intros tx s _.
  unfold processRemoveTx.
  destruct (extractTx tx); try constructor.
  destruct (removedMap s !! objectId o) as [object|]; [|constructor].
  assert (Hdocs : forall docs s0,
            (forall d, d ∈ docs -> stored store (_id d) = true) ->
            Forall (fun t => cascades rank n store t = true)
              (fst (forEach (deleteObject (SV := SVs)) docs s0))).
  { intros docs s0 Hd. apply forEach_Forall. intros d s1 Hin.
    apply deleteObject_cascades. by apply Hd. }
  assert (Hcc : forall cls to s0,
            Forall (fun t => cascades rank n store t = true)
              (fst (deleteClassCollections (SV := SVs) (storeFindAll store) cls
                      (objectId o) to s0))).
  { intros cls to s0. unfold deleteClassCollections. apply forEach_Forall.
    intros a s1 _. unfold deleteCollection.
    destruct (isDerived (attr_type (snd a)) class_Collection); [|constructor].
    apply Hdocs. intros d Hd. by apply storeFindAll_stored in Hd. }
  pose proof (Hcc (_class object) None s) as H1.
  destruct (deleteClassCollections (storeFindAll store) (_class object)
              (objectId o) None s) as [r1 st1].
  pose proof (forEach_Forall (fun t => cascades rank n store t = true)
                (fun mixin =>
                   deleteClassCollections (SV := SVs) (storeFindAll store) mixin
                     (objectId o) (Some (_class object)))
                (getMixins (_class object) object)
                (fun m s0 _ => Hcc m (Some (_class object)) s0) st1) as H2.
  destruct (forEach _ (getMixins (_class object) object) st1) as [r2 st2].
  assert (H3 : Forall (fun t => cascades rank n store t = true)
                 (fst (deleteRelatedDocuments (SV := SVs) (storeFindAll store)
                         object st2))).
  { unfold deleteRelatedDocuments.
    destruct (collectDocs (_class object)) as [collector|] eqn:Ec;
      [|constructor].
    apply Hdocs. intros d Hd. by apply (Hcol _ _ _ _ _ Ec Hd). }
  destruct (deleteRelatedDocuments (storeFindAll store) object st2) as [r3 st3].
  simpl in *. by repeat apply Forall_app_2.
Qed.

Lemma getCollectionUpdateTx_isCounter (id cls who : Ref) (t : Timestamp)
    (parent : Doc) (name : string) (by_ : Z) :
  isCounterTx (getCollectionUpdateTx id cls who t parent (incUpdate name by_))
  = true.
Proof.
  unfold getCollectionUpdateTx.
  by destruct (decide (getBaseClass cls = cls)).
Qed.

Lemma processCollection_counters (n : nat) (txes : list Tx) (findAll : FindAll)
    (rm : gmap Ref Doc) (store : list Doc) :
  Forall (fun t => cascades rank n store t = true)
    (processCollection txes findAll rm).
Proof.
  unfold processCollection. induction txes as [|tx rest IH]; simpl;
    [constructor|].
  apply Forall_app_2; [|done]. clear IH.
  assert (Hc : forall id cls who t parent name by_,
            cascades rank n store
              (getCollectionUpdateTx id cls who t parent (incUpdate name by_))
            = true).
  { intros. unfold cascades. by rewrite getCollectionUpdateTx_isCounter. }
  unfold processCollectionTx.
  destruct tx as [| | | |h o coll inner| |]; try constructor.
  destruct (decide (getDomain (objectClass o) = DOMAIN_MODEL)); [constructor|].
  apply Forall_app_2.
  - destruct (isTxUpdateDoc inner); [|constructor].
    unfold updateCollection.
    destruct inner as [|hu ou operations| | | | |]; try constructor.
    destruct (decide (getDomain (objectClass o) = DOMAIN_MODEL)); [constructor|].
    destruct (op_attachedTo operations) as [newParent|]; [|constructor].
    destruct (decide (newParent = objectId o)); [constructor|].
    apply Forall_app_2.
    + destruct (findOne findAll (objectClass o) (QId (objectId o)));
        [|constructor].
      destruct (findAttribute (_class d) coll); constructor; [apply Hc|constructor].
    + destruct (findOne findAll _ (QId newParent)); [|constructor].
      destruct (findAttribute _ _); constructor; [apply Hc|constructor].
  - destruct ((isTxCreateDoc inner || isTxRemoveDoc inner)
              && negb (bool_decide (is_Some (rm !! objectId o))));
      [|constructor].
    destruct (findOne findAll (objectClass o) (QId (objectId o)));
      constructor; [apply Hc|constructor].
Qed.

Lemma processMove_still (txes : list Tx) (findAll : FindAll)
    (st : St (list Doc)) :
  Forall (fun t => movesSpace t = false) txes ->
  processMove (SV := SVs) txes findAll st = ([], st).
Proof.
  unfold processMove. revert st.
  induction txes as [|tx rest IH]; intros st Hall; simpl; [done|].
  inversion Hall as [|? ? Htx Hrest]; subst.
  assert (Hstep : processMoveTx (SV := SVs) findAll tx st = ([], st)).
  { unfold processMoveTx. unfold movesSpace in Htx.
    destruct (extractTx tx); try done.
    destruct (op_space operations) as [s|]; [|done].
    destruct (decide (s = objectSpace o)) as [|Hne]; [done|].
    rewrite bool_decide_eq_false_2 in Htx by done. discriminate. }
  rewrite Hstep. by rewrite (IH st Hrest).
Qed.

Lemma storeFindAll_attached (store : list Doc) (c p sp : Ref)
    (limit : option nat) (d : Doc) :
  d ∈ storeFindAll store c (QAttachedToSpace p sp) limit ->
  d ∈ store /\ attachedTo d = p /\ space d = sp.
Proof.
  unfold storeFindAll, takeLimit. intros Hin.
  assert (Hf : d ∈ List.filter
                 (fun d0 => (isDerived (_class d0) c || hasMixin d0 c)
                            && matchQuery (QAttachedToSpace p sp) d0) store).
  { destruct limit as [n|]; [|done]. revert Hin. apply subseteq_take. }
  apply list_elem_of_In in Hf. apply List.filter_In in Hf as [Hf Hq].
  apply andb_true_iff in Hq as [_ Hq]. simpl in Hq.
  apply andb_true_iff in Hq as [Hp Hs].
  apply String.eqb_eq in Hp, Hs. split_and!; try done.
  by apply list_elem_of_In.
Qed.

(** The space moves a pass derives go one level down the [attachedTo]
    references of the store. *)
Lemma processMove_cascades (txes : list Tx) (st : St (list Doc))
    (store : list Doc) :
  acyclic rank store ->
  Forall (fun t => cascades rank (pred (moveDepth rank txes)) store t = true)
    (fst (processMove (SV := SVs) txes (storeFindAll store) st)).
Proof.
  intros Hac. unfold processMove. apply forEach_Forall. intros tx s Hin.
  pose proof (moveDepth_elem rank txes tx Hin) as Hdepth.
  unfold processMoveTx. unfold movesSpace, target in Hdepth.
  destruct (extractTx tx) as [|h o operations| | | | |]; try constructor.
  destruct (op_space operations) as [newSpace|]; [|constructor].
  destruct (decide (newSpace = objectSpace o)) as [|Hne]; [constructor|].
  rewrite bool_decide_eq_false_2 in Hdepth by done.
  specialize (Hdepth eq_refl). simpl in Hdepth.
  apply forEach_Forall. intros a s1 _.
  destruct (isDerived (attr_type (snd a)) class_Collection); [|constructor].
  apply forEach_Forall. intros d s2 Hd.
  apply storeFindAll_attached in Hd as (Hst & Hat & Hsp).
  specialize (Hac d Hst). rewrite Hat in Hac.
  unfold moveAttached, readClock. simpl. constructor; [|constructor].
  unfold cascades, isMoveBelow, movesSpace, createTxUpdateDoc. simpl.
  rewrite Hsp. rewrite bool_decide_eq_false_2 by done. simpl.
  rewrite (proj2 (Nat.ltb_lt _ _)) by lia.
  reflexivity.
Qed.

(** Why the triggers matter: with a trigger that answers every batch, no
    number of passes is enough. *)
Lemma processDerived_noisy :
  (forall txes store rm, triggers txes store rm <> []) ->
  forall fuel txes st, processDerived (SV := SVs) fuel txes st = None.
Proof.
  intros Hnoisy. induction fuel as [|f IH]; intros txes st; [done|].
  cbn [processDerived]. unfold deriveOnce. simpl findAllDB.
  destruct (processRemove txes (storeFindAll (db st)) st) as [removed st1].
  destruct (processMove txes (storeFindAll (db st)) st1) as [moves st2].
  simpl triggersApply. unfold processDerivedTxes.
  set (derived := removed ++ _).
  destruct (routeTx_store (sortTx derived) st2) as (r & st3 & Hroute & _).
  rewrite Hroute.
  destruct (sortTx derived) as [|t0 rest0] eqn:Esort.
  - apply sortTx_nil in Esort. subst derived.
    apply app_eq_nil in Esort as [_ Esort].
    apply app_eq_nil in Esort as [_ Esort].
    apply app_eq_nil in Esort as [_ Esort].
    by apply Hnoisy in Esort.
  - by rewrite IH.
Qed.

Hypothesis silent : forall txes store rm, triggers txes store rm = [].

Lemma deriveOnce_cascades (txes : list Tx) (st : St (list Doc)) :
  collectorsStored ->
  acyclic rank (db st) ->
  Forall (fun t => cascades rank (pred (moveDepth rank txes)) (db st) t = true)
    (fst (deriveOnce (SV := SVs) txes st))
  /\ db (snd (deriveOnce (SV := SVs) txes st)) = db st.
Proof.
  intros Hcol Hac. unfold deriveOnce. simpl findAllDB.
  pose proof (processRemove_cascades (pred (moveDepth rank txes)) txes st
                (db st) Hcol) as Hrem.
  pose proof (processRemove_db (storeFindAll (db st)) txes st) as Hdb.
  destruct (processRemove txes (storeFindAll (db st)) st) as [removed st1].
  pose proof (processMove_cascades txes st1 (db st) Hac) as Hmov.
  pose proof (processMove_db (storeFindAll (db st)) txes st1) as Hdb2.
  destruct (processMove txes (storeFindAll (db st)) st1) as [moves st2].
  simpl triggersApply. rewrite silent. simpl in *. split; [|congruence].
  rewrite app_nil_r. apply Forall_app_2; [done|].
  apply Forall_app_2; [|done]. apply processCollection_counters.
Qed.

Lemma cascades_shape (n : nat) (store : list Doc) (t : Tx) :
  cascades rank n store t = true ->
  isTxCUD (extractTx t) = true
  /\ shrinks (extractTx t) = true
  /\ (isCounterTx t = true /\ movesSpace t = false
      \/ (exists h o, extractTx t = TxRemoveDoc h o
                      /\ stored store (objectId o) = true)
         /\ movesSpace t = false
      \/ movesSpace t = true /\ (rank (target t) < n)%nat).
Proof.
  unfold cascades, removesStored, isMoveBelow. intros Hc.
  apply orb_true_iff in Hc as [Hc|Hmv];
    [apply orb_true_iff in Hc as [Hcnt|Hrm]|].
  - destruct t; try discriminate; simpl in *.
    + destruct (op_space operations) eqn:Es; [discriminate|].
      destruct (op_attachedTo operations) eqn:Ea; [discriminate|].
      split_and!; try done. left. unfold movesSpace. simpl. by rewrite Es.
    + split_and!; try done. by left.
  - unfold movesSpace. destruct (extractTx t) eqn:Et; try discriminate.
    split_and!; try done. right. left. split; [eauto|done].
  - destruct t; try discriminate. simpl in *.
    destruct (op_attachedTo operations) eqn:Ea; [discriminate|].
    apply andb_true_iff in Hmv as [Hm Hr]. apply Nat.ltb_lt in Hr.
    split_and!; try done. right. right. by split.
Qed.

Lemma cascades_supported (n : nat) (store : list Doc) (l : list Tx) :
  Forall (fun t => cascades rank n store t = true) l ->
  Router.supported l = map extractTx l
  /\ Forall (fun t => shrinks t = true) (map extractTx l)
  /\ (moveDepth rank l <= n)%nat.
Proof.
  unfold Router.supported.
  induction 1 as [|t rest Ht _ (IH1 & IH2 & IH3)]; simpl;
    [split_and!; [done|done|lia]|].
  destruct (cascades_shape n store t Ht) as (Hcud & Hsh & Hkind).
  rewrite Hcud, IH1. split_and!; [done|by constructor|].
  destruct Hkind as [[_ Hmv]|[[_ Hmv]|[Hmv Hr]]]; rewrite Hmv; lia.
Qed.

Lemma cascades_split (n : nat) (store : list Doc) (l : list Tx) :
  Forall (fun t => cascades rank n store t = true) l ->
  Forall (fun t => isCounterTx t = true) l
  \/ Exists (fun t => exists h o, t = TxRemoveDoc h o
                                  /\ stored store (objectId o) = true)
        (map extractTx l)
  \/ (1 <= n)%nat.
Proof.
  induction 1 as [|t rest Ht _ IH]; simpl; [by left|].
  destruct (cascades_shape n store t Ht) as (_ & _ & [[Hcnt _]|[[Hrm _]|[_ Hr]]]).
  - destruct IH as [Hall|[Hex|Hn]].
    + left. by constructor.
    + right. left. by apply Exists_cons_tl.
    + right. by right.
  - right. left. by apply Exists_cons_hd.
  - right. right. lia.
Qed.

Lemma processRemove_counters (findAll : FindAll) (txes : list Tx)
    (st : St (list Doc)) :
  Forall (fun t => isCounterTx t = true) txes ->
  processRemove (SV := SVs) txes findAll st = ([], st).
Proof.
  unfold processRemove. induction 1 as [|t rest Ht _ IH]; simpl; [done|].
  assert (Hstep : processRemoveTx (SV := SVs) findAll t st = ([], st)).
  { unfold processRemoveTx. by destruct t. }
  by rewrite Hstep, IH.
Qed.

Lemma processCollection_none (findAll : FindAll) (rm : gmap Ref Doc)
    (txes : list Tx) :
  Forall (fun t => isCounterTx t = true) txes ->
  processCollection txes findAll rm = [].
Proof.
  unfold processCollection. induction 1 as [|t rest Ht _ IH]; simpl; [done|].
  rewrite IH. by destruct t.
Qed.

(** A pass over counter updates derives nothing. *)
Lemma deriveOnce_counters (txes : list Tx) (st : St (list Doc)) :
  Forall (fun t => isCounterTx t = true) txes ->
  deriveOnce (SV := SVs) txes st = ([], st).
Proof.
  intros Hall. unfold deriveOnce. simpl findAllDB.
  rewrite (processRemove_counters _ txes st Hall).
  rewrite (processCollection_none _ _ txes Hall).
  rewrite processMove_still.
  - simpl triggersApply. by rewrite silent.
  - eapply Forall_impl; [exact Hall|]. intros t Ht. simpl in Ht.
    unfold movesSpace. destruct t; try discriminate; simpl in *; [|done].
    by destruct (op_space operations).
Qed.

Lemma processDerived_counters (fuel : nat) (txes : list Tx)
    (st : St (list Doc)) :
  Forall (fun t => isCounterTx t = true) txes ->
  processDerived (SV := SVs) (S fuel) txes st = Some (Ret [], st).
Proof.
  intros Hall. cbn [processDerived]. rewrite (deriveOnce_counters txes st Hall).
  reflexivity.
Qed.

(** The cascade needs no more passes than there are stored documents and
    levels left for the space moves, plus two. *)
Lemma processDerived_bounded (k : nat) :
  forall (fuel : nat) (txes : list Tx) (st : St (list Doc)),
    (length (db st) + moveDepth rank txes <= k)%nat -> (k + 2 <= fuel)%nat ->
    collectorsStored ->
    acyclic rank (db st) ->
    exists res st',
      processDerived (SV := SVs) fuel txes st = Some (Ret res, st').
Proof.
  induction k as [|m IH]; intros fuel txes st Hlen Hfuel Hcol Hac.
  all: destruct fuel as [|f]; [lia|]; cbn [processDerived].
  all: destruct (deriveOnce_cascades txes st Hcol Hac) as [Hkind Hdb].
  all: destruct (deriveOnce txes st) as [derived0 st1]; simpl in Hkind, Hdb.
  all: unfold processDerivedTxes.
  all: assert (Hsorted :
         Forall (fun t => cascades rank (pred (moveDepth rank txes)) (db st) t
                          = true) (sortTx derived0))
         by (by rewrite sortTx_Permutation).
  all: destruct (routeTx_store (sortTx derived0) st1)
         as (r & st2 & Hroute & Hdb2); rewrite Hroute.
  all: destruct (sortTx derived0) as [|t0 rest0] eqn:Esort; [by eauto|].
  all: destruct (cascades_supported _ _ _ Hsorted) as (Hsup & Hshr & Hdepth).
  all: rewrite Hsup, Hdb in Hdb2.
  all: pose proof (applyAll_shrinks _ (db st) Hshr) as Hle;
       rewrite <- Hdb2 in Hle.
  all: pose proof (applyAll_acyclic rank _ (db st) Hshr Hac) as Hac2;
       rewrite <- Hdb2 in Hac2.
  all: destruct (cascades_split _ _ _ Hsorted) as [Hcnt|[Hex|Hn]].
  all: try (destruct f as [|f']; [lia|];
            rewrite (processDerived_counters f' _ st2 Hcnt); by eauto).
  all: try (pose proof (applyAll_remove _ _ Hshr Hex) as Hlt;
            rewrite <- Hdb2 in Hlt).
  - lia.
  - lia.
  - destruct (IH f (t0 :: rest0) st2) as (res & st' & Hrec);
      [lia|lia|done|done|].
    rewrite Hrec. by eauto.
  - destruct (IH f (t0 :: rest0) st2) as (res & st' & Hrec);
      [lia|lia|done|done|].
    rewrite Hrec. by eauto.
Qed.

(** C3, as the code has it, for the derivation rules of the engine over a
    store whose [attachedTo] references have no cycle (no trigger adds
    transactions, collectors hand back stored documents).  The recursion of
    [processDerived] and [processDerivedTxes] ends: with [n] stored
    documents and space moves that can still go [d] levels down, [n + d + 2]
    passes (or any larger bound) yield the result.  It ends because a pass
    that derives nothing stops it, because a pass that derives a remove is
    followed by a routing step that leaves the store smaller, and because
    the space moves a pass derives are one level further down. *)
Theorem processDerived_terminates (txes : list Tx) (st : St (list Doc)) :
  collectorsStored ->
  acyclic rank (db st) ->
  (forall fuel,
     (length (db st) + moveDepth rank txes + 2 <= fuel)%nat ->
     exists res st',
       processDerived (SV := SVs) fuel txes st = Some (Ret res, st'))
  /\ (fst (deriveOnce (SV := SVs) txes st) = [] ->
      forall fuel,
        processDerived (SV := SVs) (S fuel) txes st
        = Some (Ret [], snd (deriveOnce (SV := SVs) txes st)))
  /\ (forall derived st1 r st2,
        deriveOnce (SV := SVs) txes st = (derived, st1) ->
        Router.routeTx (SV := SVs) (sortTx derived) st1 = (Ret r, st2) ->
        (Exists (fun t => isTxRemoveDoc (extractTx t) = true) derived ->
         (length (db st2) < length (db st))%nat)
        /\ (moveDepth rank (sortTx derived) <= pred (moveDepth rank txes))%nat).
Proof.
  intros Hcol Hac. split_and!.
  - intros fuel Hfuel.
    by apply (processDerived_bounded (length (db st) + moveDepth rank txes)).
  - intros Hnone fuel. cbn [processDerived].
    destruct (deriveOnce txes st) as [derived st1]. simpl in *. subst derived.
    reflexivity.
  - intros derived st1 r st2 Hder Hroute.
    destruct (deriveOnce_cascades txes st Hcol Hac) as [Hkind Hdb].
    rewrite Hder in Hkind, Hdb. simpl in Hkind, Hdb.
    destruct (routeTx_store (sortTx derived) st1)
      as (r' & st2' & Hroute' & Hdb2).
    rewrite Hroute in Hroute'. inversion Hroute'; subst r' st2'.
    assert (Hsorted :
      Forall (fun t => cascades rank (pred (moveDepth rank txes)) (db st) t
                       = true) (sortTx derived))
      by (by rewrite sortTx_Permutation).
    destruct (cascades_supported _ _ _ Hsorted) as (Hsup & Hshr & Hdepth).
    split; [|done]. intros Hex.
    rewrite Hsup, Hdb in Hdb2. rewrite Hdb2.
    apply applyAll_remove; [done|].
    assert (Hex' : Exists (fun t => isTxRemoveDoc (extractTx t) = true)
                     (sortTx derived))
      by (by rewrite sortTx_Permutation).
    clear Hdb2 Hsup Hshr Hroute Hroute' Hdepth.
    induction Hsorted as [|t rest Ht Hrest IH]; [by inversion Hex'|].
    simpl. inversion Hex' as [? ? Hrm|? ? Hex'']; subst.
    + apply Exists_cons_hd.
      destruct (cascades_shape _ _ _ Ht)
        as (_ & _ & [[Hcnt _]|[[Hst _]|[Hmv _]]]); [|done|].
      * destruct t; discriminate.
      * unfold movesSpace in Hmv. destruct (extractTx t); discriminate.
    + apply Exists_cons_tl. by apply IH.
Qed.

End CascadeProps.

(** Removing [issue1], whose class [Issue] is its own domain root with the
    mixin [Tagged] under it: the comment (found in two collections), the
    label of the mixin and the link the collector gathers are all removed
    in the same pass. *)
Lemma processRemove_cascade_witness :
  exists mine after,
    fst (Derivation.processRemove (H := Sample.hierarchy)
           (SV := Sample.server) ([] ++ Sample.removeIssue1 :: [])
           (Store.storeFindAll (H := Sample.hierarchy) Sample.orphans)
           Sample.afterRemove)
    = [] ++ mine ++ after
    /\ Forall2 (Derivation.removeOf (H := Sample.hierarchy))
         [Sample.comment1; Sample.comment1; Sample.label1; Sample.link1] mine.
Proof.
  destruct (processRemove_cascade (H := Sample.hierarchy) (SV := Sample.server)
              (Store.storeFindAll (H := Sample.hierarchy) Sample.orphans)
              [] [] Sample.removeIssue1 (Sample.head0 "alice")
              (mkObj "issue1" "Issue" "proj") Sample.afterRemove)
    as (object & root & mine & after & _ & Hobj & _ & Huniq & Heq & Hall).
  - reflexivity.
  - vm_compute. eauto.
  - specialize (Hobj eq_refl).
    assert (Hissue : object = Sample.issue1).
    { vm_compute in Hobj. by injection Hobj as <-. }
    subst object.
    assert (Hroot : "Issue" = root).
    { apply Huniq. right. exists [], ["core:class:Doc"].
      split_and!; [reflexivity|reflexivity|].
      constructor; [discriminate|constructor]. }
    subst root.
    exists mine, after. split; [exact Heq|]. exact Hall.
Defined.

(** The cascade of the sample, with the documents it removes in order. *)
Example processRemove_sample :
  map (fun t => objectId <$> txObj (extractTx t))
    (fst (Derivation.processRemove (H := Sample.hierarchy)
            (SV := Sample.server) [Sample.removeIssue1]
            (Store.storeFindAll (H := Sample.hierarchy) Sample.orphans)
            Sample.afterRemove))
  = [Some "c1"; Some "c1"; Some "l1"; Some "k1"].
Proof. vm_compute. reflexivity. Qed.

(** C1 as stated fails for a mixin that is applied on the instance without
    being a descendant of the domain root of its class.  [Watched] is
    applied on [issue6], it is of kind mixin and its collection holds the
    watcher [w1]; the pass removes the label of [Tagged] and leaves the
    watcher. *)
Lemma applied_mixin_outside_domain_root :
  let findAll := Store.storeFindAll (H := Cases.watching)
                   [Cases.label6; Cases.watcher1] in
  "Watched" ∈ mixins Cases.issue6
  /\ classKind (Hierarchy := Cases.watching) "Watched" = MIXIN
  /\ Derivation.attachedOf (H := Cases.watching) findAll "Watched"
       (Some "Issue") "issue6" = [Cases.watcher1]
  /\ Derivation.getParentClass (H := Cases.watching) "Issue" = "Issue"
  /\ getDescendants (Hierarchy := Cases.watching) "Issue" = ["Issue"; "Tagged"]
  /\ map (fun t => objectId <$> txObj (extractTx t))
       (fst (Derivation.processRemove (H := Cases.watching)
               (SV := Store.storeServer (H := Cases.watching)
                        Sample.noTriggers Z.of_nat)
               [Cases.removeIssue6] findAll Cases.afterRemove6))
     = [Some "l6"].
Proof.
  cbv zeta. split_and!; [|reflexivity|vm_compute; reflexivity
                         |vm_compute; reflexivity|reflexivity
                         |vm_compute; reflexivity].
  apply list_elem_of_In. cbn. tauto.
Qed.


Example routeTx_sample :
  map fst
    (calls (snd (Router.routeTx (H := Sample.hierarchy) (SV := Sample.server)
                   Sample.mixedBatch
                   (mkSt ∅ 0 (Sample.issue1 :: Sample.orphans) [] [] []))))
  = ["task"; "chat"; "task"].
Proof. vm_compute. reflexivity. Qed.

(** C3 as stated fails in its reason.  [issue1] holds two collections of
    comments and [findAll] does not look at the collection name: the one
    comment attached to it is remove-derived twice in the same pass, the
    second time when it is already in [removedMap]; [deleteObject] never
    consults the map. *)
Lemma removed_document_derived_again :
  map (fun t => objectId <$> txObj (extractTx t))
    (fst (Derivation.processRemove (H := Sample.hierarchy)
            (SV := Sample.server) [Sample.removeIssue1]
            (Store.storeFindAll (H := Sample.hierarchy) Sample.orphans)
            Sample.afterRemove))
  = [Some "c1"; Some "c1"; Some "l1"; Some "k1"]
  /\ (let st1 := snd (Derivation.deleteObject (H := Sample.hierarchy)
                        (SV := Sample.server) Sample.comment1
                        Sample.afterRemove) in
      removedMap st1 !! "c1" = Some Sample.comment1
      /\ map (fun t => objectId <$> txObj (extractTx t))
           (fst (Derivation.deleteObject (H := Sample.hierarchy)
                   (SV := Sample.server) Sample.comment1 st1))
         = [Some "c1"]).
Proof. vm_compute. split; [reflexivity|split; reflexivity]. Qed.

Lemma sample_collectorsStored : Store.collectorsStored (H := Sample.hierarchy).
Proof.
  intros cls collector object store d Hc Hd. simpl in Hc.
  destruct (String.eqb cls "Issue"); [|discriminate].
  inversion Hc; subst.
  by apply (storeFindAll_stored (H := Sample.hierarchy)) in Hd.
Qed.

(** The cascade of the sample ends within the bound: four stored
    documents, six passes allowed. *)
Lemma sample_acyclic : Store.acyclic Sample.rank Sample.orphans.
Proof.
  intros d Hd. unfold Sample.orphans in Hd.
  repeat (apply elem_of_cons in Hd as [->|Hd]; [vm_compute; lia|]).
  by apply elem_of_nil in Hd.
Qed.

Lemma processDerived_terminates_witness :
  exists res st',
    Derivation.processDerived (H := Sample.hierarchy) (SV := Sample.server)
      6 [Sample.removeIssue1] Sample.afterRemove
    = Some (Ret res, st').
Proof.
  destruct (processDerived_terminates (H := Sample.hierarchy)
              Sample.noTriggers Z.of_nat Sample.rank (fun _ _ _ => eq_refl)
              [Sample.removeIssue1] Sample.afterRemove
              sample_collectorsStored sample_acyclic)
    as [Hterm _].
  apply (Hterm 6%nat). vm_compute. lia.
Defined.

(** A space move goes down to what is attached: moving [issue1] moves its
    comment, once for each of the two collections of comments the class
    declares, and the next pass derives nothing. *)
Example processDerived_move_sample :
  exists res st',
    Derivation.processDerived (H := Sample.hierarchy) (SV := Sample.server)
      3 [Sample.moveIssue1] Sample.afterMove
    = Some (Ret res, st')
    /\ map Store.target res = ["c1"; "c1"]
    /\ map (fun d => (_id d, space d)) (db st')
       = [("issue1", "archive"); ("c1", "archive"); ("l1", "proj");
          ("k1", "proj")].
Proof. eexists _, _. vm_compute. split_and!; reflexivity. Qed.

(** Why the [attachedTo] references must have no cycle: with two folders
    attached to each other, each pass moves each folder to the space the
    other was found in, and the passes go on (here, past the sixtieth). *)
Example processDerived_move_cycle :
  Derivation.processDerived (H := Sample.folders)
    (SV := Store.storeServer (H := Sample.folders) Sample.noTriggers Z.of_nat)
    60 Sample.swapSpaces Sample.afterSwap
  = None.
Proof. vm_compute. reflexivity. Qed.

(** ** Apply-if scope serializer *)

Section ApplyIfProps.
Context {H : Hierarchy} {P : Probe}.
Import ApplyIf.

(** What [processTxes] does release: once the [finally] block has run the
    collected [onEnd]s, none of their scopes is in the map. *)
Lemma runOnEnds_released (l : list (string * nat)) (sc : Scopes)
    (scope : string) (p : nat) :
  (scope, p) ∈ l -> entries (runOnEnds l sc) !! scope = None.
Proof.
  unfold runOnEnds. intros Hin.
  assert (Hgone : forall l' sc',
            entries sc' !! scope = None ->
            entries (fold_left (fun s oe => onEnd (fst oe) (snd oe) s) l' sc')
              !! scope = None).
  { induction l' as [|oe rest IH]; intros sc' Hsc; simpl; [done|].
    apply IH. simpl. destruct (decide (fst oe = scope)) as [->|Hne].
    - apply lookup_delete_eq.
    - by rewrite lookup_delete_ne. }
  revert sc. induction l as [|oe rest IH]; intros sc; [by inversion Hin|].
  simpl. apply elem_of_cons in Hin as [<-|Hin].
  - apply Hgone. simpl. apply lookup_delete_eq.
  - by apply IH.
Qed.

(** C10 (the code at the failing input): one [TxApplyIf] whose first
    [match] predicate makes [findAll] reject.  [verifyApplyIf] has set the
    scope's entry before it evaluates the predicate, and it throws before
    [processTxes] can push its [onEnd]: the call rejects, the [finally]
    block has nothing to run, and the scope stays in the map with a
    promise that nothing will resolve. *)
Theorem processTxes_leaks_scope (fuel : nat)
    (body : Buckets -> Outcome (list TxResult * list Tx)) (h : TxHead)
    (scope : string) (q : ClassQuery) (matches notMatch : list ClassQuery)
    (txes : list Tx) (e : string) :
  findCount q = Threw e ->
  processTxes (S fuel) body [TxApplyIf h scope (q :: matches) notMatch txes]
    emptyScopes
  = Some (Rejected e, mkScopes {[ scope := 0%nat ]} ∅ 1).
Proof.
  intros Hq. unfold processTxes. cbn [fillTxes fold_left fillTx isTxApplyIf].
  cbn [walkApply applyTxes buckets lookup list_lookup app].
  unfold verifyApplyIf, awaited, emptyScopes. cbn [entries scopes].
  rewrite lookup_empty. cbn [canResume install allMatch].
  rewrite Hq. cbn [entries fresh settled onEnds scopes runOnEnds fold_left].
  by rewrite insert_empty.
Qed.

(** The next [TxApplyIf] on that scope awaits the leaked promise: its call
    never returns. *)
Lemma processTxes_blocked_after_leak (fuel : nat)
    (body : Buckets -> Outcome (list TxResult * list Tx)) (h : TxHead)
    (scope : string) (matches notMatch : list ClassQuery) (txes : list Tx) :
  processTxes (S fuel) body [TxApplyIf h scope matches notMatch txes]
    (mkScopes {[ scope := 0%nat ]} ∅ 1)
  = Some (NeverReturns, mkScopes {[ scope := 0%nat ]} ∅ 1).
Proof.
  unfold processTxes. cbn [fillTxes fold_left fillTx isTxApplyIf].
  cbn [walkApply applyTxes buckets lookup list_lookup app].
  unfold verifyApplyIf, awaited. cbn [entries scopes].
  rewrite lookup_singleton_eq. cbn [canResume settled].
  rewrite bool_decide_eq_false_2 by set_solver. reflexivity.
Qed.

End ApplyIfProps.

(** The sample: a predicate over an unknown class. *)
Lemma processTxes_leak_sample :
  ApplyIf.processTxes (H := Sample.hierarchy) (P := Sample.probe) 4
    Sample.quietBody [Sample.applyIfOn "board" [mkCQ "Unknown" "{}"]]
    ApplyIf.emptyScopes
  = Some (ApplyIf.Rejected "domain not found",
          ApplyIf.mkScopes {[ "board" := 0%nat ]} ∅ 1).
Proof.
  apply (processTxes_leaks_scope (H := Sample.hierarchy) (P := Sample.probe)).
  reflexivity.
Defined.

(** A call whose predicates evaluate leaves its scope free. *)
Example processTxes_release_sample :
  exists r d sc,
    ApplyIf.processTxes (H := Sample.hierarchy) (P := Sample.probe) 4
      Sample.quietBody [Sample.applyIfOn "board" [mkCQ "Issue" "{}"]]
      ApplyIf.emptyScopes
    = Some (ApplyIf.Returned r d, sc)
    /\ ApplyIf.entries sc !! "board" = None.
Proof. eexists _, _, _. vm_compute. split; reflexivity. Qed.

(** C4 (the code at the failing schedule): three calls carry a
    [TxApplyIf] of the same scope.  Call 0 registers and evaluates; calls 1
    and 2 arrive meanwhile and both await call 0's promise; call 0 ends;
    call 1 resumes, registers and starts evaluating; call 2 resumes from the
    same resolved promise, does not look at the map again, overwrites the
    entry and starts evaluating too: calls 1 and 2 are inside their
    evaluation-to-completion windows at the same time. *)
Theorem same_scope_windows_overlap :
  exists w,
    ApplyIf.run [0; 0; 1; 2; 0; 1; 2]%nat (ApplyIf.start ["s"; "s"; "s"]) = Some w
    /\ ApplyIf.inWindow w 1 /\ ApplyIf.inWindow w 2
    /\ ApplyIf.scopeOf w 1 = Some "s" /\ ApplyIf.scopeOf w 2 = Some "s".
Proof.
  eexists. split; [vm_compute; reflexivity|].
  split_and!; try reflexivity; unfold ApplyIf.inWindow; eauto.
Qed.

(** While call 0 holds the scope, a call that has read the scope's promise
    cannot go on: the serializer does hold back a newcomer until the holder
    ends. *)
Example newcomer_waits_for_holder :
  ApplyIf.run [0; 0; 1; 1]%nat (ApplyIf.start ["s"; "s"]) = None
  /\ exists w,
       ApplyIf.run [0; 0; 1; 0; 1]%nat (ApplyIf.start ["s"; "s"]) = Some w
       /\ ApplyIf.inWindow w 1 /\ ~ ApplyIf.inWindow w 0.
Proof.
  split; [vm_compute; reflexivity|].
  eexists. split; [vm_compute; reflexivity|]. split.
  - unfold ApplyIf.inWindow. eauto.
  - intros (s & p & Hw). vm_compute in Hw. discriminate.
Qed.

(** Calls on different scopes evaluate side by side. *)
Example different_scopes_overlap :
  exists w,
    ApplyIf.run [0; 0; 1; 1]%nat (ApplyIf.start ["a"; "b"]) = Some w
    /\ ApplyIf.inWindow w 0 /\ ApplyIf.inWindow w 1.
Proof.
  eexists. split; [vm_compute; reflexivity|].
  split; unfold ApplyIf.inWindow; eauto.
Qed.

(** ** Backup digests *)

Section DigestProps.
Context {SC : SnapshotCodec}.
Import Digest.

(** Resuming the replay: the loop over a sequence is the loop over its
    first part followed, unless the stop date ended it or it threw, by the
    loop over the rest from the state reached. *)
Lemma replay_app {BS : BackupStorage} (domain : Domain) (date_ : option Z)
    (l1 l2 : list BackupSnapshot) (st : DState) :
  replay domain date_ (l1 ++ l2) st =
  match replay domain date_ l1 st with
  | Ret (false, st1) => replay domain date_ l2 st1
  | other => other
  end.
Proof.
  revert st. induction l1 as [|s rest IH]; intros st; simpl; [done|].
  destruct (applySnapshot domain s st) as [st1|e]; [|done].
  destruct (bool_decide (date_ = Some (date s))); [done|]. apply IH.
Qed.

End DigestProps.

Example loadDigest_first_snapshot :
  Digest.loadDigest (BS := Sample.backupFiles) (SC := Sample.noLegacy)
    Sample.history "task" (Some 1)
  = Ret {[ "a" := Some "h1"; "b" := Some "h2" ]}.
Proof. vm_compute. reflexivity. Qed.

Example parseInt_samples :
  Digest.parseInt "12abc" = Some 12
  /\ Digest.parseInt "  -0x1fz" = Some (-31)
  /\ Digest.parseInt "" = None
  /\ Digest.parseInt "+7" = Some 7
  /\ Digest.splitOn ";" "a;b;c" = ["a"; "b"; "c"]
  /\ Digest.splitOn "010" "" = [""].
Proof. vm_compute. repeat split; reflexivity. Qed.

(** ** Field-extraction stage *)

Section FieldStageProps.
Context {W : Type} {PL : FieldStage.Pipeline W}.
Import FieldStage.













Section Answering.
Variable stored : Ref -> list Ref -> list Doc.
Variable attrs : Ref -> string.
Hypothesis Hfind : forall w c ids, fst (findDocs w c ids) = Ret (stored c ids).
Hypothesis Hattr : forall c, indexableAttributes c = Ret (attrs c).
Hypothesis Hmark : forall w d, fst (markRemove w d) = Ret tt.
Hypothesis Hrun : forall w, cancelling w = false.




End Answering.















End FieldStageProps.


(** The sample pass: [a] and [b] are indexed although [bad] failed between
    them, the failure is printed once, and [gone], which has no stored
    document, is marked for removal. *)
Example collect_sample :
  FieldStage.collect (PL := Sample.pipeline) Sample.toIndexSample []
  = (Ret tt,
     FieldStage.mkCSt
       ["update a"; "update b"; "markRemove gone"]
       ["getContent failed"]
       ["a"; "bad"; "b"]
       None).
Proof. vm_compute. reflexivity. Qed.


(** ** Further facts about the embedded functions *)

Section MixinProps.
Context {H : Hierarchy}.
Import Derivation.

(** The mixins whose collections the cascade walks: the classes of kind
    mixin among the descendants of the object's parent class (the last
    ancestor declared in the class's own domain) that are present on the
    instance. *)
Lemma getMixins_spec (cls : Ref) (object : Doc) (m : Ref) :
  m ∈ getMixins cls object
  <-> m ∈ getDescendants (getParentClass cls)
      /\ classKind m = MIXIN /\ m ∈ mixins object.
Proof.
  unfold getMixins, hasMixin. rewrite list_elem_of_In, List.filter_In.
  rewrite <- list_elem_of_In, andb_true_iff, !bool_decide_eq_true. tauto.
Qed.

End MixinProps.

Section LedgerFacts.
Context {HS : Hashing}.
Import Ledger.

(** The chain law of [setModel], position by position, and the length of
    the chain. *)
Lemma setModel_chain_law (m : list Tx) :
  length (setModel m) = length m
  /\ forall i tx, m !! i = Some tx ->
       setModel m !! i = Some (sha1 (prevHash (setModel m) i +:+ stringify tx)).
Proof.
  split; [apply hashChain_length|]. intros i tx Hi.
  by rewrite (setModel_chain m i tx Hi).
Qed.

End LedgerFacts.

(** ** Backup engine: the snapshot files *)

Section SnapshotFileProps.
Import Backup Digest.

Lemma to_uint_digits (n : nat) : Nat.to_uint n <> Decimal.Nil.
Proof.
  pose proof (Unsigned.to_of (Nat.to_uint n)) as Hn.
  rewrite Unsigned.of_to in Hn. rewrite Hn. unfold Decimal.unorm.
  by destruct (Decimal.nzhead (Nat.to_uint n)).
Qed.

Lemma digitsFrom_uint (u : Decimal.uint) (a : nat) :
  digitsFrom 10 (Some (Z.of_nat a)) (NilEmpty.string_of_uint u)
  = Some (Z.of_nat (Nat.of_uint_acc u a)).
Proof.
  revert a. induction u as [|u IH|u IH|u IH|u IH|u IH|u IH|u IH|u IH|u IH|u IH];
    intros a; [done|..].
  all: cbn [NilEmpty.string_of_uint digitsFrom Nat.of_uint_acc].
  all: match goal with
       | |- context [digitVal ?c] =>
           let v := eval vm_compute in (digitVal c) in
           change (digitVal c) with v
       end.
  all: cbn [default]; cbv beta iota.
  all: match goal with
       | |- context [?d <? 10] => change (d <? 10) with true
       end.
  all: cbv beta iota; rewrite <- IH.
  all: apply (f_equal (fun z => digitsFrom 10 (Some z) _)).
  all: unfold id; rewrite Nat.tail_mul_spec; lia.
Qed.

Lemma parseInt_uint (u : Decimal.uint) :
  u <> Decimal.Nil ->
  parseInt (NilEmpty.string_of_uint u)
  = Z.mul 1 <$> digitsFrom 10 (Some 0) (NilEmpty.string_of_uint u).
Proof.
  intros Hu. destruct u as [|u|u|u|u|u|u|u|u|u|u]; [done|..].
  all: destruct u; reflexivity.
Qed.

(** A count written by [writeChanges] is the count [parseInt] reads. *)
Lemma parseInt_showNat (n : nat) : parseInt (showNat n) = Some (Z.of_nat n).
Proof.
  unfold showNat. rewrite parseInt_uint by apply to_uint_digits.
  rewrite (digitsFrom_uint _ 0). cbn [fmap option_fmap option_map].
  f_equal. fold (Nat.of_uint (Nat.to_uint n)). rewrite Unsigned.of_to. lia.
Qed.

Lemma hasChar_uint (u : Decimal.uint) :
  hasChar "010" (NilEmpty.string_of_uint u) = false.
Proof. induction u; simpl; done. Qed.

Lemma splitOn_plain (sep : ascii) (s : string) :
  hasChar sep s = false -> splitOn sep s = [s].
Proof.
  induction s as [|c rest IH]; simpl; [done|]. intros Hs.
  apply orb_false_iff in Hs as [Hc Hrest]. rewrite Hc.
  by rewrite (IH Hrest).
Qed.

Lemma splitOn_cut (sep : ascii) (s rest : string) :
  hasChar sep s = false ->
  splitOn sep (s +:+ String sep rest) = s :: splitOn sep rest.
Proof.
  induction s as [|c s' IH]; simpl.
  - intros _. by rewrite Ascii.eqb_refl.
  - intros Hs. apply orb_false_iff in Hs as [Hc Hrest].
    rewrite Hc. by rewrite (IH Hrest).
Qed.

Lemma append_assoc (a b c : string) : (a +:+ b) +:+ c = a +:+ (b +:+ c).
Proof.
  induction a as [|x a IH]; [done|].
  change (String x ((a +:+ b) +:+ c) = String x (a +:+ (b +:+ c))).
  by rewrite IH.
Qed.

Lemma append_nil_r (s : string) : s +:+ "" = s.
Proof.
  induction s as [|x s IH]; [done|].
  change (String x (s +:+ "") = String x s). by rewrite IH.
Qed.

Lemma hasChar_app (c : ascii) (a b : string) :
  hasChar c (a +:+ b) = hasChar c a || hasChar c b.
Proof.
  induction a as [|x a IH]; [done|].
  change (hasChar c (String x (a +:+ b))
          = hasChar c (String x a) || hasChar c b).
  cbn [hasChar]. rewrite IH. by rewrite orb_assoc.
Qed.

(** Lines that hold no line break come back from [split] as they were
    written. *)
Lemma splitOn_lines (ls : list string) (rest : string) :
  Forall (fun l => hasChar "010" l = false) ls ->
  splitOn "010" (written (map (fun l => l +:+ newline) ls) +:+ rest)
  = ls ++ splitOn "010" rest.
Proof.
  induction 1 as [|l ls Hl _ IH]; [done|].
  cbn [map written fold_right]. fold (written (map (fun l => l +:+ newline) ls)).
  rewrite !append_assoc.
  change (newline +:+ (written (map (fun l0 => l0 +:+ newline) ls) +:+ rest))
    with (String "010" (written (map (fun l0 => l0 +:+ newline) ls) +:+ rest)).
  rewrite (splitOn_cut _ _ _ Hl). by rewrite IH.
Qed.

Lemma written_app (a b : list string) :
  written (a ++ b) = written a +:+ written b.
Proof.
  induction a as [|x a IH]; [done|]. cbn [app written fold_right].
  fold (written (a ++ b)). fold (written a). by rewrite IH, append_assoc.
Qed.

Lemma setLine_entry (m : gmap Ref (option string)) (k v : string) :
  hasChar ";" k = false -> hasChar ";" v = false ->
  setLine m (k +:+ ";" +:+ v) = <[k := Some v]> m.
Proof.
  intros Hk Hv. unfold setLine.
  change (k +:+ ";" +:+ v) with (k +:+ String ";" v).
  rewrite (splitOn_cut _ _ _ Hk), (splitOn_plain _ _ Hv). reflexivity.
Qed.

Lemma plain_parts (s : string) :
  plain s = true -> hasChar ";" s = false /\ hasChar "010" s = false.
Proof.
  unfold plain. rewrite andb_true_iff, !negb_true_iff. tauto.
Qed.

Lemma fold_setLine_entries (l : list (Ref * string))
    (m : gmap Ref (option string)) :
  Forall (fun kv => plain (fst kv) = true /\ plain (snd kv) = true) l ->
  fold_left setLine (map (fun kv => fst kv +:+ ";" +:+ snd kv) l) m
  = setEntries l m.
Proof.
  unfold setEntries.
  intros Hl. revert m. induction Hl as [|kv l [Hk Hv] _ IH]; intros m; [done|].
  cbn [map fold_left]. apply plain_parts in Hk as [Hk _].
  apply plain_parts in Hv as [Hv _]. by rewrite setLine_entry, IH.
Qed.

Lemma writeChanges_applyLines (c : Snapshot) (m : gmap Ref (option string)) :
  Forall (fun kv => plain (fst kv) = true /\ plain (snd kv) = true)
    (added c ++ updated c) ->
  Forall (fun k => hasChar "010" k = false) (removed c) ->
  applyLines (writeChanges c) m = applyChanges c m.
Proof.
  intros Hau Hrm. apply Forall_app in Hau as [Ha Hu].
  assert (Hlines : forall l : list (Ref * string),
            Forall (fun kv => plain (fst kv) = true /\ plain (snd kv) = true) l ->
            Forall (fun s => hasChar "010" s = false)
              (map (fun kv => fst kv +:+ ";" +:+ snd kv) l)).
  { intros l Hl. apply Forall_map. eapply Forall_impl; [exact Hl|].
    intros kv [Hk Hv]. simpl. apply plain_parts in Hk as [_ Hk].
    apply plain_parts in Hv as [_ Hv]. rewrite !hasChar_app, Hk, Hv. done. }
  assert (Htext : writeChanges c
    = written (map (fun l => l +:+ newline)
        ([showNat (length (added c))]
         ++ map (fun kv => fst kv +:+ ";" +:+ snd kv) (added c)
         ++ [showNat (length (updated c))]
         ++ map (fun kv => fst kv +:+ ";" +:+ snd kv) (updated c)
         ++ [showNat (length (removed c))]
         ++ removed c)) +:+ "").
  { unfold writeChanges. rewrite !map_app, !map_map. cbn [map].
    rewrite append_nil_r. f_equal. f_equal. f_equal.
    - apply map_ext. intros kv. by rewrite !append_assoc.
    - f_equal. f_equal. apply map_ext. intros kv. by rewrite !append_assoc. }
  unfold applyLines. rewrite Htext, splitOn_lines.
  2:{ repeat (apply Forall_app_2 || apply Forall_cons_2 || apply Forall_nil_2
              || apply hasChar_uint || apply Hlines); done. }
  cbn [app shift head tail default]. unfold id, splice0.
  rewrite parseInt_showNat, Nat2Z.id, <- app_assoc.
  rewrite take_app_length', drop_app_length' by (by rewrite length_map).
  cbn [app shift head tail default].
  rewrite parseInt_showNat, Nat2Z.id.
  rewrite <- !app_assoc.
  rewrite !take_app_length', !drop_app_length' by (by rewrite length_map).
  cbn [app shift head tail default from_option].
  rewrite parseInt_showNat, Nat2Z.id.
  rewrite take_app_length' by done.
  rewrite !fold_setLine_entries by done.
  reflexivity.
Qed.

(** [writeChanges] and the line format of [loadDigest] fit: the file
    written for a snapshot, once stored, is replayed by [loadDigest] as
    that snapshot (its added and updated entries are set, its removed ids
    are deleted, and nothing is reported broken), as long as no id and no
    hash holds a semicolon or a line break. *)
Theorem writeChanges_read_back {BS : BackupStorage} (c : Snapshot)
    (file : string) (domain : Domain) (st : DState) :
  loadText file = Some (writeChanges c) ->
  Forall (fun kv => plain (fst kv) = true /\ plain (snd kv) = true)
    (added c ++ updated c) ->
  Forall (fun k => hasChar "010" k = false) (removed c) ->
  applyFile domain st file
  = mkDState (applyChanges c (digest st)) (broken st).
Proof.
  intros Hfile Hau Hrm. unfold applyFile. rewrite Hfile.
  by rewrite writeChanges_applyLines.
Qed.

End SnapshotFileProps.

(** ** Backup engine: the digest of a history *)

Section HistoryProps.
Context {BS : BackupStorage} {SC : SnapshotCodec}.
Import Backup Digest.

Lemma applyAllChanges_app (cs1 cs2 : list Snapshot)
    (m : gmap Ref (option string)) :
  applyAllChanges (cs1 ++ cs2) m = applyAllChanges cs2 (applyAllChanges cs1 m).
Proof. unfold applyAllChanges. by rewrite fold_left_app. Qed.

Lemma applyFiles_lined (domain : Domain) (files : list string)
    (lined : list Snapshot) (st : DState) :
  Forall2 (fun file c => loadText file = Some (writeChanges c) /\ carried c)
    files lined ->
  fold_left (applyFile domain) files st
  = mkDState (applyAllChanges lined (digest st)) (broken st).
Proof.
  intros Hall. revert st.
  induction Hall as [|file c files lined [Hfile [Hau Hrm]] _ IH]; intros st.
  - by destruct st.
  - cbn [fold_left]. rewrite IH. unfold applyFile. rewrite Hfile.
    cbn [digest broken]. by rewrite writeChanges_applyLines.
Qed.

Lemma applySnapshot_records (domain : Domain) (s : BackupSnapshot)
    (cs : list Snapshot) (st : DState) :
  records domain s cs ->
  applySnapshot domain s st
  = Ret (mkDState (applyAllChanges cs (digest st)) (broken st)).
Proof.
  intros (legacy & lined & -> & Hleg & Hlined).
  unfold applySnapshot, applyLegacy. rewrite applyAllChanges_app.
  destruct (domains s !! domain ≫= snapshot) as [file|].
  - destruct Hleg as (v & -> & ->).
    by rewrite (applyFiles_lined domain _ lined).
  - subst legacy. by rewrite (applyFiles_lined domain _ lined).
Qed.

Lemma replay_records (domain : Domain) (date_ : option Z)
    (l : list BackupSnapshot) (css : list (list Snapshot)) (st : DState) :
  Forall2 (records domain) (upTo date_ l) css ->
  exists stopped,
    replay domain date_ l st
    = Ret (stopped,
           mkDState (applyAllChanges (concat css) (digest st)) (broken st)).
Proof.
  revert css st. induction l as [|s rest IH]; intros css st Hrec.
  - cbn in Hrec. inversion Hrec; subst. exists false. by destruct st.
  - cbn [upTo] in Hrec. cbn [replay].
    destruct (bool_decide (date_ = Some (date s))) eqn:Hd.
    + inversion Hrec as [|? cs ? css' Hs Hrest]; subst.
      inversion Hrest; subst.
      rewrite (applySnapshot_records domain s cs st Hs).
      exists true. cbn [concat]. by rewrite app_nil_r.
    + inversion Hrec as [|? cs ? css' Hs Hrest]; subst.
      rewrite (applySnapshot_records domain s cs st Hs).
      destruct (IH css' (mkDState (applyAllChanges cs (digest st))
                           (broken st)) Hrest) as [stopped Hrun].
      exists stopped.
      rewrite Hrun. cbn [digest broken concat].
      by rewrite applyAllChanges_app.
Qed.

Lemma upTo_never (date_ : option Z) (l : list BackupSnapshot) :
  Forall (fun s => date_ <> Some (date s)) l -> upTo date_ l = l.
Proof.
  induction 1 as [|s l Hs _ IH]; [done|].
  cbn [upTo]. rewrite bool_decide_eq_false_2 by done. by rewrite IH.
Qed.

Lemma upTo_app (date_ : option Z) (l1 l2 : list BackupSnapshot) :
  Forall (fun s => date_ <> Some (date s)) l1 ->
  upTo date_ (l1 ++ l2) = l1 ++ upTo date_ l2.
Proof.
  induction 1 as [|s l Hs _ IH]; [done|].
  cbn [upTo app]. rewrite bool_decide_eq_false_2 by done. by rewrite IH.
Qed.

(** C8: [loadDigest] is a fold over the snapshot sequence, in snapshot
    order, and what it folds is what the files record.  For every
    sequence, the digest of [l1 ++ l2] is reached as well by replaying [l1]
    and resuming with [l2] from the state it left (incrementally) as by
    replaying the whole sequence from the empty map (a fresh full reload);
    a replay that the stop date ended, or that threw, is not resumed.
    When the files of the snapshots replayed hold change sets, the legacy
    whole-JSON file of a snapshot first and then its line-oriented files
    as [writeChanges] writes them, the map is the one obtained from the
    empty map by setting, change set after change set, the added entries,
    then the updated ones, and deleting the removed ids; the replay stops
    with the first snapshot of the stop date; and resuming from the digest
    of [l1] gives the same map as the full reload. *)
Theorem loadDigest_same_map (domain : Domain) (date_ : option Z)
    (l1 l2 : list BackupSnapshot) :
  loadDigest (l1 ++ l2) domain date_
  = match replay domain date_ l1 (mkDState ∅ []) with
    | Ret (false, st1) =>
        match replay domain date_ l2 st1 with
        | Ret (_, st2) => Ret (digest st2)
        | Threw e => Threw e
        end
    | Ret (true, st1) => Ret (digest st1)
    | Threw e => Threw e
    end
  /\ forall css1 css2 : list (list Snapshot),
       Forall (fun s => date_ <> Some (date s)) l1 ->
       Forall2 (records domain) l1 css1 ->
       Forall2 (records domain) (upTo date_ l2) css2 ->
       loadDigest (l1 ++ l2) domain date_
       = Ret (applyAllChanges (concat (css1 ++ css2)) ∅)
       /\ loadDigest l1 domain date_ = Ret (applyAllChanges (concat css1) ∅)
       /\ exists stopped,
            replay domain date_ l2
              (mkDState (applyAllChanges (concat css1) ∅) [])
            = Ret (stopped,
                   mkDState (applyAllChanges (concat (css1 ++ css2)) ∅) []).
Proof.
  split.
  { unfold loadDigest. rewrite replay_app.
    destruct (replay domain date_ l1 (mkDState ∅ [])) as [[[|] st1]|e]; done. }
  intros css1 css2 Hno H1 H2.
  assert (Hall : Forall2 (records domain) (upTo date_ (l1 ++ l2))
                   (css1 ++ css2)).
  { rewrite upTo_app by done. by apply Forall2_app. }
  split_and!.
  - unfold loadDigest.
    destruct (replay_records domain date_ (l1 ++ l2) (css1 ++ css2)
                (mkDState ∅ []) Hall) as [stopped ->].
    done.
  - unfold loadDigest. rewrite <- (upTo_never date_ l1 Hno) in H1.
    destruct (replay_records domain date_ l1 css1 (mkDState ∅ []) H1)
      as [stopped ->].
    done.
  - destruct (replay_records domain date_ l2 css2
                (mkDState (applyAllChanges (concat css1) ∅) []) H2)
      as [stopped Hrun].
    exists stopped. rewrite Hrun. cbn [digest broken].
    by rewrite concat_app, applyAllChanges_app.
Qed.

End HistoryProps.

(** The sample history: the first file adds [a] and [b], the second
    updates [a] and removes [b]; the digest after both, by a full
    reload. *)
Lemma loadDigest_same_map_witness :
  Digest.loadDigest (BS := Sample.backupFiles) (SC := Sample.noLegacy)
    ([Sample.snapshotOf "task-1.snp" 1] ++ [Sample.snapshotOf "task-2.snp" 2])
    "task" None
  = Ret {[ "a" := Some "h9" ]}.
Proof.
  destruct (loadDigest_same_map (BS := Sample.backupFiles)
              (SC := Sample.noLegacy) "task" None
              [Sample.snapshotOf "task-1.snp" 1]
              [Sample.snapshotOf "task-2.snp" 2]) as [_ Hcontent].
  destruct (Hcontent
              [[Backup.mkSnapshot [("a", "h1"); ("b", "h2")] [] []]]
              [[Backup.mkSnapshot [] [("a", "h9")] ["b"]]])
    as [Hfull _].
  - constructor; [discriminate|constructor].
  - constructor; [|constructor].
    exists [], [Backup.mkSnapshot [("a", "h1"); ("b", "h2")] [] []].
    split_and!; [reflexivity|reflexivity|].
    constructor; [|constructor]. split; [vm_compute; reflexivity|].
    split; repeat constructor.
  - constructor; [|constructor].
    exists [], [Backup.mkSnapshot [] [("a", "h9")] ["b"]].
    split_and!; [reflexivity|reflexivity|].
    constructor; [|constructor]. split; [vm_compute; reflexivity|].
    split; repeat constructor.
  - rewrite Hfull. vm_compute. reflexivity.
Defined.


(** ** Backup engine: the change set of a backup *)

Section BackupDiffProps.
Import Backup.

Lemma setEntries_snoc (l : list (Ref * string)) (k : Ref) (v : string)
    (m : gmap Ref (option string)) :
  setEntries (l ++ [(k, v)]) m = <[k := Some v]> (setEntries l m).
Proof. unfold setEntries. by rewrite fold_left_app. Qed.

Lemma setEntries_lookup_congr (l : list (Ref * string))
    (m1 m2 : gmap Ref (option string)) (k : Ref) :
  m1 !! k = m2 !! k -> setEntries l m1 !! k = setEntries l m2 !! k.
Proof.
  unfold setEntries. revert m1 m2.
  induction l as [|[k' v'] l IH]; intros m1 m2 Hm; [done|].
  cbn [fold_left fst snd]. apply IH.
  destruct (decide (k' = k)) as [->|Hne].
  - by rewrite !lookup_insert_eq.
  - by rewrite !lookup_insert_ne.
Qed.

Lemma setEntries_lookup_fresh (l : list (Ref * string))
    (m : gmap Ref (option string)) (k : Ref) :
  k ∉ l.*1 -> setEntries l m !! k = m !! k.
Proof.
  unfold setEntries. revert m.
  induction l as [|[k' v'] l IH]; intros m Hk; [done|].
  cbn [fold_left fst snd]. rewrite IH.
  - apply lookup_insert_ne. intros ->. apply Hk. by left.
  - intros Hin. apply Hk. by right.
Qed.

Lemma mapSet_fresh (k : Ref) (v : string) (l : list (Ref * string)) :
  k ∉ l.*1 -> mapSet k v l = l ++ [(k, v)].
Proof.
  induction l as [|[k' v'] l IH]; intros Hk; [done|].
  cbn [mapSet app]. destruct (String.eqb_spec k' k) as [->|Hne].
  - exfalso. apply Hk. by left.
  - rewrite IH; [done|]. intros Hin. apply Hk. by right.
Qed.

Lemma mapSet_keys (k : Ref) (v : string) (l : list (Ref * string)) (x : Ref) :
  x ∈ (mapSet k v l).*1 -> x = k \/ x ∈ l.*1.
Proof.
  induction l as [|[k' v'] l IH]; cbn [mapSet fmap list_fmap fst].
  - intros Hx. apply list_elem_of_singleton in Hx. by left.
  - destruct (String.eqb k' k); cbn [fmap list_fmap fst]; intros Hx.
    + apply elem_of_cons in Hx as [->|Hx]; [by left|]. right. by right.
    + apply elem_of_cons in Hx as [->|Hx]; [right; by left|].
      destruct (IH Hx) as [->|Hin]; [by left|]. right. by right.
Qed.

Lemma deleteAll_lookup {V : Type} (ks : list Ref) (m : gmap Ref V)
    (k : Ref) :
  fold_left (fun r x => delete x r) ks m !! k
  = if decide (k ∈ ks) then None else m !! k.
Proof.
  revert m. induction ks as [|x ks IH]; intros m; [done|].
  cbn [fold_left]. rewrite IH.
  destruct (decide (k ∈ ks)) as [Hin|Hout].
  - rewrite decide_True; [done|]. by right.
  - destruct (decide (x = k)) as [->|Hne].
    + rewrite decide_True by (by left). apply lookup_delete_eq.
    + rewrite decide_False.
      * by rewrite lookup_delete_ne.
      * intros Hin. apply elem_of_cons in Hin as [->|Hin]; done.
Qed.

Lemma loadDoc_inv (digest0 : gmap Ref (option string)) (seen : list DocInfo)
    (st : Loading) (pg : Pending) (d : DocInfo) :
  (forall k, digest0 !! k <> Some None) ->
  i_id d ∉ map i_id seen ->
  loadInv digest0 seen st pg ->
  loadInv digest0 (seen ++ [d]) (fst (loadDoc (st, pg) d))
    (snd (loadDoc (st, pg) d)).
Proof.
  intros Hdef Hnew (Hdig & Hka & Hku & Hseen & Hrest & Hrm & Hch & Hne & Hn & Hsz).
  assert (Hids : forall k, k ∈ map i_id (seen ++ [d])
                           <-> k ∈ map i_id seen \/ k = i_id d).
  { intros k. rewrite map_app. cbn [map]. rewrite elem_of_app.
    by rewrite list_elem_of_singleton. }
  assert (Hcur : l_digest st !! i_id d = digest0 !! i_id d).
  { rewrite Hdig. by rewrite decide_False. }
  assert (Hfilter : List.filter (differs digest0) (seen ++ [d])
                    = List.filter (differs digest0) seen
                      ++ (if differs digest0 d then [d] else [])).
  { by rewrite List.filter_app. }
  (* the digest after the step, whichever branch deleted the id *)
  assert (Hdig' : forall dg,
            (dg = l_digest st /\ digest0 !! i_id d = None
             \/ dg = delete (i_id d) (l_digest st)) ->
            forall k, dg !! k
                      = if decide (k ∈ map i_id (seen ++ [d])) then None
                        else digest0 !! k).
  { intros dg Hdg k. destruct (decide (k = i_id d)) as [->|Hk].
    - rewrite decide_True by (apply Hids; by right).
      destruct Hdg as [[-> Hnone]| ->]; [by rewrite Hcur|].
      apply lookup_delete_eq.
    - assert (dg !! k = l_digest st !! k) as ->.
      { destruct Hdg as [[-> _]| ->]; [done|]. by rewrite lookup_delete_ne. }
      rewrite Hdig. destruct (decide (k ∈ map i_id seen)) as [Hin|Hout].
      + rewrite decide_True; [done|]. apply Hids. by left.
      + rewrite decide_False; [done|]. rewrite Hids. tauto. }
  (* the change set after the step, applied to the first digest *)
  assert (Hset : forall a u,
            (forall k, setEntries u (setEntries a digest0) !! k
                       = if decide (k = i_id d) then Some (Some (i_hash d))
                         else setEntries (updated (l_changes st))
                                (setEntries (added (l_changes st)) digest0) !! k) ->
            (forall d0, d0 ∈ seen ++ [d] ->
               setEntries u (setEntries a digest0) !! i_id d0
               = Some (Some (i_hash d0)))
            /\ (forall k, k ∉ map i_id (seen ++ [d]) ->
                  setEntries u (setEntries a digest0) !! k = digest0 !! k)).
  { intros a u Hau. split.
    - intros d0 Hd0. rewrite Hau. apply elem_of_app in Hd0 as [Hd0|Hd0].
      + rewrite decide_False; [by apply Hseen|].
        intros Heq. apply Hnew. rewrite <- Heq.
        apply list_elem_of_fmap. by exists d0.
      + apply list_elem_of_singleton in Hd0 as ->. by rewrite decide_True.
    - intros k Hk. rewrite Hau. rewrite Hids in Hk.
      rewrite decide_False by tauto. apply Hrest. tauto. }
  unfold loadDoc, loadInv. rewrite Hcur.
  destruct (digest0 !! i_id d) as [[kHash|]|] eqn:Hget.
  - (* the digest holds the id *)
    destruct (decide (kHash = i_hash d)) as [->|Hhash].
    + (* with the same hash *)
      assert (Hsame : differs digest0 d = false).
      { unfold differs. rewrite Hget. by rewrite bool_decide_eq_true_2. }
      rewrite Hsame, app_nil_r in Hfilter.
      destruct (Hset (added (l_changes st)) (updated (l_changes st)))
        as [Hs1 Hs2].
      { intros k. destruct (decide (k = i_id d)) as [->|]; [|done].
        by rewrite Hrest. }
      rewrite (proj2 (Z.ltb_ge _ _) Hsz). cbn [fst snd l_digest l_changes
        l_changed l_chunks]. rewrite Hfilter.
      split_and!; try done.
      * apply Hdig'. by right.
      * intros k Hk. apply Hids. left. by apply Hka.
      * intros k Hk. apply Hids. left. by apply Hku.
    + (* with another hash: an update *)
      assert (Hdiff : differs digest0 d = true).
      { unfold differs. rewrite Hget.
        rewrite bool_decide_eq_false_2; [done|]. congruence. }
      rewrite Hdiff in Hfilter.
      assert (Hfresh : i_id d ∉ (updated (l_changes st)).*1).
      { intros Hin. by apply Hnew, Hku. }
      destruct (Hset (added (l_changes st))
                  (mapSet (i_id d) (i_hash d) (updated (l_changes st))))
        as [Hs1 Hs2].
      { intros k. rewrite (mapSet_fresh _ _ _ Hfresh), setEntries_snoc.
        destruct (decide (k = i_id d)) as [->|Hk].
        - apply lookup_insert_eq.
        - by rewrite lookup_insert_ne. }
      cbv beta iota; cbn [p_size p_need];
      destruct (retrieveChunkSize <? p_size pg + i_size d) eqn:Hbig;
        cbn [fst snd l_digest l_changes l_changed l_chunks added updated
             removed p_need p_size]; rewrite Hfilter.
      all: split_and!; try done.
      all: try (apply Hdig'; by right).
      all: try (intros k Hk; apply Hids; left; by apply Hka).
      all: try (intros k Hk; apply Hids; apply mapSet_keys in Hk as [->|Hk];
                [by right|left; by apply Hku]).
      all: try (rewrite concat_app, map_app, <- Hch; cbn [concat map];
                by rewrite ?app_nil_r, <- ?app_assoc).
      all: try (rewrite map_app, <- Hch; cbn [map]; by rewrite app_assoc).
      all: try (apply Forall_app_2; [done|]; constructor; [|done];
                by destruct (p_need pg)).
      all: try (rewrite length_app, Hn; cbn [length]; lia).
      all: try (apply Z.ltb_ge in Hbig; lia).
      all: try (unfold retrieveChunkSize; lia).
  - (* the digest holds the id without a hash *)
    exfalso. by apply (Hdef (i_id d)).
  - (* the digest does not hold the id: an addition *)
    assert (Hdiff : differs digest0 d = true).
    { unfold differs. rewrite Hget. by rewrite bool_decide_eq_false_2. }
    rewrite Hdiff in Hfilter.
    assert (Hfresh : i_id d ∉ (added (l_changes st)).*1).
    { intros Hin. by apply Hnew, Hka. }
    assert (Hfresh' : i_id d ∉ (updated (l_changes st)).*1).
    { intros Hin. by apply Hnew, Hku. }
    destruct (Hset (mapSet (i_id d) (i_hash d) (added (l_changes st)))
                (updated (l_changes st)))
      as [Hs1 Hs2].
    { intros k. rewrite (mapSet_fresh _ _ _ Hfresh), setEntries_snoc.
      destruct (decide (k = i_id d)) as [->|Hk].
      - rewrite setEntries_lookup_fresh by done. apply lookup_insert_eq.
      - apply setEntries_lookup_congr. by rewrite lookup_insert_ne. }
    cbv beta iota; cbn [p_size p_need];
      destruct (retrieveChunkSize <? p_size pg + i_size d) eqn:Hbig;
      cbn [fst snd l_digest l_changes l_changed l_chunks added updated
           removed p_need p_size]; rewrite Hfilter.
    all: split_and!; try done.
    all: try (apply Hdig'; by left).
    all: try (intros k Hk; apply Hids; left; by apply Hku).
    all: try (intros k Hk; apply Hids; apply mapSet_keys in Hk as [->|Hk];
              [by right|left; by apply Hka]).
    all: try (rewrite concat_app, map_app, <- Hch; cbn [concat map];
              by rewrite ?app_nil_r, <- ?app_assoc).
    all: try (rewrite map_app, <- Hch; cbn [map]; by rewrite app_assoc).
    all: try (apply Forall_app_2; [done|]; constructor; [|done];
              by destruct (p_need pg)).
    all: try (rewrite length_app, Hn; cbn [length]; lia).
    all: try (apply Z.ltb_ge in Hbig; lia).
    all: try (unfold retrieveChunkSize; lia).
Qed.

Lemma loadDocs_inv (digest0 : gmap Ref (option string)) (docs : list DocInfo) :
  (forall k, digest0 !! k <> Some None) ->
  forall (seen : list DocInfo) (st : Loading) (pg : Pending),
    NoDup (map i_id (seen ++ docs)) ->
    loadInv digest0 seen st pg ->
    loadInv digest0 (seen ++ docs) (fst (fold_left loadDoc docs (st, pg)))
      (snd (fold_left loadDoc docs (st, pg))).
Proof.
  intros Hdef. induction docs as [|d docs IH]; intros seen st pg Hnd Hinv.
  - by rewrite app_nil_r.
  - cbn [fold_left]. replace (seen ++ d :: docs) with ((seen ++ [d]) ++ docs)
      in * by (by rewrite <- app_assoc).
    destruct (loadDoc (st, pg) d) as [st1 pg1] eqn:Hstep.
    apply IH; [done|].
    pose proof (loadDoc_inv digest0 seen st pg d Hdef) as Hone.
    rewrite Hstep in Hone. apply Hone; [|done].
    rewrite !map_app in Hnd. apply NoDup_app in Hnd as [Hnd _].
    apply NoDup_app in Hnd as (_ & Hdisj & _).
    intros Hin. apply (Hdisj _ Hin). cbn [map]. by left.
Qed.

Lemma loadPage_inv (digest0 : gmap Ref (option string)) (docs : list DocInfo)
    (seen : list DocInfo) (st : Loading) :
  (forall k, digest0 !! k <> Some None) ->
  NoDup (map i_id (seen ++ docs)) ->
  loadInv digest0 seen st (mkPending [] 0) ->
  loadInv digest0 (seen ++ docs) (loadPage st docs) (mkPending [] 0).
Proof.
  intros Hdef Hnd Hinv. unfold loadPage.
  pose proof (loadDocs_inv digest0 docs Hdef seen st (mkPending [] 0) Hnd Hinv)
    as Hall.
  destruct (fold_left loadDoc docs (st, mkPending [] 0)) as [st1 pg].
  cbn [fst snd] in Hall.
  destruct Hall as (Hdig & Hka & Hku & Hseen & Hrest & Hrm & Hch & Hne & Hn & Hsz).
  destruct (p_need pg) as [|x need] eqn:Hneed.
  - unfold loadInv. rewrite app_nil_r in *. split_and!; done.
  - unfold loadInv. cbn [l_digest l_changes l_changed l_chunks p_need p_size].
    split_and!; try done.
    + rewrite concat_app, app_nil_r, <- Hch. cbn [concat].
      by rewrite app_nil_r.
    + apply Forall_app_2; [done|]. by constructor.
Qed.

Lemma loadChangesFromServer_inv (digest0 : gmap Ref (option string))
    (answers : list (Outcome Chunk)) :
  (forall k, digest0 !! k <> Some None) ->
  forall (seen : list DocInfo) (st st' : Loading),
    NoDup (map i_id (seen ++ delivered answers)) ->
    loadInv digest0 seen st (mkPending [] 0) ->
    loadChangesFromServer answers st = Some st' ->
    loadInv digest0 (seen ++ delivered answers) st' (mkPending [] 0).
Proof.
  intros Hdef. induction answers as [|[c|e] rest IH];
    intros seen st st' Hnd Hinv Hrun; [done|..]; cbn in Hrun, Hnd |- *.
  - destruct (c_finished c).
    + inversion Hrun; subst. rewrite app_nil_r in *.
      by apply loadPage_inv.
    + rewrite app_assoc in *. apply (IH _ (loadPage st (c_docs c))); [done| |done].
      apply loadPage_inv; [done| |done].
      rewrite map_app in Hnd. by apply NoDup_app in Hnd as [Hnd _].
  - by apply (IH _ st).
Qed.

Lemma loadInv_start (digest0 : gmap Ref (option string)) :
  loadInv digest0 [] (mkLoading digest0 (mkSnapshot [] [] []) 0 [])
    (mkPending [] 0).
Proof.
  unfold loadInv. cbn. split_and!; try done.
  all: intros k Hk; by apply elem_of_nil in Hk.
Qed.

(** An incremental backup computes the right change set: when the server
    hands out every document once, the added and updated entries that
    [loadChangesFromServer] collects, with the ids it leaves in the digest
    as the removed ones, turn the digest of the earlier snapshots into the
    id-to-hash map of the server. *)
Theorem loadChangesFromServer_diff (digest0 : gmap Ref (option string))
    (answers : list (Outcome Chunk)) (st : Loading) :
  (forall k, digest0 !! k <> Some None) ->
  NoDup (map i_id (delivered answers)) ->
  loadChangesFromServer answers (mkLoading digest0 (mkSnapshot [] [] []) 0 [])
  = Some st ->
  applyChanges
    (mkSnapshot (added (l_changes st)) (updated (l_changes st))
       (leftOver (l_digest st)))
    digest0
  = list_to_map
      (map (fun d => (i_id d, Some (i_hash d))) (delivered answers)).
Proof.
  intros Hdef Hnd Hrun.
  destruct (loadChangesFromServer_inv digest0 answers Hdef [] _ st Hnd
              (loadInv_start digest0) Hrun)
    as (Hdig & _ & _ & Hseen & Hrest & _).
  cbn [app] in *. apply map_eq. intros k.
  assert (Hkeys : (map (fun d => (i_id d, Some (i_hash d)))
                     (delivered answers)).*1
                  = map i_id (delivered answers)).
  { generalize (delivered answers). intros l.
    induction l as [|d l IH]; [done|]. cbn. by f_equal. }
  unfold applyChanges, leftOver. cbn [added updated removed].
  rewrite deleteAll_lookup.
  destruct (decide (k ∈ map i_id (delivered answers))) as [Hin|Hout].
  - apply list_elem_of_fmap in Hin as (d & -> & Hd).
    rewrite decide_False.
    + rewrite (Hseen d Hd). symmetry. apply elem_of_list_to_map_1.
      * by rewrite Hkeys.
      * apply list_elem_of_fmap. by exists d.
    + rewrite elem_of_elements, elem_of_dom, Hdig.
      rewrite decide_True; [by intros [? ?]|].
      apply list_elem_of_fmap. by exists d.
  - rewrite (not_elem_of_list_to_map_1 _ k).
    2:{ by rewrite Hkeys. }
    destruct (decide (k ∈ elements (dom (l_digest st)))) as [|Hnot]; [done|].
    rewrite (Hrest k Hout).
    rewrite elem_of_elements, elem_of_dom, Hdig in Hnot.
    rewrite decide_False in Hnot by done.
    by apply eq_None_not_Some.
Qed.

(** The ids to retrieve are, in the order of the chunks, the ids of the
    documents that the digest does not hold with their hash; no group of
    ids is empty, and [changed] counts them. *)
Theorem loadChangesFromServer_chunks (digest0 : gmap Ref (option string))
    (answers : list (Outcome Chunk)) (st : Loading) :
  (forall k, digest0 !! k <> Some None) ->
  NoDup (map i_id (delivered answers)) ->
  loadChangesFromServer answers (mkLoading digest0 (mkSnapshot [] [] []) 0 [])
  = Some st ->
  concat (l_chunks st)
  = map i_id (List.filter (differs digest0) (delivered answers))
  /\ Forall (fun c => c <> []) (l_chunks st)
  /\ l_changed st = length (concat (l_chunks st)).
Proof.
  intros Hdef Hnd Hrun.
  destruct (loadChangesFromServer_inv digest0 answers Hdef [] _ st Hnd
              (loadInv_start digest0) Hrun)
    as (_ & _ & _ & _ & _ & _ & Hch & Hne & Hn & _).
  cbn [app p_need] in *. rewrite app_nil_r in Hch.
  split_and!; [done|done|]. by rewrite Hch, length_map.
Qed.

End BackupDiffProps.

(** ** Backup engine: restore *)

Section RestoreProps.
Context {BS : BackupStorage} {SC : SnapshotCodec}.
Import Backup Digest.


Lemma findIndexFrom_range {A : Type} (p : A -> bool) (l : list A) (i : Z) :
  0 <= i -> findIndexFrom i p l = -1 \/ i <= findIndexFrom i p l.
Proof.
  revert i. induction l as [|x l IH]; intros i Hi; [by left|].
  cbn [findIndexFrom]. destruct (p x); [right; lia|].
  destruct (IH (i + 1)) as [?|?]; [lia|by left|right; lia].
Qed.



Lemma docsToRemove_spec (changeset : gmap Ref (option string))
    (server : gmap Ref string) (k : Ref) :
  k ∈ docsToRemove changeset server
  <-> is_Some (server !! k) /\ changeset !! k = None.
Proof.
  unfold docsToRemove. split.
  - intros Hin. apply list_elem_of_In, List.filter_In in Hin as [Hin Hc].
    apply bool_decide_eq_true in Hc. split; [|done].
    apply list_elem_of_In, list_elem_of_fmap in Hin as ([k' v] & -> & Hin).
    apply elem_of_map_to_list in Hin. by exists v.
  - intros [[v Hv] Hc]. apply list_elem_of_In, List.filter_In.
    split; [|by apply bool_decide_eq_true].
    apply list_elem_of_In, list_elem_of_fmap. exists (k, v). split; [done|].
    by apply elem_of_map_to_list.
Qed.

(** What [restore] uploads and cleans is the difference between the
    server and the change set: afterwards the server holds exactly the
    documents of the change set, with its hashes; with [merge] the
    documents that the change set does not have stay, and the others
    are as in the change set. *)
Theorem restore_reaches_changeset (changeset : gmap Ref (option string))
    (server : gmap Ref string) :
  restored false changeset server = changeset
  /\ (forall k, is_Some (changeset !! k) ->
        restored true changeset server !! k = changeset !! k)
  /\ (forall k, changeset !! k = None ->
        restored true changeset server !! k = Some <$> server !! k).
Proof.
  assert (Hadd : forall k,
            docsToAdd changeset server !! k
            = match changeset !! k with
              | Some v =>
                  if decide (Some <$> server !! k = Some v) then None
                  else Some v
              | None => None
              end).
  { intros k. unfold docsToAdd.
    destruct (changeset !! k) as [v|] eqn:Hc.
    - destruct (decide (Some <$> server !! k = Some v)) as [Heq|Hne].
      + apply map_lookup_filter_None. right. intros v' Hv'. cbn.
        rewrite Hc in Hv'. inversion Hv'; subst v'.
        intros [Hnone|Hdiff]; [|done]. by rewrite Hnone in Heq.
      + apply map_lookup_filter_Some. split; [done|]. cbn. by right.
    - apply map_lookup_filter_None. by left. }
  split_and!.
  - apply map_eq. intros k. unfold restored.
    rewrite lookup_union, Hadd, lookup_fmap, deleteAll_lookup.
    destruct (changeset !! k) as [v|] eqn:Hc.
    + destruct (decide (k ∈ docsToRemove changeset server)) as [Hin|_].
      { apply docsToRemove_spec in Hin as [_ Hnone]. congruence. }
      destruct (decide (Some <$> server !! k = Some v)) as [Heq|Hne].
      * destruct (server !! k) as [h|]; [|done]. cbn in *. congruence.
      * by destruct (server !! k).
    + destruct (decide (k ∈ docsToRemove changeset server)) as [|Hout];
        [done|].
      rewrite docsToRemove_spec in Hout.
      destruct (server !! k) as [h|] eqn:Hs; [|done].
      exfalso. apply Hout. split; [by exists h|done].
  - intros k [v Hc]. unfold restored. rewrite lookup_union, Hadd, lookup_fmap, Hc.
    destruct (decide (Some <$> server !! k = Some v)) as [Heq|Hne].
    + destruct (server !! k) as [h|]; [|done]. cbn in *. congruence.
    + by destruct (server !! k).
  - intros k Hc. unfold restored. rewrite lookup_union, Hadd, lookup_fmap, Hc.
    by destruct (server !! k).
Qed.

End RestoreProps.

Section RetryProps.
Context {W : Type} (processDomain : W -> Outcome unit * W).
Import Backup.



End RetryProps.

Section CleanProps.
Context {W : Type} (clean : list Ref -> W -> Outcome unit * W).
Import Backup.

(** The ids are cleaned in parts of [n], in order and each id once: every
    part but the last holds [n] ids, the last holds what is left, and a
    part that fails to clean ends the loop. *)
Lemma cleanLoop_parts (n : nat) (Hn : (0 < n)%nat) (fuel : nat) :
  forall (ids : list Ref),
    (length ids < fuel)%nat ->
    exists parts,
      concat parts = ids
      /\ Forall (fun p => p <> [] /\ (length p <= n)%nat) parts
      /\ (forall i p, parts !! i = Some p -> (S i < length parts)%nat ->
            length p = n)
      /\ forall w, cleanLoop clean fuel n ids w
                   = Some (cleanEach clean parts w).
Proof.
  induction fuel as [|fuel IH]; intros ids Hfuel; [lia|].
  cbn [cleanLoop]. destruct ids as [|x ids].
  - exists []. split_and!; try done.
  - set (l := x :: ids) in *.
    assert (Hdrop : (length (drop n l) < fuel)%nat).
    { rewrite length_drop. subst l. cbn [length] in *. lia. }
    destruct (IH (drop n l) Hdrop) as (parts & Hcat & Hall & Hfull & Hrun).
    exists (take n l :: parts). split_and!.
    + cbn [concat]. by rewrite Hcat, take_drop.
    + constructor; [|done]. split.
      * subst l. destruct n; [lia|]. done.
      * rewrite length_take. lia.
    + intros [|i] p Hp Hlen; cbn in Hp, Hlen.
      * inversion Hp; subst p. rewrite length_take.
        destruct parts as [|q parts]; [cbn in Hlen; lia|].
        inversion Hall as [|? ? [Hq _] _]; subst.
        assert (drop n l <> []) as Hd.
        { intros Hnil. rewrite Hnil in Hcat. destruct q; [done|].
          cbn in Hcat. discriminate. }
        destruct (decide (n <= length l)%nat); [lia|].
        exfalso. apply Hd. apply drop_ge. lia.
      * apply (Hfull i p Hp). lia.
    + intros w. cbn [cleanEach].
      destruct (clean (take n l) w) as [[u|e] w1]; [apply Hrun|done].
Qed.

(** [cleanDomain] cleans every id that [loadChunk] handed out, in parts of
    5000: all parts but the last are full, and the loop ends with the ids
    (here, with [length ids + 1] turns at most), unless a [clean]
    throws. *)
Theorem cleanDomain_parts (answers : list (Outcome Chunk)) (ids : list Ref)
    (fuel : nat) :
  collectIds answers [] = Some ids ->
  (length ids < fuel)%nat ->
  ids = map i_id (delivered answers)
  /\ exists parts,
       concat parts = ids
       /\ Forall (fun p => p <> [] /\ (length p <= 5000)%nat) parts
       /\ (forall i p, parts !! i = Some p -> (S i < length parts)%nat ->
             length p = 5000%nat)
       /\ forall w, cleanDomain clean fuel answers w
                    = Some (cleanEach clean parts w).
Proof.
  intros Hids Hfuel. split.
  - assert (Hgen : forall acc out,
              collectIds answers acc = Some out ->
              out = acc ++ map i_id (delivered answers)).
    { clear. induction answers as [|[c|e] rest IH]; intros acc out Hrun;
        [done|..]; cbn in Hrun |- *.
      - destruct (c_finished c).
        + inversion Hrun. by rewrite app_nil_r.
        + rewrite (IH _ _ Hrun), map_app. by rewrite app_assoc.
      - by apply IH. }
    by rewrite (Hgen [] ids Hids).
  - destruct (cleanLoop_parts 5000 ltac:(lia) fuel ids Hfuel)
      as (parts & Hcat & Hall & Hfull & Hrun).
    exists parts. split_and!; try done.
    intros w. unfold cleanDomain. rewrite Hids. apply Hrun.
Qed.

End CleanProps.

(** ** More of the ledger *)

Section LedgerMore.
Context {HS : Hashing}.
Import Ledger Engine.

Lemma addModelTxs_construct (m txs : list Tx) :
  m <> [] ->
  addModelTxs txs (construct m) = (Ret tt, construct (m ++ txs)).
Proof.
  revert m. induction txs as [|tx rest IH]; intros m Hm.
  - by rewrite app_nil_r.
  - cbn [addModelTxs].
    destruct (setModel_nonempty m Hm) as [prev Hprev].
    unfold addModelTx at 1, lastHash. cbn [hashes model construct].
    rewrite Hprev. rewrite <- (setModel_snoc _ _ _ Hprev).
    change (mkModel (m ++ [tx]) (setModel (m ++ [tx])))
      with (construct (m ++ [tx])).
    rewrite IH by (by destruct m). by rewrite <- app_assoc.
Qed.

(** Kept incrementally or built at once, the ledger is the same: on a
    ledger constructed from a model list that is not empty, a run of
    [addModelTx] calls never throws and leaves the log and the chain that
    the constructor computes for the grown list. *)
Theorem addModelTxs_as_constructed (m txs : list Tx) :
  m <> [] ->
  addModelTxs txs (construct m) = (Ret tt, construct (m ++ txs))
  /\ exists more,
       setModel (m ++ txs) = setModel m ++ more /\ length more = length txs.
Proof.
  intros Hm. split; [by apply addModelTxs_construct|].
  unfold setModel. rewrite hashChain_app. eexists. split; [done|].
  apply hashChain_length.
Qed.

(** A client that holds the head hash is brought up to date with exactly
    what was added since: after model transactions are appended to a
    ledger, [loadModel] with the head hash of before answers [full: false]
    with the appended transactions, in order, and the new head hash (the
    chain holding no hash twice). *)
Theorem loadModel_catches_up (m txs : list Tx) (h : string) (ts : Timestamp) :
  last (setModel m) = Some h ->
  NoDup (setModel (m ++ txs)) ->
  loadModel (snd (addModelTxs txs (construct m))) ts (Some h)
  = Response (mkResponse false (last (setModel (m ++ txs))) txs).
Proof.
  intros Hh Hnd.
  assert (Hm : m <> []) by (by destruct m).
  rewrite (addModelTxs_construct m txs Hm). cbn [snd].
  unfold loadModel, indexOf, construct. cbn [hashes model].
  assert (Hpos : setModel (m ++ txs) !! Nat.pred (length m) = Some h).
  { unfold setModel in *. rewrite hashChain_app, lookup_app_l.
    - rewrite last_lookup, hashChain_length in Hh. done.
    - rewrite hashChain_length. destruct m; [done|]. cbn. lia. }
  rewrite (indexOfFrom_first h _ 0 (Nat.pred (length m)) Hpos).
  2:{ intros q Hq Hqh. pose proof (NoDup_lookup _ _ _ _ Hnd Hpos Hqh). lia. }
  rewrite (proj2 (Z.leb_le 0 _)) by lia.
  unfold slice, lastHash. do 3 f_equal.
  replace (Z.to_nat (0 + Z.of_nat (Nat.pred (length m)) + 1)) with (length m)
    by (destruct m; [done|]; cbn [length]; lia).
  by rewrite drop_app_length.
Qed.

End LedgerMore.

(** ** More of the router *)

Section RouterMore.
Context {H : Hierarchy} {DB : Type} {SV : Server DB}.
Import Router.

Lemma processPart_applied (part : list Tx) (d : Domain)
    (result : list TxResult) (st : St DB) :
  served d -> part <> [] ->
  exists r st',
    processPart part (Some d) result st = (Ret (result ++ r), st')
    /\ calls st' = calls st ++ [(d, part)]
    /\ live st' = live st ++ part
    /\ db st' = applied [(d, part)] (db st).
Proof.
  intros [adapter Had] Hpart.
  unfold processPart, applied, getAdapter, domainKey.
  destruct part as [|t part']; [done|]. simpl default. cbn [fold_left fst snd].
  rewrite Had.
  set (st1 := match toDelete (t :: part') with
              | [] => st
              | _ :: _ => recordRemoved _ st
              end).
  assert (Hfr : db st1 = db st /\ calls st1 = calls st /\ live st1 = live st).
  { unfold st1. destruct (toDelete (t :: part')); [done|].
    destruct (recordRemoved_frame
                (a_load adapter (db st) d (s :: l)) st) as (? & ? & ? & _).
    done. }
  destruct Hfr as (Hd & Hc & Hl). rewrite Hd.
  destruct (a_tx adapter (db st) (t :: part')) as [db' r] eqn:Etx.
  exists r. eexists. split; [reflexivity|]. simpl. by rewrite Hc, Hl.
Qed.

(** The loop of [routeTx] from any of its intermediate states, when a
    transaction still to be routed is bound for a domain without
    adapter. *)
Lemma routeLoop_missing (txes : list Tx) :
  forall (part : list Tx) (ld : option Domain) (result : list TxResult)
         (st : St DB),
    (part <> [] ->
     exists d, ld = Some d /\ Forall (fun t => txDomain t = d) part) ->
    (exists t, t ∈ part ++ supported txes /\ ~ served (txDomain t)) ->
    exists d runs t rest st',
      ~ served d
      /\ routeLoop txes part ld result st
         = (Threw ("adapter not provided: "
                   +:+ default defaultAdapter (_domains !! d)), st')
      /\ part ++ supported txes = concat (map snd runs) ++ t :: rest
      /\ txDomain t = d
      /\ Forall (fun r => served (fst r)) runs
      /\ Forall goodRun runs
      /\ calls st' = calls st ++ runs
      /\ live st' = live st ++ concat (map snd runs)
      /\ db st' = applied runs (db st).
Proof.
  assert (Hflush : forall (t0 : Tx) (part' : list Tx) (d : Domain)
                     (result : list TxResult) (st : St DB),
            Forall (fun t => txDomain t = d) (t0 :: part') ->
            ~ served d ->
            processPart (t0 :: part') (Some d) result st
            = (Threw ("adapter not provided: "
                      +:+ default defaultAdapter (_domains !! d)), st)).
  { intros t0 part' d result st Hdom Hd.
    unfold processPart, getAdapter, domainKey. simpl default.
    destruct (adapters !! default defaultAdapter (_domains !! d)) as [a|] eqn:Ha;
      [|done].
    exfalso. apply Hd. by exists a. }
  induction txes as [|tx rest IH]; intros part ld result st Hpart Hbad.
  - (* the closing processPart *)
    cbn [routeLoop]. destruct Hbad as (t & Ht & Hbad).
    unfold supported in Ht. cbn in Ht. rewrite app_nil_r in Ht.
    destruct part as [|t0 part']; [by apply elem_of_nil in Ht|].
    destruct Hpart as (d & -> & Hdom); [done|].
    assert (Hd : ~ served d).
    { rewrite Forall_forall in Hdom. by rewrite <- (Hdom t Ht). }
    exists d, [], t0, part', st.
    rewrite (Hflush t0 part' d result st Hdom Hd).
    unfold supported. cbn. rewrite !app_nil_r.
    split_and!; try done.
    by inversion Hdom.
  - cbn [routeLoop]. destruct (txObj (extractTx tx)) as [o|] eqn:Eo.
    + destruct (supported_cons_keep tx rest o Eo) as [Hs _].
      assert (Hdm : txDomain (extractTx tx) = getDomain (objectClass o))
        by (unfold txDomain; by rewrite Eo).
      destruct part as [|t0 part'].
      * (* a first run begins *)
        destruct (IH [extractTx tx] (Some (getDomain (objectClass o))) result st)
          as (d & runs & t & rest' & st' & Hd & Hrun & Hcat & Ht & Hsv & Hgood
              & Hc & Hl & Hdb).
        { intros _. eexists. split; [done|]. by constructor. }
        { destruct Hbad as (t & Ht & Hb). exists t. split; [|done].
          rewrite Hs in Ht. done. }
        exists d, runs, t, rest', st'. rewrite Hs.
        split_and!; done.
      * destruct Hpart as (d0 & -> & Hdom); [done|].
        destruct (decide (Some d0 = Some (getDomain (objectClass o))))
          as [Heq|Hne].
        -- (* the run goes on *)
           inversion Heq as [Heq']. subst d0. clear Heq.
           destruct (IH ((t0 :: part') ++ [extractTx tx])
                       (Some (getDomain (objectClass o))) result st)
             as (d & runs & t & rest' & st' & Hd & Hrun & Hcat & Ht & Hsv
                 & Hgood & Hc & Hl & Hdb).
           { intros _. eexists. split; [done|]. apply Forall_app. split;
               [done|]. by constructor. }
           { destruct Hbad as (t & Ht & Hb). exists t. split; [|done].
             rewrite Hs in Ht. by rewrite <- app_assoc. }
           exists d, runs, t, rest', st'. rewrite Hs.
           split_and!; try done.
           by rewrite <- Hcat, <- app_assoc.
        -- (* the domain changes: the run is flushed *)
           unfold bind.
           destruct (decide (served d0)) as [Hsd|Hnd].
           ++ destruct (processPart_applied (t0 :: part') d0 result st Hsd)
                as (r & st1 & Hpp & Hc1 & Hl1 & Hdb1); [done|].
              rewrite Hpp.
              destruct (IH [extractTx tx] (Some (getDomain (objectClass o)))
                          (result ++ r) st1)
                as (d & runs & t & rest' & st' & Hd & Hrun & Hcat & Ht & Hsv
                    & Hgood & Hc & Hl & Hdb).
              { intros _. eexists. split; [done|]. by constructor. }
              { destruct Hbad as (t & Ht & Hb). exists t. split; [|done].
                rewrite Hs in Ht. apply elem_of_app in Ht as [Ht|Ht]; [|done].
                exfalso. apply Hb. rewrite Forall_forall in Hdom.
                by rewrite (Hdom t Ht). }
              exists d, ((d0, t0 :: part') :: runs), t, rest', st'.
              rewrite Hs. split_and!; try done.
              ** cbn [map concat snd]. rewrite <- app_assoc.
                 f_equal. exact Hcat.
              ** by constructor.
              ** constructor; [|done]. split; done.
              ** rewrite Hc, Hc1. by rewrite <- app_assoc.
              ** rewrite Hl, Hl1. cbn [map concat snd].
                 by rewrite <- !app_assoc.
              ** rewrite Hdb, Hdb1. reflexivity.
           ++ rewrite (Hflush t0 part' d0 result st Hdom Hnd).
              exists d0, [], t0, (part' ++ supported (tx :: rest)), st.
              rewrite !app_nil_r. split_and!; try done.
              by inversion Hdom.
    + (* an unsupported transaction: reported and skipped *)
      destruct (supported_cons_skip tx rest Eo) as [Hs _].
      destruct (IH part ld result (logError tx st))
        as (d & runs & t & rest' & st' & Hd & Hrun & Hcat & Ht & Hsv & Hgood
            & Hc & Hl & Hdb).
      { done. }
      { by rewrite <- Hs. }
      exists d, runs, t, rest', st'. rewrite Hs. split_and!; done.
Qed.

(** [routeTx] rejects when it comes to flush the first run bound for a
    domain without adapter: when one transaction of the batch (of a class
    derived from [TxCUD]) goes to such a domain, the call throws ["adapter
    not provided"] for the domain of the first such transaction.  Nothing
    is rolled back: the runs before that transaction, all of served
    domains, have been handed to their adapters and fed to the live
    query, and the database is left as these adapter calls made it;
    nothing from that transaction on reaches an adapter. *)
Theorem routeTx_adapter_missing (txes : list Tx) (st : St DB) :
  (exists t, t ∈ supported txes /\ ~ served (txDomain t)) ->
  exists d runs t rest st',
    ~ served d
    /\ routeTx txes st
       = (Threw ("adapter not provided: "
                 +:+ default defaultAdapter (_domains !! d)), st')
    /\ supported txes = concat (map snd runs) ++ t :: rest
    /\ txDomain t = d
    /\ Forall (fun r => served (fst r)) runs
    /\ Forall goodRun runs
    /\ calls st' = calls st ++ runs
    /\ live st' = live st ++ concat (map snd runs)
    /\ db st' = applied runs (db st).
Proof.
  intros Hbad. apply (routeLoop_missing txes [] None [] st); done.
Qed.

End RouterMore.

(** ** More of the derivation engine *)

Section DerivationMore.
Context {H : Hierarchy} {DB : Type} {SV : Server DB}.
Import Derivation Engine.

(** The counter of a collection follows its creations and removals: for a
    [TxCollectionCUD] around a [TxCreateDoc] or a [TxRemoveDoc], anywhere
    in a batch, with the class outside the model domain,
    [processCollection] emits, between what the transactions before it and
    those after it yield, one [$inc] by [+1] or by [-1] on the parent when
    the parent is found and is not in [removedMap], and nothing otherwise;
    for a class of the model domain it emits nothing, whatever is
    wrapped. *)
Theorem processCollection_counts (findAll : FindAll) (rm : gmap Ref Doc)
    (pre post : list Tx) (h : TxHead) (o : TxObj) (coll : string)
    (inner : Tx) :
  let tx := TxCollectionCUD h o coll inner in
  let around (mine : list Tx) :=
    processCollection (pre ++ tx :: post) findAll rm
    = processCollection pre findAll rm ++ mine
      ++ processCollection post findAll rm in
  (getDomain (objectClass o) = DOMAIN_MODEL -> around [])
  /\ (getDomain (objectClass o) <> DOMAIN_MODEL ->
      isTxCreateDoc inner || isTxRemoveDoc inner = true ->
      match rm !! objectId o,
            findOne findAll (objectClass o) (QId (objectId o)) with
      | None, Some parent =>
          exists t,
            around [t]
            /\ counterTx h (objectId o) (objectClass o) parent coll
                 (if isTxCreateDoc inner then 1 else -1) t
      | _, _ => around []
      end).
Proof.
  intros tx around. unfold around. rewrite processCollection_app.
  unfold tx. cbn [processCollectionTx].
  split.
  - intros Hm. by rewrite decide_True.
  - intros Hm Hcd. rewrite decide_False by done.
    assert (Hup : isTxUpdateDoc inner = false).
    { destruct inner; try done. }
    rewrite Hup, Hcd. cbn [app andb].
    destruct (rm !! objectId o) as [gone|] eqn:Hrm.
    + rewrite bool_decide_eq_true_2 by (by exists gone). done.
    + rewrite bool_decide_eq_false_2 by (by intros [? ?]). cbn [negb].
      destruct (findOne findAll (objectClass o) (QId (objectId o)))
        as [parent|]; [|done].
      eexists. split; [reflexivity|].
      apply getCollectionUpdateTx_counterTx.
Qed.




Lemma forEach_recorded {A B S : Type} (P : B -> S -> Prop)
    (f : A -> S -> list B * S) (l : list A) :
  (forall a s, Forall (fun b => P b (snd (f a s))) (fst (f a s))) ->
  (forall a s b, P b s -> P b (snd (f a s))) ->
  forall s, Forall (fun b => P b (snd (forEach f l s))) (fst (forEach f l s)).
Proof.
  intros Hout Hmono. induction l as [|a rest IH]; intros s; cbn [forEach].
  - constructor.
  - specialize (Hout a s). destruct (f a s) as [oa sa]. cbn [fst snd] in Hout.
    specialize (IH sa).
    pose proof (fun b => forEach_keeps (P b) f rest (fun a s => Hmono a s b) sa)
      as Hkeep.
    destruct (forEach f rest sa) as [o1 s1]. cbn [fst snd] in *.
    apply Forall_app_2; [|done].
    eapply Forall_impl; [exact Hout|]. intros b Hb. by apply Hkeep.
Qed.

Lemma deleteObject_records (d : Doc) (st : St DB) :
  Forall (fun t => exists o, txObj (extractTx t) = Some o
                             /\ keepsRemoved (objectId o)
                                  (snd (deleteObject d st)))
    (fst (deleteObject d st)).
Proof.
  unfold deleteObject, readClock, keepsRemoved.
  destruct (isDerived (_class d) class_AttachedDoc); cbn.
  all: constructor; [|constructor].
  all: eexists; split; [reflexivity|]; cbn.
  all: rewrite lookup_insert_eq; by eexists.
Qed.

Lemma deleteObjects_records (docs : list Doc) (st : St DB) :
  Forall (fun t => exists o, txObj (extractTx t) = Some o
                             /\ keepsRemoved (objectId o)
                                  (snd (forEach deleteObject docs st)))
    (fst (forEach deleteObject docs st)).
Proof.
  apply (forEach_recorded
           (fun t s => exists o, txObj (extractTx t) = Some o
                                 /\ keepsRemoved (objectId o) s)).
  - apply deleteObject_records.
  - intros d s t (o & Ho & Hk). exists o. split; [done|].
    by apply deleteObject_keeps.
Qed.

Lemma deleteClassCollections_records (findAll : FindAll) (cls id : Ref)
    (to : option Ref) (st : St DB) :
  Forall (fun t => exists o, txObj (extractTx t) = Some o
                             /\ keepsRemoved (objectId o)
                                  (snd (deleteClassCollections findAll cls id
                                          to st)))
    (fst (deleteClassCollections findAll cls id to st)).
Proof.
  unfold deleteClassCollections.
  apply (forEach_recorded
           (fun t s => exists o, txObj (extractTx t) = Some o
                                 /\ keepsRemoved (objectId o) s)).
  - intros a s. unfold deleteCollection.
    destruct (isDerived (attr_type (snd a)) class_Collection); [|constructor].
    apply deleteObjects_records.
  - intros a s t (o & Ho & Hk). exists o. split; [done|].
    unfold deleteCollection.
    destruct (isDerived (attr_type (snd a)) class_Collection); [|done].
    revert Hk. apply forEach_keeps. intros d s'. apply deleteObject_keeps.
Qed.

Lemma processRemoveTx_records (findAll : FindAll) (tx : Tx) (st : St DB) :
  Forall (fun t => exists o, txObj (extractTx t) = Some o
                             /\ keepsRemoved (objectId o)
                                  (snd (processRemoveTx findAll tx st)))
    (fst (processRemoveTx findAll tx st)).
Proof.
  unfold processRemoveTx.
  destruct (extractTx tx); try constructor.
  destruct (removedMap st !! objectId o) as [object|]; [|constructor].
  pose proof (deleteClassCollections_records findAll (_class object)
                (objectId o) None st) as H1.
  destruct (deleteClassCollections findAll (_class object) (objectId o) None st)
    as [r1 st1].
  pose proof (forEach_recorded
                (fun t s => exists o, txObj (extractTx t) = Some o
                                      /\ keepsRemoved (objectId o) s)
                (fun mixin =>
                   deleteClassCollections findAll mixin (objectId o)
                     (Some (_class object)))
                (getMixins (_class object) object)
                (fun m s => deleteClassCollections_records findAll m
                              (objectId o) (Some (_class object)) s)
                (fun m s t '(ex_intro _ o' (conj Ho Hk)) =>
                   ex_intro _ o'
                     (conj Ho (deleteClassCollections_keeps findAll m
                                 (objectId o) (objectId o')
                                 (Some (_class object)) s Hk)))
                st1) as H2.
  pose proof (fun k => forEach_keeps (keepsRemoved k)
                (fun mixin =>
                   deleteClassCollections findAll mixin (objectId o)
                     (Some (_class object)))
                (getMixins (_class object) object)
                (fun m s => deleteClassCollections_keeps findAll m
                              (objectId o) k (Some (_class object)) s)
                st1) as K2.
  destruct (forEach _ (getMixins (_class object) object) st1) as [r2 st2].
  assert (H3 : Forall (fun t => exists o, txObj (extractTx t) = Some o
                         /\ keepsRemoved (objectId o)
                              (snd (deleteRelatedDocuments findAll object st2)))
                 (fst (deleteRelatedDocuments findAll object st2))).
  { unfold deleteRelatedDocuments.
    destruct (collectDocs (_class object)); [|constructor].
    apply deleteObjects_records. }
  pose proof (fun k => deleteRelatedDocuments_keeps findAll object k st2) as K3.
  destruct (deleteRelatedDocuments findAll object st2) as [r3 st3].
  cbn [fst snd] in *.
  repeat apply Forall_app_2; [| |done].
  - eapply Forall_impl; [exact H1|]. intros t (o' & Ho & Hk).
    exists o'. split; [done|]. by apply K3, K2.
  - eapply Forall_impl; [exact H2|]. intros t (o' & Ho & Hk).
    exists o'. split; [done|]. by apply K3.
Qed.

(** The removes a pass derives are recorded: after [processRemove], the
    object of every transaction it returns is in [removedMap] (where the
    next pass, which gets these transactions as its batch, looks it up),
    and no entry that was in the map has left it. *)
Theorem processRemove_records (findAll : FindAll) (txes : list Tx)
    (st : St DB) :
  Forall (fun t => exists o, txObj (extractTx t) = Some o
                             /\ keepsRemoved (objectId o)
                                  (snd (processRemove txes findAll st)))
    (fst (processRemove txes findAll st))
  /\ (forall k, keepsRemoved k st ->
        keepsRemoved k (snd (processRemove txes findAll st))).
Proof.
  unfold processRemove. split.
  - apply (forEach_recorded
             (fun t s => exists o, txObj (extractTx t) = Some o
                                   /\ keepsRemoved (objectId o) s)).
    + apply processRemoveTx_records.
    + intros tx s t (o & Ho & Hk). exists o. split; [done|].
      by apply processRemoveTx_keeps.
  - intros k. apply forEach_keeps. intros tx s.
    apply processRemoveTx_keeps.
Qed.

(** [getParentClass] answers the class itself or one of its ancestors
    declared in the domain of the class; among the ancestors it is the
    last one so declared. *)
Theorem getParentClass_domain (cls : Ref) :
  (getParentClass cls = cls
   /\ Forall (fun a => classDomain a <> Some (getDomain cls))
        (getAncestors cls))
  \/ (exists pre post,
        getAncestors cls = pre ++ getParentClass cls :: post
        /\ classDomain (getParentClass cls) = Some (getDomain cls)
        /\ Forall (fun a => classDomain a <> Some (getDomain cls)) post).
Proof.
  unfold getParentClass. generalize (getDomain cls) as dom.
  generalize (getAncestors cls) as l. intros l dom.
  induction l as [|a l IH] using rev_ind.
  - left. split; [done|constructor].
  - rewrite fold_left_app. cbn [fold_left].
    destruct (decide (classDomain a = Some dom)) as [Ha|Ha].
    + right. exists l, []. split_and!; [done|done|constructor].
    + destruct IH as [[Heq Hall]|(pre & post & Hl & Hd & Hpost)].
      * left. split; [done|]. apply Forall_app_2; [done|]. by constructor.
      * right. exists pre, (post ++ [a]). split_and!; [|done|].
        -- rewrite Hl at 1. by rewrite <- app_assoc.
        -- apply Forall_app_2; [done|]. by constructor.
Qed.

End DerivationMore.

(** ** More of the apply-if serializer and of [processTxes] *)

Section ProcessTxesMore.
Context {H : Hierarchy} {P : Probe}.
Import ApplyIf.

Lemma filter_sublist {A : Type} (p : A -> bool) (l : list A) :
  sublist (List.filter p l) l.
Proof.
  induction l as [|x l IH]; cbn [List.filter]; [constructor|].
  destruct (p x); by constructor.
Qed.

Lemma filter_sublist_filter {A : Type} (p q : A -> bool) (l : list A) :
  (forall x, p x = true -> q x = true) ->
  sublist (List.filter p l) (List.filter q l).
Proof.
  intros Hpq. induction l as [|x l IH]; cbn [List.filter]; [constructor|].
  destruct (p x) eqn:Hp.
  - rewrite (Hpq x Hp). by constructor.
  - destruct (q x); [by constructor|done].
Qed.

Lemma fillTxes_buckets (txes : list Tx) (b : Buckets) :
  fillTxes txes b
  = mkBuckets
      (txToStore b
       ++ List.filter
            (fun tx =>
               negb (isTxApplyIf tx)
               && negb (bool_decide (tx_space (txHead tx) = space_DerivedTx))
               && match txObj tx with
                  | Some o =>
                      negb (bool_decide
                              (findDomain (objectClass o) = Some DOMAIN_TRANSIENT))
                  | None => true
                  end) txes)
      (modelTx b
       ++ List.filter
            (fun tx =>
               negb (isTxApplyIf tx)
               && bool_decide (txObjectSpace tx = Some space_Model)) txes)
      (txToProcess b ++ List.filter (fun tx => negb (isTxApplyIf tx)) txes)
      (applyTxes b ++ List.filter isTxApplyIf txes).
Proof.
  unfold fillTxes. revert b.
  induction txes as [|tx rest IH]; intros b.
  - cbn. rewrite !app_nil_r. by destruct b.
  - cbn [fold_left List.filter]. rewrite IH. unfold fillTx.
    destruct (isTxApplyIf tx) eqn:Ha; cbn [negb andb txToStore modelTx
      txToProcess applyTxes].
    + by rewrite <- app_assoc.
    + destruct (decide (tx_space (txHead tx) = space_DerivedTx)) as [Hd|Hd].
      * rewrite (bool_decide_eq_true_2 _ Hd). cbn [negb andb].
        destruct (bool_decide (txObjectSpace tx = Some space_Model));
          cbn [txToStore modelTx txToProcess applyTxes];
          by rewrite <- ?app_assoc.
      * rewrite (bool_decide_eq_false_2 _ Hd). cbn [negb andb].
        destruct (bool_decide (txObjectSpace tx = Some space_Model));
          (destruct (txObj tx) as [o|];
           [destruct (negb (bool_decide
                              (findDomain (objectClass o)
                               = Some DOMAIN_TRANSIENT)))|]);
          cbn [txToStore modelTx txToProcess applyTxes];
          by rewrite <- ?app_assoc.
Qed.

(** [fillTxes] sorts a batch into its four arrays without losing,
    doubling or reordering anything: the [TxApplyIf]s go to [applyTxes] and
    everything else to [txToProcess]; what goes to the transaction store
    is part of what is processed, and never a transaction of the
    derived-transaction space; [modelTx] takes, of what is processed, the
    transactions whose [objectSpace] is the model space, of whatever
    class, and only those. *)
Theorem fillTxes_partition (txes : list Tx) (b : Buckets) :
  applyTxes (fillTxes txes b) = applyTxes b ++ List.filter isTxApplyIf txes
  /\ txToProcess (fillTxes txes b)
     = txToProcess b ++ List.filter (fun tx => negb (isTxApplyIf tx)) txes
  /\ (exists stored,
        txToStore (fillTxes txes b) = txToStore b ++ stored
        /\ sublist stored (List.filter (fun tx => negb (isTxApplyIf tx)) txes)
        /\ Forall (fun tx => tx_space (txHead tx) <> space_DerivedTx) stored)
  /\ (exists model,
        modelTx (fillTxes txes b) = modelTx b ++ model
        /\ sublist model (List.filter (fun tx => negb (isTxApplyIf tx)) txes)
        /\ forall tx,
             tx ∈ model
             <-> tx ∈ txes /\ isTxApplyIf tx = false
                 /\ txObjectSpace tx = Some space_Model).
Proof.
  rewrite fillTxes_buckets. cbn [txToStore modelTx txToProcess applyTxes].
  split_and!; [done|done| |].
  - eexists. split; [done|]. split.
    + apply filter_sublist_filter. intros tx Htx.
      apply andb_true_iff in Htx as [Htx _].
      by apply andb_true_iff in Htx as [Htx _].
    + apply Forall_forall. intros tx Htx.
      apply list_elem_of_In, List.filter_In in Htx as [_ Htx].
      apply andb_true_iff in Htx as [Htx _].
      apply andb_true_iff in Htx as [_ Htx].
      apply negb_true_iff in Htx. by apply bool_decide_eq_false in Htx.
  - eexists. split; [done|]. split.
    + apply filter_sublist_filter. intros tx Htx.
      by apply andb_true_iff in Htx as [Htx _].
    + intros tx. rewrite list_elem_of_In, List.filter_In, <- list_elem_of_In.
      rewrite andb_true_iff, negb_true_iff. split.
      * intros (Hin & Ha & Hm). split_and!; [done|done|].
        by apply bool_decide_eq_true in Hm.
      * intros (Hin & Ha & Hm). split_and!; [done|done|].
        by apply bool_decide_eq_true.
Qed.

(** What [verifyApplyIf] answers once it is let through its [await]
    (every predicate evaluating): [passed] says that every [match]
    predicate finds a document and no [notMatch] predicate does.  The
    first [match] predicate that finds nothing decides: the predicates
    after it are not evaluated, so that none of them can make the call
    reject. *)
Theorem verifyApplyIf_verdict (scope : string) (sc : Scopes) :
  canResume (awaited scope sc) sc = true ->
  (forall (matches notMatch : list ClassQuery) (cnt : ClassQuery -> nat),
     (forall q, q ∈ matches ++ notMatch -> findCount q = Ret (cnt q)) ->
     verifyApplyIf scope matches notMatch sc
     = (VDone (forallb (fun q => (0 <? cnt q)%nat) matches
               && forallb (fun q => (cnt q =? 0)%nat) notMatch)
          (scope, fresh sc),
        snd (install scope sc)))
  /\ (forall (pre post notMatch : list ClassQuery) (q : ClassQuery),
        Forall (fun q0 => exists n, findCount q0 = Ret (S n)) pre ->
        findCount q = Ret O ->
        verifyApplyIf scope (pre ++ q :: post) notMatch sc
        = (VDone false (scope, fresh sc), snd (install scope sc))).
Proof.
  intros Hgo. split.
  - intros matches notMatch cnt Hcnt. unfold verifyApplyIf. rewrite Hgo.
    cbn [install fst snd].
    assert (Hall : allMatch matches
                   = Ret (forallb (fun q => (0 <? cnt q)%nat) matches)).
    { assert (Hm : forall q, q ∈ matches -> findCount q = Ret (cnt q)).
      { intros q Hq. apply Hcnt. apply elem_of_app. by left. }
      clear Hcnt. induction matches as [|q rest IH]; [done|].
      cbn [allMatch forallb]. rewrite (Hm q) by (by left).
      destruct (cnt q); [done|]. cbn. apply IH.
      intros q' Hq'. apply Hm. by right. }
    assert (Hnone : noneMatch notMatch
                    = Ret (forallb (fun q => (cnt q =? 0)%nat) notMatch)).
    { assert (Hm : forall q, q ∈ notMatch -> findCount q = Ret (cnt q)).
      { intros q Hq. apply Hcnt. apply elem_of_app. by right. }
      clear Hcnt Hall. induction notMatch as [|q rest IH]; [done|].
      cbn [noneMatch forallb]. rewrite (Hm q) by (by left).
      destruct (cnt q); [|done]. cbn. apply IH.
      intros q' Hq'. apply Hm. by right. }
    rewrite Hall. destruct (forallb _ matches); [|done].
    by rewrite Hnone.
  - intros pre post notMatch q Hpre Hq. unfold verifyApplyIf. rewrite Hgo.
    cbn [install fst snd].
    assert (Hall : allMatch (pre ++ q :: post) = Ret false).
    { induction Hpre as [|q0 pre [n Hn] _ IH]; cbn [app allMatch].
      - by rewrite Hq.
      - by rewrite Hn. }
    by rewrite Hall.
Qed.

Lemma verifyApplyIf_done (scope : string) (matches notMatch : list ClassQuery)
    (sc : Scopes) :
  canResume (awaited scope sc) sc = true ->
  (forall q, q ∈ matches ++ notMatch -> exists n, findCount q = Ret n) ->
  exists passed,
    verifyApplyIf scope matches notMatch sc
    = (VDone passed (scope, fresh sc), snd (install scope sc)).
Proof.
  intros Hgo Hev. unfold verifyApplyIf. rewrite Hgo. cbn [install fst snd].
  assert (Hall : exists b, allMatch matches = Ret b).
  { assert (Hm : forall q, q ∈ matches -> exists n, findCount q = Ret n).
    { intros q Hq. apply Hev. apply elem_of_app. by left. }
    clear Hev. induction matches as [|q rest IH]; [by eexists|].
    cbn [allMatch]. destruct (Hm q) as [[|n] ->]; [by left|by eexists|].
    apply IH. intros q' Hq'. apply Hm. by right. }
  assert (Hnone : exists b, noneMatch notMatch = Ret b).
  { assert (Hm : forall q, q ∈ notMatch -> exists n, findCount q = Ret n).
    { intros q Hq. apply Hev. apply elem_of_app. by right. }
    clear Hev Hall. induction notMatch as [|q rest IH]; [by eexists|].
    cbn [noneMatch]. destruct (Hm q) as [[|n] ->]; [by left| |by eexists].
    apply IH. intros q' Hq'. apply Hm. by right. }
  destruct Hall as [[|] ->]; [|by eexists].
  destruct Hnone as [b ->]. by eexists.
Qed.

(** Two [TxApplyIf] of one scope in one batch: the first registers the
    scope, and its [onEnd] runs in the [finally] block of the call; the
    second awaits the promise of the first, which only that [finally]
    resolves.  The call never returns and the scope stays taken. *)
Theorem processTxes_same_scope_twice (fuel : nat)
    (body : Buckets -> Outcome (list TxResult * list Tx))
    (h1 h2 : TxHead) (scope : string)
    (m1 n1 m2 n2 : list ClassQuery) (t1 t2 : list Tx) :
  (forall q, q ∈ m1 ++ n1 -> exists n, findCount q = Ret n) ->
  processTxes (S (S fuel)) body
    [TxApplyIf h1 scope m1 n1 t1; TxApplyIf h2 scope m2 n2 t2] emptyScopes
  = Some (NeverReturns, mkScopes {[ scope := 0%nat ]} ∅ 1).
Proof.
  intros Hev. unfold processTxes.
  rewrite fillTxes_buckets. cbn [List.filter isTxApplyIf negb andb app
    txToStore modelTx txToProcess applyTxes].
  remember (S fuel) as fuel1 eqn:Hfuel.
  cbn [walkApply applyTxes buckets lookup list_lookup scopes].
  destruct (verifyApplyIf_done scope m1 n1 emptyScopes) as [passed Hv];
    [done|done|].
  rewrite Hv. cbn [install emptyScopes fresh entries settled snd].
  assert (Hblocked : forall b ends res der,
            applyTxes b !! 1%nat = Some (TxApplyIf h2 scope m2 n2 t2) ->
            walkApply fuel1 1
              (mkWalk b ends res der
                 (mkScopes (<[scope := 0%nat]> ∅) ∅ 1))
            = Some (WalkBlocked,
                    mkWalk b ends res der
                      (mkScopes (<[scope := 0%nat]> ∅) ∅ 1))).
  { intros b ends res der Hb. subst fuel1. cbn [walkApply buckets].
    rewrite Hb.
    unfold verifyApplyIf, awaited. cbn [entries scopes].
    rewrite lookup_insert_eq. cbn [canResume settled].
    rewrite bool_decide_eq_false_2 by set_solver. reflexivity. }
  destruct passed.
  - rewrite Hblocked.
    + cbn [scopes]. by rewrite insert_empty.
    + rewrite fillTxes_buckets. cbn [applyTxes]. done.
  - rewrite Hblocked; [|done]. cbn [scopes]. by rewrite insert_empty.
Qed.

Lemma walkApply_ends (fuel : nat) :
  forall (pos : nat) (w w' : Walk) (e : WalkEnd),
    walkApply fuel pos w = Some (e, w') ->
    (exists more, applyTxes (buckets w') = applyTxes (buckets w) ++ more)
    /\ (exists more, onEnds w' = onEnds w ++ more)
    /\ (e = WalkDone ->
        forall i h s m n t,
          (pos <= i)%nat ->
          applyTxes (buckets w') !! i = Some (TxApplyIf h s m n t) ->
          exists p, (s, p) ∈ onEnds w').
Proof.
  induction fuel as [|fuel IH]; intros pos w w' e Hrun; [done|].
  cbn [walkApply] in Hrun.
  destruct (applyTxes (buckets w) !! pos) as [tx|] eqn:Hpos.
  - assert (Hskip : walkApply fuel (S pos) w = Some (e, w') ->
              isTxApplyIf tx = false ->
              (exists more, applyTxes (buckets w')
                            = applyTxes (buckets w) ++ more)
              /\ (exists more, onEnds w' = onEnds w ++ more)
              /\ (e = WalkDone ->
                  forall i h s m n t,
                    (pos <= i)%nat ->
                    applyTxes (buckets w') !! i = Some (TxApplyIf h s m n t) ->
                    exists p, (s, p) ∈ onEnds w')).
    { intros Hnext Hno.
      destruct (IH _ _ _ _ Hnext) as ([more Hb] & Hends & Hdone).
      split_and!; [by exists more|done|].
      intros -> i h s m n t Hi Hlook.
      destruct (decide (i = pos)) as [->|Hne].
      - rewrite Hb, lookup_app_l in Hlook by (by eapply lookup_lt_Some).
        rewrite Hpos in Hlook. inversion Hlook; subst. done.
      - apply (Hdone eq_refl i h s m n t); [lia|done]. }
    destruct tx as [| | | | |h0 scope matches notMatch txes|];
      try (by apply Hskip).
    destruct (verifyApplyIf scope matches notMatch (scopes w))
      as [[|err|passed oe] sc] eqn:Hv.
    + inversion Hrun; subst. cbn. split_and!; [by exists []; rewrite app_nil_r
        |by exists []; rewrite app_nil_r|done].
    + inversion Hrun; subst. cbn. split_and!; [by exists []; rewrite app_nil_r
        |by exists []; rewrite app_nil_r|done].
    + assert (Hoe : fst oe = scope).
      { unfold verifyApplyIf in Hv.
        destruct (canResume _ _); [|done]. cbn [install] in Hv.
        destruct (allMatch matches) as [[|]|]; try (by inversion Hv).
        destruct (noneMatch notMatch); by inversion Hv. }
      assert (Hgen : forall w1,
                walkApply fuel (S pos) w1 = Some (e, w') ->
                (exists more, applyTxes (buckets w1)
                              = applyTxes (buckets w) ++ more) ->
                onEnds w1 = onEnds w ++ [oe] ->
                (exists more, applyTxes (buckets w')
                              = applyTxes (buckets w) ++ more)
                /\ (exists more, onEnds w' = onEnds w ++ more)
                /\ (e = WalkDone ->
                    forall i h s m n t,
                      (pos <= i)%nat ->
                      applyTxes (buckets w') !! i
                      = Some (TxApplyIf h s m n t) ->
                      exists p, (s, p) ∈ onEnds w')).
      { intros w1 Hnext [more1 Hb1] He1.
        destruct (IH _ _ _ _ Hnext) as ([more Hb] & [moreE He] & Hdone).
        split_and!.
        - exists (more1 ++ more). by rewrite Hb, Hb1, <- app_assoc.
        - exists ([oe] ++ moreE). by rewrite He, He1, <- app_assoc.
        - intros -> i h s m n t Hi Hlook.
          destruct (decide (i = pos)) as [->|Hne].
          + rewrite Hb, Hb1, <- app_assoc, lookup_app_l in Hlook
              by (by eapply lookup_lt_Some).
            rewrite Hpos in Hlook. inversion Hlook; subst.
            exists (snd oe). rewrite He, He1.
            apply elem_of_app. left. apply elem_of_app. right.
            apply list_elem_of_singleton. by destruct oe.
          + apply (Hdone eq_refl i h s m n t); [lia|done]. }
      destruct passed.
      * apply (Hgen _ Hrun); [|done]. cbn [buckets].
        rewrite fillTxes_buckets. cbn [applyTxes]. by eexists.
      * apply (Hgen _ Hrun); [|done]. exists []. by rewrite app_nil_r.
  - inversion Hrun; subst. split_and!; [by exists []; rewrite app_nil_r
      |by exists []; rewrite app_nil_r|].
    intros _ i h s m n t Hi Hlook. exfalso.
    apply lookup_ge_None in Hpos. apply lookup_lt_Some in Hlook. lia.
Qed.

(** A call of [processTxes] that returns has released what it took: no
    scope named by a [TxApplyIf] of the batch is left in the scopes
    map. *)
Theorem processTxes_returns_released (fuel : nat)
    (body : Buckets -> Outcome (list TxResult * list Tx))
    (txes : list Tx) (sc sc' : Scopes) (r : list TxResult) (d : list Tx) :
  processTxes fuel body txes sc = Some (Returned r d, sc') ->
  forall h s m n t,
    TxApplyIf h s m n t ∈ txes -> entries sc' !! s = None.
Proof.
  unfold processTxes. intros Hrun h s m n t Hin.
  destruct (walkApply fuel 0 _) as [[[| |] w]|] eqn:Hwalk; try done.
  destruct (body (buckets w)) as [[r0 d0]|]; [|done].
  inversion Hrun; subst. clear Hrun.
  destruct (walkApply_ends _ _ _ _ _ Hwalk) as ([more Hb] & _ & Hdone).
  cbn [buckets] in Hb. rewrite fillTxes_buckets in Hb. cbn [applyTxes app] in Hb.
  assert (Hmine : TxApplyIf h s m n t ∈ List.filter isTxApplyIf txes).
  { apply list_elem_of_In, List.filter_In. split; [|done].
    by apply list_elem_of_In. }
  apply list_elem_of_lookup in Hmine as [i Hi].
  destruct (Hdone eq_refl i h s m n t) as [p Hp]; [lia| |].
  { rewrite Hb. by apply lookup_app_l_Some. }
  by apply (runOnEnds_released _ _ _ p).
Qed.

End ProcessTxesMore.

(** ** The map of removed documents only grows *)

Section RemovedMapProps.
Context {H : Hierarchy} {DB : Type} {SV : Server DB}.
Import Router Derivation.

Lemma recordRemoved_keeps (docs : list Doc) (k : Ref) (st : St DB) :
  keepsRemoved k st -> keepsRemoved k (recordRemoved docs st).
Proof.
  unfold recordRemoved, keepsRemoved. revert st.
  induction docs as [|d docs IH]; intros st Hk; [done|].
  cbn [fold_left]. apply IH. cbn.
  destruct (decide (_id d = k)) as [->|Hne].
  - rewrite lookup_insert_eq. by eexists.
  - by rewrite lookup_insert_ne.
Qed.

Lemma recordRemoved_records (docs : list Doc) (d : Doc) (st : St DB) :
  d ∈ docs -> keepsRemoved (_id d) (recordRemoved docs st).
Proof.
  unfold recordRemoved. revert st.
  induction docs as [|x docs IH]; intros st Hd; [by apply elem_of_nil in Hd|].
  cbn [fold_left]. apply elem_of_cons in Hd as [->|Hd].
  - apply (recordRemoved_keeps docs). unfold keepsRemoved. cbn.
    rewrite lookup_insert_eq. by eexists.
  - by apply IH.
Qed.

Lemma processPart_keeps (part : list Tx) (ld : option Domain)
    (result : list TxResult) (k : Ref) (st : St DB) :
  keepsRemoved k st -> keepsRemoved k (snd (processPart part ld result st)).
Proof.
  intros Hk. unfold processPart. destruct part as [|t part]; [done|].
  destruct (getAdapter (domainKey ld)) as [adapter|e]; [|done].
  set (st1 := match toDelete (t :: part) with
              | [] => st
              | _ :: _ => recordRemoved _ st
              end).
  assert (Hk1 : keepsRemoved k st1).
  { unfold st1. destruct (toDelete (t :: part)); [done|].
    by apply recordRemoved_keeps. }
  by destruct (a_tx adapter (db st1) (t :: part)).
Qed.

Lemma routeLoop_keeps (txes : list Tx) (k : Ref) :
  forall (part : list Tx) (ld : option Domain) (result : list TxResult)
         (st : St DB),
    keepsRemoved k st ->
    keepsRemoved k (snd (routeLoop txes part ld result st)).
Proof.
  induction txes as [|tx rest IH]; intros part ld result st Hk.
  - cbn [routeLoop]. by apply processPart_keeps.
  - cbn [routeLoop]. destruct (txObj (extractTx tx)) as [o|].
    + destruct part as [|t part]; [by apply IH|].
      destruct (decide (ld = Some (getDomain (objectClass o))));
        [by apply IH|].
      unfold bind.
      pose proof (processPart_keeps (t :: part) ld result k st Hk) as Hk1.
      destruct (processPart (t :: part) ld result st) as [[r|e] st1];
        [by apply IH|done].
    + by apply IH.
Qed.

(** [routeTx] never takes an entry out of [removedMap]: whether it returns
    or throws, a document recorded as removed stays recorded (what the
    adapters load for the [TxRemoveDoc]s of a run is added, nothing is
    deleted). *)
Theorem routeTx_keeps_removed (txes : list Tx) (k : Ref) (st : St DB) :
  keepsRemoved k st -> keepsRemoved k (snd (routeTx txes st)).
Proof. apply routeLoop_keeps. Qed.

End RemovedMapProps.

Section ReportedProps.
Context {H : Hierarchy} {P : Probe}.
Import ApplyIf.

(** What [processTxes] reports as derived for a batch of two [TxApplyIf]
    of different scopes that both pass: the transactions of the second
    (then what the derivation yields), and not those of the first, though
    both were processed; each [TxApplyIf] gets its own success result, and
    both scopes are free afterwards. *)
Theorem processTxes_reports_last (fuel : nat)
    (body : Buckets -> Outcome (list TxResult * list Tx))
    (h1 h2 : TxHead) (s1 s2 : string)
    (m1 n1 m2 n2 : list ClassQuery) (t1 t2 : list Tx)
    (r : list TxResult) (d : list Tx) :
  s1 <> s2 ->
  allMatch m1 = Ret true -> noneMatch n1 = Ret true ->
  allMatch m2 = Ret true -> noneMatch n2 = Ret true ->
  List.filter isTxApplyIf (t1 ++ t2) = [] ->
  body (fillTxes t2 (fillTxes t1
          (mkBuckets [] [] []
             [TxApplyIf h1 s1 m1 n1 t1; TxApplyIf h2 s2 m2 n2 t2])))
  = Ret (r, d) ->
  exists sc',
    processTxes (S (S (S fuel))) body
      [TxApplyIf h1 s1 m1 n1 t1; TxApplyIf h2 s2 m2 n2 t2] emptyScopes
    = Some (Returned ([ApplyIfResult true; ApplyIfResult true] ++ r) (t2 ++ d),
            sc')
    /\ entries sc' = ∅.
Proof.
  intros Hne Hm1 Hn1 Hm2 Hn2 Hflat Hbody.
  rewrite List.filter_app in Hflat. apply app_eq_nil in Hflat as [Hf1 Hf2].
  unfold processTxes.
  change (fillTxes [TxApplyIf h1 s1 m1 n1 t1; TxApplyIf h2 s2 m2 n2 t2]
            (mkBuckets [] [] [] []))
    with (mkBuckets [] [] []
            [TxApplyIf h1 s1 m1 n1 t1; TxApplyIf h2 s2 m2 n2 t2]).
  remember (S (S fuel)) as fuel2 eqn:Hfuel2.
  cbn [walkApply applyTxes buckets lookup list_lookup scopes].
  unfold verifyApplyIf at 1, awaited, emptyScopes. cbn [entries].
  rewrite lookup_empty. cbn [canResume install fresh entries settled].
  rewrite Hm1, Hn1.
  subst fuel2. remember (S fuel) as fuel1 eqn:Hfuel1.
  cbn [walkApply buckets scopes onEnds result].
  assert (Ha1 : applyTxes (fillTxes t1
                  (mkBuckets [] [] []
                     [TxApplyIf h1 s1 m1 n1 t1; TxApplyIf h2 s2 m2 n2 t2]))
                = [TxApplyIf h1 s1 m1 n1 t1; TxApplyIf h2 s2 m2 n2 t2]).
  { rewrite fillTxes_buckets. cbn [applyTxes]. by rewrite Hf1. }
  rewrite Ha1. cbn [lookup list_lookup].
  unfold verifyApplyIf at 1, awaited. cbn [entries].
  rewrite lookup_insert_ne by done. rewrite lookup_empty.
  cbn [canResume install fresh entries settled].
  rewrite Hm2, Hn2.
  subst fuel1. cbn [walkApply buckets scopes onEnds result].
  assert (Ha2 : applyTxes (fillTxes t2 (fillTxes t1
                  (mkBuckets [] [] []
                     [TxApplyIf h1 s1 m1 n1 t1; TxApplyIf h2 s2 m2 n2 t2])))
                = [TxApplyIf h1 s1 m1 n1 t1; TxApplyIf h2 s2 m2 n2 t2]).
  { rewrite fillTxes_buckets. cbn [applyTxes]. by rewrite Ha1, Hf2. }
  rewrite Ha2. cbn [lookup list_lookup buckets]. rewrite Hbody.
  eexists. split; [reflexivity|].
  cbn [runOnEnds fold_left onEnd fst snd entries app onEnds scopes].
  apply map_eq. intros k. rewrite lookup_empty.
  destruct (decide (k = s2)) as [->|Hk2]; [apply lookup_delete_eq|].
  rewrite lookup_delete_ne by done.
  destruct (decide (k = s1)) as [->|Hk1]; [apply lookup_delete_eq|].
  rewrite lookup_delete_ne by done.
  by rewrite !lookup_insert_ne, lookup_empty.
Qed.

End ReportedProps.

(** ** The properties at work on the samples *)

Lemma writeChanges_read_back_witness :
  Digest.applyFile (BS := Cases.snapshotStore) "task" (Digest.mkDState ∅ [])
    "task-3.snp"
  = Digest.mkDState (Backup.applyChanges Cases.changes ∅) [].
Proof.
  apply (writeChanges_read_back (BS := Cases.snapshotStore) Cases.changes
           "task-3.snp" "task" (Digest.mkDState ∅ [])).
  - reflexivity.
  - repeat constructor.
  - repeat constructor.
Defined.

Lemma fmap_Some_defined (m : gmap Ref string) (k : Ref) :
  (Some <$> m) !! k <> Some None.
Proof. rewrite lookup_fmap. by destruct (m !! k). Qed.

Lemma answers_NoDup :
  NoDup (map Backup.i_id (Backup.delivered Cases.answers)).
Proof.
  cbn. repeat (constructor; [set_solver|]). constructor.
Qed.

Lemma loadChangesFromServer_diff_witness :
  exists st,
    Backup.loadChangesFromServer Cases.answers
      (Backup.mkLoading Cases.earlier (Backup.mkSnapshot [] [] []) 0 [])
    = Some st
    /\ Backup.applyChanges
         (Backup.mkSnapshot (Backup.added (Backup.l_changes st))
            (Backup.updated (Backup.l_changes st))
            (Backup.leftOver (Backup.l_digest st)))
         Cases.earlier
       = list_to_map
           (map (fun d => (Backup.i_id d, Some (Backup.i_hash d)))
              (Backup.delivered Cases.answers)).
Proof.
  eexists. split; [reflexivity|].
  apply (loadChangesFromServer_diff Cases.earlier Cases.answers).
  - apply fmap_Some_defined.
  - apply answers_NoDup.
  - reflexivity.
Defined.

Lemma loadChangesFromServer_chunks_witness :
  exists st,
    Backup.loadChangesFromServer Cases.answers
      (Backup.mkLoading Cases.earlier (Backup.mkSnapshot [] [] []) 0 [])
    = Some st
    /\ concat (Backup.l_chunks st)
       = map Backup.i_id
           (List.filter (Backup.differs Cases.earlier)
              (Backup.delivered Cases.answers))
    /\ Forall (fun c => c <> []) (Backup.l_chunks st)
    /\ Backup.l_changed st = length (concat (Backup.l_chunks st)).
Proof.
  eexists. split; [reflexivity|].
  apply (loadChangesFromServer_chunks Cases.earlier Cases.answers).
  - apply fmap_Some_defined.
  - apply answers_NoDup.
  - reflexivity.
Defined.

(** The sample backup: [b] is added and [c] updated, [d] is what is left
    of the digest, and the large document closes a group of its own. *)
Example loadChangesFromServer_sample :
  (fun st => (Backup.added (Backup.l_changes st),
              Backup.updated (Backup.l_changes st),
              Backup.leftOver (Backup.l_digest st),
              Backup.l_chunks st, Backup.l_changed st))
    <$> Backup.loadChangesFromServer Cases.answers
          (Backup.mkLoading Cases.earlier (Backup.mkSnapshot [] [] []) 0 [])
  = Some ([("b", "h2")], [("c", "h3")], ["d"], [["b"]; ["c"]], 2%nat).
Proof. vm_compute. reflexivity. Qed.


(** The three ids of the sample chunks are cleaned in one part. *)
Lemma cleanDomain_parts_witness :
  exists parts,
    concat parts = ["a"; "b"; "c"]
    /\ forall w, Backup.cleanDomain Cases.cleanLog 4 Cases.answers w
                 = Some (Backup.cleanEach Cases.cleanLog parts w).
Proof.
  destruct (cleanDomain_parts Cases.cleanLog Cases.answers ["a"; "b"; "c"] 4
              eq_refl ltac:(cbn; lia))
    as (_ & parts & Hcat & _ & _ & Hrun).
  by exists parts.
Defined.

Lemma addModelTxs_as_constructed_witness :
  Engine.addModelTxs (HS := Sample.hashing) [Sample.modelTxOf "d"]
    (Ledger.construct (HS := Sample.hashing) Sample.threeTx)
  = (Ret tt, Ledger.construct (HS := Sample.hashing) (Sample.threeTx ++ [Sample.modelTxOf "d"])).
Proof.
  destruct (addModelTxs_as_constructed (HS := Sample.hashing) Sample.threeTx
              [Sample.modelTxOf "d"] ltac:(discriminate))
    as [Hrun _].
  exact Hrun.
Defined.

(** A client at the head of the three-transaction ledger learns of the
    fourth and nothing else. *)
Lemma loadModel_catches_up_witness :
  Ledger.loadModel
    (snd (Engine.addModelTxs (HS := Sample.hashing) [Sample.modelTxOf "d"]
            (Ledger.construct (HS := Sample.hashing) Sample.threeTx)))
    0 (Some "<<<tx@a>tx@b>tx@c>")
  = Ledger.Response
      (Ledger.mkResponse false
         (last (Ledger.setModel (HS := Sample.hashing) (Sample.threeTx ++ [Sample.modelTxOf "d"])))
         [Sample.modelTxOf "d"]).
Proof.
  apply (loadModel_catches_up (HS := Sample.hashing) Sample.threeTx
           [Sample.modelTxOf "d"] "<<<tx@a>tx@b>tx@c>" 0).
  - reflexivity.
  - vm_compute. repeat (constructor; [set_solver|]). constructor.
Defined.

(** The mixed batch holds a comment, and the domain of the comments has no
    adapter. *)
Lemma routeTx_adapter_missing_witness :
  exists d runs t rest st',
    ~ Router.served (SV := Cases.unserved) d
    /\ Router.routeTx (H := Sample.hierarchy) (SV := Cases.unserved)
         Sample.mixedBatch
         (mkSt ∅ 0 (Sample.issue1 :: Sample.orphans) [] [] [])
       = (Threw ("adapter not provided: "
                 +:+ default (defaultAdapter (Server := Cases.unserved))
                       (_domains (Server := Cases.unserved) !! d)), st')
    /\ Router.supported Sample.mixedBatch = concat (map snd runs) ++ t :: rest
    /\ Router.txDomain (H := Sample.hierarchy) t = d
    /\ Forall (fun r => Router.served (SV := Cases.unserved) (fst r)) runs
    /\ Forall (Router.goodRun (H := Sample.hierarchy)) runs
    /\ calls st' = [] ++ runs
    /\ live st' = [] ++ concat (map snd runs)
    /\ db st'
       = Router.applied (SV := Cases.unserved) runs
           (Sample.issue1 :: Sample.orphans).
Proof.
  apply (routeTx_adapter_missing (H := Sample.hierarchy) (SV := Cases.unserved)).
  exists (TxCreateDoc (Sample.head0 "bob") (mkObj "c2" "Comment" "proj")).
  split.
  - vm_compute. set_solver.
  - unfold Router.served. vm_compute. by intros [? ?].
Defined.

(** The run of the two transactions on issues was applied before the
    comment made the call fail; the removal that follows the comment was
    not. *)
Example routeTx_adapter_missing_sample :
  let r := Router.routeTx (H := Sample.hierarchy) (SV := Cases.unserved)
             Sample.mixedBatch
             (mkSt ∅ 0 (Sample.issue1 :: Sample.orphans) [] [] []) in
  fst r = Threw "adapter not provided: missing"
  /\ map fst (calls (snd r)) = ["task"]
  /\ map (fun r => length (snd r)) (calls (snd r)) = [2%nat]
  /\ Sample.issue1 ∈ db (snd r).
Proof.
  vm_compute. split_and!; try reflexivity. apply list_elem_of_In. cbn. tauto.
Qed.


Lemma verifyApplyIf_verdict_witness :
  ApplyIf.verifyApplyIf (P := Sample.probe) "board"
    [mkCQ "Issue" "{}"] [mkCQ "Label" "{}"] ApplyIf.emptyScopes
  = (ApplyIf.VDone false ("board", 0%nat),
     snd (ApplyIf.install "board" ApplyIf.emptyScopes)).
Proof.
  destruct (verifyApplyIf_verdict (P := Sample.probe) "board"
              ApplyIf.emptyScopes eq_refl) as [Hall _].
  apply (Hall [mkCQ "Issue" "{}"] [mkCQ "Label" "{}"] (fun _ => 1%nat)).
  intros q Hq. repeat (apply elem_of_cons in Hq as [->|Hq]; [reflexivity|]).
  by apply elem_of_nil in Hq.
Defined.

Lemma processTxes_same_scope_twice_witness :
  ApplyIf.processTxes (H := Sample.hierarchy) (P := Sample.probe) 2
    Sample.quietBody
    [Sample.applyIfOn "board" [mkCQ "Issue" "{}"];
     Sample.applyIfOn "board" [mkCQ "Issue" "{}"]]
    ApplyIf.emptyScopes
  = Some (ApplyIf.NeverReturns, ApplyIf.mkScopes {[ "board" := 0%nat ]} ∅ 1).
Proof.
  apply (processTxes_same_scope_twice (H := Sample.hierarchy)
           (P := Sample.probe) 0 Sample.quietBody).
  intros q Hq. exists 1%nat.
  repeat (apply elem_of_cons in Hq as [->|Hq]; [reflexivity|]).
  by apply elem_of_nil in Hq.
Defined.

Lemma processTxes_returns_released_witness :
  exists r d sc',
    ApplyIf.processTxes (H := Sample.hierarchy) (P := Sample.probe) 4
      Sample.quietBody [Sample.applyIfOn "board" [mkCQ "Issue" "{}"]]
      ApplyIf.emptyScopes
    = Some (ApplyIf.Returned r d, sc')
    /\ ApplyIf.entries sc' !! "board" = None.
Proof.
  eexists _, _, _. split; [reflexivity|].
  eapply (processTxes_returns_released (H := Sample.hierarchy)
            (P := Sample.probe) 4 Sample.quietBody
            [Sample.applyIfOn "board" [mkCQ "Issue" "{}"]]
            ApplyIf.emptyScopes).
  - reflexivity.
  - unfold Sample.applyIfOn. by left.
Defined.

Lemma routeTx_keeps_removed_witness :
  Derivation.keepsRemoved "issue1"
    (snd (Router.routeTx (H := Sample.hierarchy) (SV := Sample.server)
            Sample.mixedBatch Sample.afterRemove)).
Proof.
  apply (routeTx_keeps_removed (H := Sample.hierarchy) (SV := Sample.server)).
  unfold Derivation.keepsRemoved. cbn. rewrite lookup_singleton_eq.
  by eexists.
Defined.

Lemma processTxes_reports_last_witness :
  exists sc',
    ApplyIf.processTxes (H := Sample.hierarchy) (P := Sample.probe) 3
      Sample.quietBody
      [Sample.applyIfOn "board" [mkCQ "Issue" "{}"];
       TxApplyIf (Sample.head0 "bob") "sprint" [] []
         [TxRemoveDoc (Sample.head0 "bob") (mkObj "l1" "Label" "proj")]]
      ApplyIf.emptyScopes
    = Some (ApplyIf.Returned
              ([ApplyIfResult true; ApplyIfResult true] ++ [])
              ([TxRemoveDoc (Sample.head0 "bob") (mkObj "l1" "Label" "proj")]
               ++ []),
            sc')
    /\ ApplyIf.entries sc' = ∅.
Proof.
  apply (processTxes_reports_last (H := Sample.hierarchy) (P := Sample.probe)
           0 Sample.quietBody (Sample.head0 "alice") (Sample.head0 "bob")
           "board" "sprint" [mkCQ "Issue" "{}"] [] [] []);
    try reflexivity.
  discriminate.
Defined.

(** With the echoing trigger no number of passes is enough. *)
Lemma processDerived_noisy_witness :
  Derivation.processDerived (H := Sample.hierarchy)
    (SV := Store.storeServer (H := Sample.hierarchy) Cases.echo Z.of_nat)
    100 [] Sample.afterRemove
  = None.
Proof.
  apply (processDerived_noisy (H := Sample.hierarchy) Cases.echo Z.of_nat).
  intros txes store rm. discriminate.
Defined.
